(** * Contact directory accessor (src/utils/contacts.ts)

  A shallow embedding of the three exported operations [getAllNumbers],
  [findNumber] and [findContactByPhone], of the access probe they share, and
  of the enumeration script that [getAllNumbers] sends to the Contacts
  application.

  Layout: the data model and the operations come first (JavaScript strings,
  dynamically typed values, plain objects used as dictionaries, the
  AppleScript enumeration loop, the bridge and the operations themselves),
  the lemmas and theorems follow. *)

From Stdlib Require Import Bool Ascii String List NArith ZArith Lia.
From Stdlib Require Import Permutation Sorted DecimalString.
Import ListNotations.

Set Warnings "-register-all".

Local Open Scope list_scope.
Local Open Scope string_scope.

(* ================================================================== *)
(** * Part I: definitions *)
(* ================================================================== *)

(** ** JavaScript string primitives

  A JavaScript string is a sequence of UTF-16 code units.  The model
  carries the code units below 256, one per [ascii]; on those, the
  primitives below compute what the engine computes. *)

Module JsStr.

Definition code (c : ascii) : N := N_of_ascii c.

Definition inRange (lo hi : N) (c : ascii) : bool :=
  (lo <=? code c)%N && (code c <=? hi)%N.

(** WhiteSpace and LineTerminator code units recognised by
    [String.prototype.trim]: TAB, LF, VT, FF, CR, SP and NBSP. *)
Definition isWhiteSpace (c : ascii) : bool :=
  inRange 9 13 c || (code c =? 32)%N || (code c =? 160)%N.

Fixpoint trimStart (s : string) : string :=
  match s with
  | EmptyString => EmptyString
  | String c t => if isWhiteSpace c then trimStart t else s
  end.

Fixpoint trimEnd (s : string) : string :=
  match s with
  | EmptyString => EmptyString
  | String c t =>
      match trimEnd t with
      | EmptyString => if isWhiteSpace c then EmptyString else String c EmptyString
      | t' => String c t'
      end
  end.

(** [s.trim()] *)
Definition trim (s : string) : string := trimEnd (trimStart s).

(** Upper-case letters with a lower-case partner 32 code units above:
    A-Z, and the Latin-1 letters U+00C0-U+00DE except the multiplication
    sign U+00D7. *)
Definition isUpper (c : ascii) : bool :=
  inRange 65 90 c || inRange 192 214 c || inRange 216 222 c.

Definition lowerChar (c : ascii) : ascii :=
  if isUpper c then ascii_of_N (code c + 32) else c.

(** [s.toLowerCase()] *)
Fixpoint toLowerCase (s : string) : string :=
  match s with
  | EmptyString => EmptyString
  | String c t => String (lowerChar c) (toLowerCase t)
  end.

(** [s.includes(sub)]: [sub] occurs in [s] at some position. *)
Fixpoint includes (s sub : string) : bool :=
  match s with
  | EmptyString => prefix sub EmptyString
  | String _ t => prefix sub s || includes t sub
  end.

(** *** Character classes of regular expressions

    Enough of the regular-expression language for the one pattern of the
    module, [/[^0-9+]/g]: a bracketed class of ranges and single
    characters, possibly negated, and [replace] with the global flag. *)

Inductive ClassAtom : Type :=
| ClassRange (lo hi : ascii)
| ClassChar (c : ascii).

Record CharClass : Type := mkCharClass {
  negated : bool;
  atoms : list ClassAtom
}.

Definition atomMatches (c : ascii) (a : ClassAtom) : bool :=
  match a with
  | ClassRange lo hi => inRange (code lo) (code hi) c
  | ClassChar d => Ascii.eqb c d
  end.

Definition classMatches (cls : CharClass) (c : ascii) : bool :=
  xorb (negated cls) (existsb (atomMatches c) (atoms cls)).

(** [s.replace(/cls/g, replacement)]: every code unit the class matches is
    replaced, the others are copied. *)
Fixpoint replaceAll (cls : CharClass) (replacement s : string) : string :=
  match s with
  | EmptyString => EmptyString
  | String c t =>
      if classMatches cls c
      then replacement ++ replaceAll cls replacement t
      else String c (replaceAll cls replacement t)
  end.

(** The double quote, for script texts. *)
Definition dquote : string := String (ascii_of_N 34) EmptyString.

Definition newline : string := String (ascii_of_N 10) EmptyString.

(** A template literal written over several lines: the lines joined by
    line feeds. *)
Fixpoint lines (ls : list string) : string :=
  match ls with
  | [] => EmptyString
  | [l] => l
  | l :: rest => l ++ newline ++ lines rest
  end.

(** Decimal rendering of a non-negative integer, as [${n}] interpolates
    it. *)
Definition decimal (n : N) : string := NilZero.string_of_uint (N.to_uint n).

End JsStr.

(** ** JavaScript values

  What the bridge hands back is typed [any] by the module.  The values
  modelled are the data values: [undefined], [null], booleans, the
  integers of the safe range, strings, arrays, and plain objects given by
  their own data properties. *)

Module Js.

(** The numbers modelled are the safe integers, [|n| < 2^53]: on them the
    number is the integer and ToString is its decimal rendering. *)
Definition isSafeInteger (n : Z) : bool := (Z.abs n <? 2 ^ 53)%Z.

Record SafeInteger : Type := mkSafeInteger {
  integer : Z;
  integer_safe : isSafeInteger integer = true
}.

Inductive Value : Type :=
| Undefined
| Null
| Bool (b : bool)
| Number (n : SafeInteger)
| Str (s : string)
| Array (elems : list Value)
| Object (fields : list (string * Value)).

(** What a [catch] clause receives: an [Error] instance, given by its
    [message] property, or any other value the bridge rejected with. *)
Inductive Exn : Type :=
| ErrorObject (message : Value)
| Thrown (v : Value).

(** [new Error(message)] *)
Definition mkExn (message : string) : Exn := ErrorObject (Str message).

Inductive Result (A : Type) : Type :=
| Ok (a : A)
| Throw (e : Exn).
Arguments Ok {A} a.
Arguments Throw {A} e.

Definition TypeError (msg : string) : Exn := mkExn msg.

(** ToBoolean *)
Definition truthy (v : Value) : bool :=
  match v with
  | Undefined => false
  | Null => false
  | Bool b => b
  | Number n => negb (integer n =? 0)%Z
  | Str s => negb (s =? EmptyString)
  | Array _ => true
  | Object _ => true
  end.

Fixpoint lookup {A : Type} (key : string) (props : list (string * A)) : option A :=
  match props with
  | [] => None
  | (k, a) :: rest => if k =? key then Some a else lookup key rest
  end.

(** [v.key] on a value that is neither [undefined] nor [null], for a key
    that no prototype of these values defines (the module reads [name] and
    [phones]): the own property, or [undefined]. *)
Definition getProp (v : Value) (key : string) : Value :=
  match v with
  | Object fields =>
      match lookup key fields with
      | Some x => x
      | None => Undefined
      end
  | _ => Undefined
  end.

Definition decimalZ (n : Z) : string :=
  match n with
  | Zneg p => "-" ++ JsStr.decimal (Npos p)
  | _ => JsStr.decimal (Z.to_N n)
  end.

(** ToString.  [None] stands for the [TypeError] "Cannot convert object to
    primitive value", raised for an object whose own [toString] property
    shadows the inherited method (a data property is not callable).  An
    array is the comma-separated join of its elements, [undefined] and
    [null] elements giving the empty string. *)
Fixpoint toString (v : Value) : option string :=
  match v with
  | Undefined => Some "undefined"
  | Null => Some "null"
  | Bool true => Some "true"
  | Bool false => Some "false"
  | Number n => Some (decimalZ (integer n))
  | Str s => Some s
  | Array elems =>
      option_map (String.concat ",")
        ((fix each (l : list Value) : option (list string) :=
            match l with
            | [] => Some []
            | x :: rest =>
                let sx :=
                  match x with
                  | Undefined => Some EmptyString
                  | Null => Some EmptyString
                  | _ => toString x
                  end in
                match sx, each rest with
                | Some a, Some bs => Some (a :: bs)
                | _, _ => None
                end
            end) elems)
  | Object fields =>
      match lookup "toString" fields with
      | Some _ => None
      | None => Some "[object Object]"
      end
  end.

(** ToPropertyKey, for [obj[v] = ...]. *)
Definition toPropertyKey (v : Value) : Result string :=
  match toString v with
  | Some k => Ok k
  | None => Throw (TypeError "Cannot convert object to primitive value")
  end.

(** The text of [${error instanceof Error ? error.message : String(error)}],
    as the four handlers interpolate it; [None] when the conversion to a
    string throws. *)
Definition describe (error : Exn) : option string :=
  match error with
  | ErrorObject message => toString message
  | Thrown v => toString v
  end.

(** [v && v.trim() !== ''], as the module tests phone strings and the
    found name: a falsy value is falsy, a string is tested, and any other
    truthy value has no [trim] method. *)
Definition nonBlank (callee : string) (v : Value) : Result bool :=
  match v with
  | Str s => Ok (negb (s =? EmptyString) && negb (JsStr.trim s =? EmptyString))
  | _ =>
      if truthy v
      then Throw (TypeError (callee ++ ".trim is not a function"))
      else Ok false
  end.

(** *** Plain objects used as dictionaries

    [phoneNumbers] is an object literal whose own properties are created by
    assignment.  It is kept as the list of its own properties in creation
    order; values are arrays, kept as the list of their elements. *)

Definition Dict : Type := list (string * list Value).

Fixpoint update {A : Type} (key : string) (a : A) (props : list (string * A))
  : list (string * A) :=
  match props with
  | [] => [(key, a)]
  | (k, b) :: rest =>
      if k =? key then (k, a) :: rest else (k, b) :: update key a rest
  end.

(** [obj[key] = a] on an object literal: an existing property keeps its
    place, a new one is created last; assigning an object to [__proto__]
    runs the inherited setter and creates no own property. *)
Definition set (obj : Dict) (key : string) (a : list Value) : Dict :=
  if key =? "__proto__" then obj else update key a obj.

Definition isDigit (c : ascii) : bool := JsStr.inRange 48 57 c.

Fixpoint digitsValue (s : string) (acc : N) : option N :=
  match s with
  | EmptyString => Some acc
  | String c t =>
      if isDigit c
      then digitsValue t (acc * 10 + (JsStr.code c - 48))%N
      else None
  end.

(** An array index: a canonical numeric string (the decimal rendering of
    its own value) below 2^32 - 1. *)
Definition arrayIndex (key : string) : option N :=
  match digitsValue key 0 with
  | Some n =>
      if (JsStr.decimal n =? key) && (n <? 2 ^ 32 - 1)%N then Some n else None
  | None => None
  end.

Fixpoint insertByIndex {A : Type} (p : N * A) (sorted : list (N * A)) : list (N * A) :=
  match sorted with
  | [] => [p]
  | q :: rest =>
      if (fst p <? fst q)%N then p :: q :: rest else q :: insertByIndex p rest
  end.

Fixpoint sortByIndex {A : Type} (l : list (N * A)) : list (N * A) :=
  match l with
  | [] => []
  | p :: rest => insertByIndex p (sortByIndex rest)
  end.

Fixpoint indexed {A : Type} (props : list (string * A)) : list (N * (string * A)) :=
  match props with
  | [] => []
  | (k, a) :: rest =>
      match arrayIndex k with
      | Some n => (n, (k, a)) :: indexed rest
      | None => indexed rest
      end
  end.

Definition isNamed {A : Type} (p : string * A) : bool :=
  match arrayIndex (fst p) with
  | Some _ => false
  | None => true
  end.

(** OrdinaryOwnPropertyKeys: array indices in ascending numeric order,
    then the other string keys in creation order. *)
Definition ownPropertyOrder {A : Type} (props : list (string * A))
  : list (string * A) :=
  map snd (sortByIndex (indexed props)) ++ filter isNamed props.

(** [Object.entries(obj)] *)
Definition entries (obj : Dict) : list (string * list Value) :=
  ownPropertyOrder obj.

(** [Object.keys(obj)] *)
Definition keys (obj : Dict) : list string := map fst (entries obj).

(** [Object.keys(obj).length] *)
Definition size (obj : Dict) : nat := length (keys obj).

End Js.

(** ** The enumeration script, as the Contacts application runs it

  The people collection as far as the script of [getAllNumbers] reads it.
  Reading a property may raise an error that one of the script's [try]
  blocks absorbs; [None] stands for such a read. *)

Module AppleScript.

Record Phone : Type := mkPhone { value : option string }.

Record Person : Type := mkPerson {
  name : option string;
  phones : option (list Phone)
}.

(** The record [{name:personName, phones:personPhones}]. *)
Record ContactInfo : Type := mkContactInfo {
  infoName : string;
  infoPhones : list string
}.

(** [repeat with phoneItem in phonesList]: a value that cannot be read is
    skipped, a value that is the empty text is not kept. *)
Fixpoint repeatPhones (phonesList : list Phone) (personPhones : list string)
  : list string :=
  match phonesList with
  | [] => personPhones
  | phoneItem :: rest =>
      match value phoneItem with
      | Some phoneValue =>
          if phoneValue =? EmptyString
          then repeatPhones rest personPhones
          else repeatPhones rest (personPhones ++ [phoneValue])
      | None => repeatPhones rest personPhones
      end
  end.

(** The inner [try]: phones that cannot be accessed leave [personPhones]
    empty. *)
Definition phonesOf (currentPerson : Person) : list string :=
  match phones currentPerson with
  | Some phonesList => repeatPhones phonesList []
  | None => []
  end.

(** [repeat with i from 1 to (count of allPeople)], with the exit test on
    [contactCount] first and the outer [try] around the rest of the body. *)
Fixpoint repeatPeople (maxContacts : N) (allPeople : list Person)
    (contactList : list ContactInfo) (contactCount : N) : list ContactInfo :=
  match allPeople with
  | [] => contactList
  | currentPerson :: rest =>
      if (maxContacts <=? contactCount)%N then contactList
      else
        match name currentPerson with
        | None => repeatPeople maxContacts rest contactList contactCount
        | Some personName =>
            let personPhones := phonesOf currentPerson in
            if (0 <? length personPhones)%nat
            then repeatPeople maxContacts rest
                   (contactList ++ [mkContactInfo personName personPhones])
                   (contactCount + 1)%N
            else repeatPeople maxContacts rest contactList contactCount
        end
  end.

(** The script: [contactList] and [contactCount] start empty. *)
Definition enumerate (maxContacts : N) (allPeople : list Person)
  : list ContactInfo :=
  repeatPeople maxContacts allPeople [] 0%N.

(** *** The two search scripts

    The targeted query of [findNumber] and the primary query of
    [findContactByPhone] test texts with the [contains] operator of
    AppleScript, which is taken as a parameter: [contains a b] stands for
    [a contains b]. *)

Section Searches.

Variable contains : string -> string -> bool.

(** The inner [try] of the name search: the phones of a matching person are
    appended to [matchedPhones]. *)
Definition appendPhones (currentPerson : Person) (matchedPhones : list string)
  : list string :=
  match phones currentPerson with
  | Some phonesList => repeatPhones phonesList matchedPhones
  | None => matchedPhones
  end.

(** The loop of the name search: [if i > max then exit repeat], then the
    body under its [try]. *)
Fixpoint repeatNameSearch (maxContacts : N) (searchText : string)
    (allPeople : list Person) (i : N) (matchedPhones : list string)
  : list string :=
  match allPeople with
  | [] => matchedPhones
  | currentPerson :: rest =>
      if (maxContacts <? i)%N then matchedPhones
      else
        match name currentPerson with
        | None => repeatNameSearch maxContacts searchText rest (i + 1)%N matchedPhones
        | Some personName =>
            if contains personName searchText
            then repeatNameSearch maxContacts searchText rest (i + 1)%N
                   (appendPhones currentPerson matchedPhones)
            else repeatNameSearch maxContacts searchText rest (i + 1)%N matchedPhones
        end
  end.

(** The script of [findNumber]: [matchedPhones] starts empty and [i] at 1. *)
Definition nameSearch (maxContacts : N) (searchText : string)
    (allPeople : list Person) : list string :=
  repeatNameSearch maxContacts searchText allPeople 1%N [].

(** [repeat with phoneItem in phonesList] of the phone search.  On the first
    value that matches, the name is read and the loop is left; when the name
    cannot be read the error is absorbed by the [try] around the phone and
    the loop goes on. *)
Fixpoint repeatPhoneItems (searchPhone : string) (currentPerson : Person)
    (phonesList : list Phone) (foundName : string) : string :=
  match phonesList with
  | [] => foundName
  | phoneItem :: rest =>
      match value phoneItem with
      | None => repeatPhoneItems searchPhone currentPerson rest foundName
      | Some phoneValue =>
          let normalizedPhone := phoneValue in
          if contains normalizedPhone searchPhone
             || contains searchPhone normalizedPhone
          then
            match name currentPerson with
            | Some personName => personName
            | None => repeatPhoneItems searchPhone currentPerson rest foundName
            end
          else repeatPhoneItems searchPhone currentPerson rest foundName
      end
  end.

(** The loop of the phone search, with its two exit tests first. *)
Fixpoint repeatPhoneSearch (maxContacts : N) (searchPhone : string)
    (allPeople : list Person) (i : N) (foundName : string) : string :=
  match allPeople with
  | [] => foundName
  | currentPerson :: rest =>
      if (maxContacts <? i)%N then foundName
      else if negb (foundName =? EmptyString) then foundName
      else
        match phones currentPerson with
        | Some phonesList =>
            repeatPhoneSearch maxContacts searchPhone rest (i + 1)%N
              (repeatPhoneItems searchPhone currentPerson phonesList foundName)
        | None => repeatPhoneSearch maxContacts searchPhone rest (i + 1)%N foundName
        end
  end.

(** The script of [findContactByPhone]: [foundName] starts as the empty
    text and [i] at 1. *)
Definition phoneSearch (maxContacts : N) (searchPhone : string)
    (allPeople : list Person) : string :=
  repeatPhoneSearch maxContacts searchPhone allPeople 1%N EmptyString.

End Searches.

End AppleScript.

(** ** The module *)

Module Contacts.

Import Js.

Record Config : Type := mkConfig {
  MAX_CONTACTS : N;
  TIMEOUT_MS : N
}.

Definition CONFIG : Config :=
  {| MAX_CONTACTS := 100; TIMEOUT_MS := 5000 |}.

(** The probe of [checkContactsAccess]. *)
Definition accessScript : string :=
  JsStr.lines
    [ EmptyString;
      "tell application " ++ JsStr.dquote ++ "Contacts" ++ JsStr.dquote;
      "    return name";
      "end tell" ].

(** The enumeration of [getAllNumbers]; [AppleScript.enumerate] is what
    it computes. *)
Definition enumerateScript : string :=
  JsStr.lines
    [ EmptyString;
      "tell application " ++ JsStr.dquote ++ "Contacts" ++ JsStr.dquote;
      "    set contactList to {}";
      "    set contactCount to 0";
      "    ";
      "    -- Get a limited number of people to avoid performance issues";
      "    set allPeople to people";
      "    ";
      "    repeat with i from 1 to (count of allPeople)";
      "        if contactCount >= " ++ JsStr.decimal (MAX_CONTACTS CONFIG) ++ " then exit repeat";
      "        ";
      "        try";
      "            set currentPerson to item i of allPeople";
      "            set personName to name of currentPerson";
      "            set personPhones to {}";
      "            ";
      "            try";
      "                set phonesList to phones of currentPerson";
      "                repeat with phoneItem in phonesList";
      "                    try";
      "                        set phoneValue to value of phoneItem";
      "                        if phoneValue is not " ++ JsStr.dquote ++ JsStr.dquote ++ " then";
      "                            set personPhones to personPhones & {phoneValue}";
      "                        end if";
      "                    on error";
      "                        -- Skip problematic phone entries";
      "                    end try";
      "                end repeat";
      "            on error";
      "                -- Skip if no phones or phones can't be accessed";
      "            end try";
      "            ";
      "            -- Only add contact if they have phones";
      "            if (count of personPhones) > 0 then";
      "                set contactInfo to {name:personName, phones:personPhones}";
      "                set contactList to contactList & {contactInfo}";
      "                set contactCount to contactCount + 1";
      "            end if";
      "        on error";
      "            -- Skip problematic contacts";
      "        end try";
      "    end repeat";
      "    ";
      "    return contactList";
      "end tell" ].

(** The targeted query of [findNumber]. *)
Definition findNumberScript (searchName : string) : string :=
  JsStr.lines
    [ EmptyString;
      "tell application " ++ JsStr.dquote ++ "Contacts" ++ JsStr.dquote;
      "    set matchedPhones to {}";
      "    set searchText to " ++ JsStr.dquote ++ searchName ++ JsStr.dquote;
      "    ";
      "    -- Get a limited number of people to search through";
      "    set allPeople to people";
      "    ";
      "    repeat with i from 1 to (count of allPeople)";
      "        if i > " ++ JsStr.decimal (MAX_CONTACTS CONFIG) ++ " then exit repeat";
      "        ";
      "        try";
      "            set currentPerson to item i of allPeople";
      "            set personName to name of currentPerson";
      "            ";
      "            -- Simple case-insensitive name matching";
      "            if personName contains searchText then";
      "                try";
      "                    set phonesList to phones of currentPerson";
      "                    repeat with phoneItem in phonesList";
      "                        try";
      "                            set phoneValue to value of phoneItem";
      "                            if phoneValue is not " ++ JsStr.dquote ++ JsStr.dquote ++ " then";
      "                                set matchedPhones to matchedPhones & {phoneValue}";
      "                            end if";
      "                        on error";
      "                            -- Skip problematic phone entries";
      "                        end try";
      "                    end repeat";
      "                on error";
      "                    -- Skip if no phones";
      "                end try";
      "            end if";
      "        on error";
      "            -- Skip problematic contacts";
      "        end try";
      "    end repeat";
      "    ";
      "    return matchedPhones";
      "end tell" ].

(** The primary query of [findContactByPhone]. *)
Definition findContactByPhoneScript (searchNumber : string) : string :=
  JsStr.lines
    [ EmptyString;
      "tell application " ++ JsStr.dquote ++ "Contacts" ++ JsStr.dquote;
      "    set foundName to " ++ JsStr.dquote ++ JsStr.dquote;
      "    set searchPhone to " ++ JsStr.dquote ++ searchNumber ++ JsStr.dquote;
      "    ";
      "    -- Get a limited number of people to search through";
      "    set allPeople to people";
      "    ";
      "    repeat with i from 1 to (count of allPeople)";
      "        if i > " ++ JsStr.decimal (MAX_CONTACTS CONFIG) ++ " then exit repeat";
      "        if foundName is not " ++ JsStr.dquote ++ JsStr.dquote ++ " then exit repeat";
      "        ";
      "        try";
      "            set currentPerson to item i of allPeople";
      "            ";
      "            try";
      "                set phonesList to phones of currentPerson";
      "                repeat with phoneItem in phonesList";
      "                    try";
      "                        set phoneValue to value of phoneItem";
      "                        -- Normalize phone value for comparison";
      "                        set normalizedPhone to phoneValue";
      "                        ";
      "                        -- Simple phone matching";
      "                        if normalizedPhone contains searchPhone or searchPhone contains normalizedPhone then";
      "                            set foundName to name of currentPerson";
      "                            exit repeat";
      "                        end if";
      "                    on error";
      "                        -- Skip problematic phone entries";
      "                    end try";
      "                end repeat";
      "            on error";
      "                -- Skip if no phones";
      "            end try";
      "        on error";
      "            -- Skip problematic contacts";
      "        end try";
      "    end repeat";
      "    ";
      "    return foundName";
      "end tell" ].

(** *** The bridge and the effects

  [runAppleScript] is the one way out of the module.  A bridge answers a
  script, knowing the calls made before, by a value or by a rejection.
  The world keeps the calls made, with their outcomes, and the lines
  written by [console.error]. *)

Definition Call : Type := string * Result Value.

Definition Bridge : Type := list Call -> string -> Result Value.

Record World : Type := mkWorld {
  calls : list Call;
  console : list string
}.

Definition initial : World := mkWorld [] [].

(** An awaited computation: it ends with a value or with an exception,
    in a new world. *)
Definition M (A : Type) : Type := World -> Result A * World.

Definition ret {A : Type} (a : A) : M A := fun w => (Ok a, w).

Definition bind {A B : Type} (m : M A) (k : A -> M B) : M B :=
  fun w =>
    match m w with
    | (Ok a, w') => k a w'
    | (Throw e, w') => (Throw e, w')
    end.

(** A computation of the engine alone. *)
Definition lift {A : Type} (r : Result A) : M A := fun w => (r, w).

(** [try { body } catch (error) { handler }] *)
Definition tryCatch {A : Type} (body : M A) (handler : Exn -> M A) : M A :=
  fun w =>
    match body w with
    | (Ok a, w') => (Ok a, w')
    | (Throw e, w') => handler e w'
    end.

(** The world after [console.error(line)]. *)
Definition logged (w : World) (line : string) : World :=
  mkWorld (calls w) (console w ++ [line]).

Definition consoleError (line : string) : M unit :=
  fun w => (Ok tt, logged w line).

(** [throw e] *)
Definition throw {A : Type} (e : Exn) : M A := fun w => (Throw e, w).

(** The exception of a conversion to a string that fails. *)
Definition conversionError : Exn :=
  TypeError "Cannot convert object to primitive value".

(** [console.error(`prefix${error instanceof Error ? error.message :
    String(error)}`)], the first statement of the four handlers: the text is
    built first, and when its conversion throws nothing is written. *)
Definition reportError (prefix : string) (error : Exn) : M unit :=
  match describe error with
  | Some text => consoleError (prefix ++ text)
  | None => throw conversionError
  end.

(** What a handler [catch (error) { console.error(...); return empty; }]
    leaves in [w]: the line and the empty value, or the exception of the
    conversion. *)
Definition caught {A : Type} (prefix : string) (empty : A) (error : Exn)
    (w : World) : Result A * World :=
  match describe error with
  | Some text => (Ok empty, logged w (prefix ++ text))
  | None => (Throw conversionError, w)
  end.

Definition bindR {A B : Type} (r : Result A) (k : A -> Result B) : Result B :=
  match r with
  | Ok a => k a
  | Throw e => Throw e
  end.

Declare Scope js_scope.
Delimit Scope js_scope with js.
Notation "x <- m ;; k" := (bind m (fun x => k))
  (at level 61, m at next level, right associativity) : js_scope.
Notation "m ;; k" := (bind m (fun _ => k))
  (at level 61, right associativity) : js_scope.

Local Open Scope js_scope.

(** *** Pieces of the operations that involve the engine alone *)

(** [Array.isArray(result) ? result : (result ? [result] : [])] *)
Definition toResultArray (result : Value) : list Value :=
  match result with
  | Array elems => elems
  | _ => if truthy result then [result] else []
  end.

(** [Array.isArray(contact.phones) ? contact.phones : [contact.phones]] *)
Definition toPhoneArray (phones : Value) : list Value :=
  match phones with
  | Array elems => elems
  | _ => [phones]
  end.

(** The body of the loop of [getAllNumbers]:
    [if (contact && contact.name && contact.phones)
       phoneNumbers[contact.name] = ...]. *)
Definition addContact (phoneNumbers : Dict) (contact : Value) : Result Dict :=
  if truthy contact
     && truthy (getProp contact "name")
     && truthy (getProp contact "phones")
  then
    bindR (toPropertyKey (getProp contact "name")) (fun key =>
    Ok (set phoneNumbers key (toPhoneArray (getProp contact "phones"))))
  else Ok phoneNumbers.

(** [for (const contact of resultArray) ...] *)
Fixpoint forOfContacts (resultArray : list Value) (phoneNumbers : Dict)
  : Result Dict :=
  match resultArray with
  | [] => Ok phoneNumbers
  | contact :: rest =>
      bindR (addContact phoneNumbers contact) (forOfContacts rest)
  end.

(** [!s || s.trim() === ''], the blank test of both searches. *)
Definition isBlank (s : string) : bool :=
  (s =? EmptyString) || (JsStr.trim s =? EmptyString).

(** [resultArray.filter(phone => phone && phone.trim() !== '')] *)
Fixpoint filterNonBlank (resultArray : list Value) : Result (list Value) :=
  match resultArray with
  | [] => Ok []
  | phone :: rest =>
      bindR (nonBlank "phone" phone) (fun keep =>
      bindR (filterNonBlank rest) (fun kept =>
      Ok (if keep then phone :: kept else kept)))
  end.

(** The class of [/[^0-9+]/g]. *)
Definition notDigitOrPlus : JsStr.CharClass :=
  JsStr.mkCharClass true [JsStr.ClassRange "0" "9"; JsStr.ClassChar "+"].

(** [s.replace(/[^0-9+]/g, '')], the normalization of [findContactByPhone],
    written out twice in the source: on the input and on the stored values. *)
Definition normalizePhone (s : string) : string :=
  JsStr.replaceAll notDigitOrPlus EmptyString s.

(** [num.replace(/[^0-9+]/g, '')] on an element of a phone array. *)
Definition normalizeNumber (num : Value) : Result string :=
  match num with
  | Str s => Ok (normalizePhone s)
  | Undefined =>
      Throw (TypeError "Cannot read properties of undefined (reading 'replace')")
  | Null =>
      Throw (TypeError "Cannot read properties of null (reading 'replace')")
  | _ => Throw (TypeError "num.replace is not a function")
  end.

(** [numbers.map(num => num.replace(/[^0-9+]/g, ''))] *)
Fixpoint mapNormalize (numbers : list Value) : Result (list string) :=
  match numbers with
  | [] => Ok []
  | num :: rest =>
      bindR (normalizeNumber num) (fun n =>
      bindR (mapNormalize rest) (fun ns => Ok (n :: ns)))
  end.

(** The callback of [normalizedNumbers.some(...)]. *)
Definition phoneRule (searchNumber num : string) : bool :=
  (num =? searchNumber)
  || (num =? "+" ++ searchNumber)
  || (num =? "+1" ++ searchNumber)
  || ("+1" ++ num =? searchNumber)
  || JsStr.includes searchNumber num
  || JsStr.includes num searchNumber.

(** [for (const [contactName, numbers] of Object.entries(allContacts)) ...]
    followed by [return null]. *)
Fixpoint forOfEntries (searchNumber : string)
    (allEntries : list (string * list Value)) : Result Value :=
  match allEntries with
  | [] => Ok Null
  | (contactName, numbers) :: rest =>
      bindR (mapNormalize numbers) (fun normalizedNumbers =>
      if existsb (phoneRule searchNumber) normalizedNumbers
      then Ok (Str contactName)
      else forOfEntries searchNumber rest)
  end.

(** [allNumbers[key]] for an own property [key].  The module reads only
    keys it took from [Object.keys(allNumbers)]; the empty array of the
    second branch is never returned. *)
Definition get (obj : Dict) (key : string) : list Value :=
  match lookup key obj with
  | Some a => a
  | None => []
  end.

(** [Object.keys(allNumbers).find(personName =>
       personName.toLowerCase().includes(searchName))] *)
Definition closestMatchOf (searchName : string) (allNumbers : Dict)
  : option string :=
  find (fun personName => JsStr.includes (JsStr.toLowerCase personName) searchName)
       (keys allNumbers).

(** [return closestMatch ? allNumbers[closestMatch] : []] *)
Definition fuzzyMatch (searchName : string) (allNumbers : Dict) : list Value :=
  match closestMatchOf searchName allNumbers with
  | Some closestMatch =>
      if truthy (Str closestMatch)
      then get allNumbers closestMatch
      else []
  | None => []
  end.

(** *** The operations *)

Section Operations.

Variable bridge : Bridge.

(** The world after [runAppleScript(script)] was awaited in [w]. *)
Definition afterCall (w : World) (script : string) : World :=
  mkWorld (calls w ++ [(script, bridge (calls w) script)]) (console w).

(** [await runAppleScript(script)] *)
Definition runAppleScript (script : string) : M Value :=
  fun w => (bridge (calls w) script, afterCall w script).

Definition checkContactsAccess : M bool :=
  tryCatch
    (_ <- runAppleScript accessScript ;;
     ret true)
    (fun error =>
       reportError "Cannot access Contacts app: " error ;;
       ret false).

Definition getAllNumbers : M Dict :=
  tryCatch
    (access <- checkContactsAccess ;;
     if negb access then ret [] else
     result <- runAppleScript enumerateScript ;;
     let resultArray := toResultArray result in
     lift (forOfContacts resultArray []))
    (fun error =>
       reportError "Error getting all contacts: " error ;;
       ret []).

Definition findNumber (name : string) : M (list Value) :=
  tryCatch
    (access <- checkContactsAccess ;;
     if negb access then ret [] else
     if isBlank name then ret [] else
     let searchName := JsStr.toLowerCase name in
     result <- runAppleScript (findNumberScript searchName) ;;
     let resultArray := toResultArray result in
     if (length resultArray =? 0)%nat then
       allNumbers <- getAllNumbers ;;
       ret (fuzzyMatch searchName allNumbers)
     else lift (filterNonBlank resultArray))
    (fun error =>
       reportError "Error finding contact: " error ;;
       ret []).

Definition findContactByPhone (phoneNumber : string) : M Value :=
  tryCatch
    (access <- checkContactsAccess ;;
     if negb access then ret Null else
     if isBlank phoneNumber then ret Null else
     let searchNumber := normalizePhone phoneNumber in
     result <- runAppleScript (findContactByPhoneScript searchNumber) ;;
     found <- lift (nonBlank "result" result) ;;
     if found then ret result else
     allContacts <- getAllNumbers ;;
     lift (forOfEntries searchNumber (entries allContacts)))
    (fun error =>
       reportError "Error finding contact by phone: " error ;;
       ret Null).

End Operations.

(** The calls made, and the lines written, between two worlds. *)
Definition newCalls (w w' : World) : list Call :=
  skipn (length (calls w)) (calls w').

Definition newLines (w w' : World) : list string :=
  skipn (length (console w)) (console w').

(** Something failed between [w] and [w']: a call was rejected, or a
    handler wrote its line. *)
Definition failed (w w' : World) : Prop :=
  (exists script e, In (script, Throw e) (newCalls w w')) \/ newLines w w' <> [].

(** A run of an operation from [w]: it returns the value [a] in [w'], its
    first call was the probe, and had anything failed on the way [a] would
    be [empty]. *)
Definition runs {A : Type} (bridge : Bridge) (m : M A) (w : World) (empty : A)
    (a : A) (w' : World) : Prop :=
  m w = (Ok a, w')
  /\ (exists rest,
        calls w' = (calls w ++ (accessScript, bridge (calls w) accessScript) :: rest)%list)
  /\ (exists lines, console w' = (console w ++ lines)%list)
  /\ (failed w w' -> a = empty).

(** The end of an operation from [w], whatever it is.  Its first call was
    the probe; when it returns, the value is [empty] if anything failed on
    the way; when it throws, the exception is that of its own handler, which
    received from the bridge, for the operation's own [query], a rejection
    without a string conversion. *)
Definition ends {A : Type} (bridge : Bridge) (m : M A) (w : World)
    (query : string) (empty : A) (r : Result A) (w' : World) : Prop :=
  m w = (r, w')
  /\ (exists rest,
        calls w' = (calls w ++ (accessScript, bridge (calls w) accessScript) :: rest)%list)
  /\ (exists lines, console w' = (console w ++ lines)%list)
  /\ match r with
     | Ok a => failed w w' -> a = empty
     | Throw x =>
         x = conversionError
         /\ exists v e,
              bridge (calls w) accessScript = Ok v
              /\ bridge (calls (afterCall bridge w accessScript)) query = Throw e
              /\ describe e = None
     end.


(** *** What the bridge returns for the enumeration script

    The bridge hands the script's record list back as a list of records, as
    the single record of a one-element list, or as nothing when the list is
    empty; a one-element phone list may likewise come back as the single
    phone string.  These are the shapes [getAllNumbers] unpacks. *)

Inductive rendersPhones : list string -> Value -> Prop :=
| renders_phone_list (ps : list string) :
    rendersPhones ps (Array (map Str ps))
| renders_phone_single (p : string) :
    rendersPhones [p] (Str p).

Inductive rendersRecord : AppleScript.ContactInfo -> Value -> Prop :=
| renders_record (c : AppleScript.ContactInfo) (ps : Value) :
    rendersPhones (AppleScript.infoPhones c) ps ->
    rendersRecord c (Object [("name", Str (AppleScript.infoName c)); ("phones", ps)]).

Inductive rendersContacts : list AppleScript.ContactInfo -> Value -> Prop :=
| renders_list (cs : list AppleScript.ContactInfo) (vs : list Value) :
    Forall2 rendersRecord cs vs ->
    rendersContacts cs (Array vs)
| renders_single (c : AppleScript.ContactInfo) (v : Value) :
    rendersRecord c v ->
    rendersContacts [c] v
| renders_undefined : rendersContacts [] Undefined
| renders_null : rendersContacts [] Null
| renders_empty_text : rendersContacts [] (Str EmptyString).

(** The bridge runs the enumeration script: whenever it answers the script
    sent by [getAllNumbers] from [w] with a value, the value renders what the
    script builds from some people collection. *)
Definition runsEnumeration (bridge : Bridge) (w : World) : Prop :=
  forall result,
    bridge (calls (afterCall bridge w accessScript)) enumerateScript = Ok result ->
    exists allPeople,
      rendersContacts (AppleScript.enumerate (MAX_CONTACTS CONFIG) allPeople) result.

(** *** Bridges for the examples *)

(** A bridge that answers by script, whatever came before. *)
Definition scripted (answers : list (string * Result Value)) : Bridge :=
  fun _ script =>
    match lookup script answers with
    | Some outcome => outcome
    | None => Ok Undefined
    end.

Definition recordOf (name : string) (phones : list string) : Value :=
  Object [("name", Str name); ("phones", Array (map Str phones))].

Definition accessGranted : string * Result Value :=
  (accessScript, Ok (Str "Contacts")).

(** The directory [{John Smith: [555-1234]}], with a targeted name query
    for [smith] that matches nothing. *)
Definition smithDirectory : Bridge :=
  scripted
    [ accessGranted;
      (findNumberScript "smith", Ok (Array []));
      (enumerateScript, Ok (Array [recordOf "John Smith" ["555-1234"]])) ].

(** The directory [{Jane Doe: [+15551234]}], with a primary phone query for
    [5551234] that finds no name. *)
Definition janeDirectory : Bridge :=
  scripted
    [ accessGranted;
      (findContactByPhoneScript "5551234", Ok (Str EmptyString));
      (enumerateScript, Ok (Array [recordOf "Jane Doe" ["+15551234"]])) ].

(** An enumeration answered with one record whose one phone is a space:
    what the script builds from [spacePeople]. *)
Definition spacePeople : list AppleScript.Person :=
  [AppleScript.mkPerson (Some "Ann Lee") (Some [AppleScript.mkPhone (Some " ")])].

Definition spaceDirectory : Bridge :=
  scripted
    [ accessGranted;
      (enumerateScript, Ok (Array [recordOf "Ann Lee" [" "]])) ].

(** An enumeration answered with a record whose phone list is empty. *)
Definition noPhoneDirectory : Bridge :=
  scripted
    [ accessGranted;
      (enumerateScript, Ok (Array [recordOf "Ann Lee" []])) ].

(** An enumeration answered with 101 records, named [c0] to [c100]. *)
Definition crowdedDirectory : Bridge :=
  scripted
    [ accessGranted;
      (enumerateScript,
       Ok (Array (map (fun i => recordOf ("c" ++ JsStr.decimal (N.of_nat i)) ["555-0100"])
                      (seq 0 101)))) ].

(** An enumeration answered with two records that share the empty name. *)
Definition namelessDirectory : Bridge :=
  scripted
    [ accessGranted;
      (enumerateScript,
       Ok (Array [recordOf EmptyString ["555-0001"];
                  recordOf EmptyString ["555-0002"]])) ].

(** An enumeration answered with two records named [__proto__]. *)
Definition protoDirectory : Bridge :=
  scripted
    [ accessGranted;
      (enumerateScript,
       Ok (Array [recordOf "__proto__" ["555-0001"];
                  recordOf "__proto__" ["555-0002"]])) ].

(** An enumeration answered with two namesakes and a record whose name is
    an object with a [toString] data property. *)
Definition unnameableDirectory : Bridge :=
  scripted
    [ accessGranted;
      (enumerateScript,
       Ok (Array [recordOf "Ann Lee" ["555-0001"];
                  recordOf "Ann Lee" ["555-0002"];
                  Object [("name",
                           Object [("toString", Number (mkSafeInteger 1 eq_refl))]);
                          ("phones", Array [Str "555-0003"])]])) ].

(** An enumeration answered with two records named [Ann Lee]. *)
Definition namesakeDirectory : Bridge :=
  scripted
    [ accessGranted;
      (enumerateScript,
       Ok (Array [recordOf "Ann Lee" ["555-0001"];
                  recordOf "Bob Ray" ["555-0003"];
                  recordOf "Ann Lee" ["555-0002"]])) ].

(** A bridge that grants access and rejects everything else with an object
    whose [toString] is a data property. *)
Definition unspeakable : Bridge :=
  fun _ script =>
    if script =? accessScript then Ok (Str "Contacts")
    else Throw (Thrown (Object [("toString", Null)])).

(** An enumeration of Ann Lee and of a contact named [911], both with the
    phone 555-1234, the primary phone query finding no name. *)
Definition emergencyDirectory : Bridge :=
  scripted
    [ accessGranted;
      (findContactByPhoneScript "5551234", Ok (Str EmptyString));
      (enumerateScript,
       Ok (Array [recordOf "Ann Lee" ["555-1234"];
                  recordOf "911" ["555-1234"]])) ].

(** An enumeration of [Office 12] and of a contact named [12], the
    targeted name query for [12] matching nothing. *)
Definition officeDirectory : Bridge :=
  scripted
    [ accessGranted;
      (findNumberScript "12", Ok (Array []));
      (enumerateScript,
       Ok (Array [recordOf "Office 12" ["1"]; recordOf "12" ["2"]])) ].

(** A bridge that answers the first probe and rejects every later one. *)
Definition revoking (rejection : Exn) : Bridge :=
  fun history script =>
    if script =? accessScript
    then match history with
         | [] => Ok (Str "Contacts")
         | _ :: _ => Throw rejection
         end
    else Ok Undefined.

(** A directory whose one contact has a phone value made of a space. *)
Definition blankPhoneDirectory : Bridge :=
  scripted
    [ accessGranted;
      (findNumberScript "ann", Ok (Array []));
      (enumerateScript, Ok (Array [recordOf "Ann Lee" [" "; "555-0100"]])) ].

End Contacts.

(** ** The vocabulary of the specification *)

Module Spec.

Import Js Contacts.

(** [sub] occurs in [s]. *)
Definition occursIn (sub s : string) : Prop :=
  exists pre post, s = pre ++ sub ++ post.

(** The characters the pattern [/[^0-9+]/g] leaves in place. *)
Definition digitOrPlus (c : ascii) : bool := isDigit c || Ascii.eqb c "+".

(** A phone string with everything stripped except digits and plus
    signs. *)
Definition digitsAndPlus (s : string) : string :=
  string_of_list_ascii (filter digitOrPlus (list_ascii_of_string s)).

(** The six matching rules of the reverse search, on a normalized phone
    [num]. *)
Definition phoneRuleHolds (searchNumber num : string) : Prop :=
  num = searchNumber
  \/ num = "+" ++ searchNumber
  \/ num = "+1" ++ searchNumber
  \/ "+1" ++ num = searchNumber
  \/ occursIn num searchNumber
  \/ occursIn searchNumber num.

(** Some phone value of the contact, once normalized, satisfies a rule. *)
Definition contactMatches (searchNumber : string) (numbers : list Value) : Prop :=
  exists p, In (Str p) numbers /\ phoneRuleHolds searchNumber (digitsAndPlus p).

(** [answer] is the name of the first entry that matches, or [null]. *)
Definition firstPhoneMatch (searchNumber : string)
    (allEntries : list (string * list Value)) (answer : Value) : Prop :=
  (exists before contactName numbers after,
      allEntries = (before ++ (contactName, numbers) :: after)%list
      /\ Forall (fun e => ~ contactMatches searchNumber (snd e)) before
      /\ contactMatches searchNumber numbers
      /\ answer = Str contactName)
  \/ (Forall (fun e => ~ contactMatches searchNumber (snd e)) allEntries
      /\ answer = Null).

(** The lower-cased name contains the lower-cased query. *)
Definition nameMatches (searchName personName : string) : Prop :=
  occursIn searchName (JsStr.toLowerCase personName).

(** [answer] is the phone list of the first entry whose name matches, or
    the empty list. *)
Definition firstNameMatch (searchName : string)
    (allEntries : list (string * list Value)) (answer : list Value) : Prop :=
  (exists before personName phones after,
      allEntries = (before ++ (personName, phones) :: after)%list
      /\ Forall (fun e => ~ nameMatches searchName (fst e)) before
      /\ nameMatches searchName personName
      /\ answer = phones)
  \/ (Forall (fun e => ~ nameMatches searchName (fst e)) allEntries
      /\ answer = []).

(** The targeted query of the reverse search found nothing: no value, or
    a string that is empty once trimmed. *)
Definition foundNothing (result : Value) : Prop :=
  truthy result = false \/ exists s, result = Str s /\ JsStr.trim s = EmptyString.

(** The values of the mapping are arrays of strings, as its declared type
    says. *)
Definition isString (v : Value) : Prop := exists s, v = Str s.

Definition phoneStrings (allContacts : Dict) : Prop :=
  Forall (fun e => Forall isString (snd e)) allContacts.

(** A string that is empty or consists of white space. *)
Definition blank (s : string) : Prop :=
  Forall (fun c => JsStr.isWhiteSpace c = true) (list_ascii_of_string s).

(** The normalization in the words of the specification: everything is
    stripped except digits and a leading plus sign. *)
Fixpoint digitsOnly (s : string) : string :=
  match s with
  | EmptyString => EmptyString
  | String c t => if isDigit c then String c (digitsOnly t) else digitsOnly t
  end.

Definition digitsAndLeadingPlus (s : string) : string :=
  match s with
  | EmptyString => EmptyString
  | String c t =>
      if Ascii.eqb c "+" then String c (digitsOnly t) else digitsOnly s
  end.

(** A record of the script with at least one phone and no empty phone. *)
Definition hasPhones (c : AppleScript.ContactInfo) : Prop :=
  AppleScript.infoPhones c <> []
  /\ Forall (fun p => p <> EmptyString) (AppleScript.infoPhones c).

(** The record passes the guard of the conversion loop and is stored under
    [key]. *)
Definition accepted (contact : Value) (key : string) : Prop :=
  truthy contact = true
  /\ truthy (getProp contact "name") = true
  /\ truthy (getProp contact "phones") = true
  /\ toString (getProp contact "name") = Some key.

(** The record's name has a string conversion. *)
Definition keyed (contact : Value) : Prop :=
  toString (getProp contact "name") <> None.

(** *** What the scripts compute, said without loops *)

(** The phone values of a person that can be read and are not empty. *)
Definition readablePhones (p : AppleScript.Person) : list string :=
  match AppleScript.phones p with
  | Some phonesList =>
      flat_map (fun phoneItem =>
                  match AppleScript.value phoneItem with
                  | Some phoneValue =>
                      if phoneValue =? EmptyString then [] else [phoneValue]
                  | None => []
                  end) phonesList
  | None => []
  end.

(** The record of a person: none without a readable name or without
    phones. *)
Definition contactOf (p : AppleScript.Person) : list AppleScript.ContactInfo :=
  match AppleScript.name p with
  | Some personName =>
      match readablePhones p with
      | [] => []
      | personPhones => [AppleScript.mkContactInfo personName personPhones]
      end
  | None => []
  end.

(** The phones a person contributes to a name search. *)
Definition phonesIfNamed (contains : string -> string -> bool)
    (searchText : string) (p : AppleScript.Person) : list string :=
  match AppleScript.name p with
  | Some personName =>
      if contains personName searchText then readablePhones p else []
  | None => []
  end.

(** The person has a readable phone value, empty or not, that contains the
    searched text or is contained in it. *)
Definition hasMatchingPhone (contains : string -> string -> bool)
    (searchPhone : string) (p : AppleScript.Person) : bool :=
  match AppleScript.phones p with
  | Some phonesList =>
      existsb (fun phoneItem =>
                 match AppleScript.value phoneItem with
                 | Some phoneValue =>
                     contains phoneValue searchPhone
                     || contains searchPhone phoneValue
                 | None => false
                 end) phonesList
  | None => false
  end.

(** The name a person gives to a phone search: the empty text unless a
    phone matches and the name can be read. *)
Definition nameIfMatching (contains : string -> string -> bool)
    (searchPhone : string) (p : AppleScript.Person) : string :=
  if hasMatchingPhone contains searchPhone p
  then match AppleScript.name p with
       | Some personName => personName
       | None => EmptyString
       end
  else EmptyString.

(** The first name of the list that is not empty, or the empty text. *)
Fixpoint firstNonEmpty (names : list string) : string :=
  match names with
  | [] => EmptyString
  | n :: rest => if n =? EmptyString then firstNonEmpty rest else n
  end.

(** *** The mapping of [getAllNumbers], said without the loop *)

(** The key under which the conversion loop stores a record, if it does. *)
Definition acceptedKey (contact : Value) : list string :=
  if truthy contact
     && truthy (getProp contact "name")
     && truthy (getProp contact "phones")
  then match toString (getProp contact "name") with
       | Some key => [key]
       | None => []
       end
  else [].

(** The names of a list in the order of their first appearance, after the
    names already seen. *)
Fixpoint firstAppearances (seen names : list string) : list string :=
  match names with
  | [] => seen
  | n :: rest =>
      firstAppearances
        (if existsb (String.eqb n) seen then seen else seen ++ [n]) rest
  end.

(** An ordinary name: not an array index and not [__proto__]. *)
Definition ordinaryName (key : string) : Prop :=
  arrayIndex key = None /\ key <> "__proto__".

(** The elements the filter of [findNumber] keeps. *)
Definition keepsPhone (phone : Value) : bool :=
  match phone with
  | Str s => negb (isBlank s)
  | _ => false
  end.

(** An element the filter can test: a falsy value or a string. *)
Definition testable (phone : Value) : Prop :=
  truthy phone = false \/ isString phone.

(** The line an operation writes when its probe is rejected with [e]: that
    of the access check, or, when [e] has no string conversion, its own
    (after [prefix]) about the conversion. *)
Definition rejectionLine (prefix : string) (e : Exn) : string :=
  match describe e with
  | Some text => "Cannot access Contacts app: " ++ text
  | None => prefix ++ "Cannot convert object to primitive value"
  end.

(** The scripts sent between two worlds, in order. *)
Definition scriptsSent (w w' : World) : list string :=
  map fst (newCalls w w').

(** *** The order of [Object.keys] and [Object.entries] *)

(** The numeric value of a name that is an array index. *)
Definition indexOf (e : string * list Value) : N :=
  match arrayIndex (fst e) with
  | Some n => n
  | None => 0%N
  end.

(** [es] lists the properties of [obj] as the engine enumerates them: the
    properties whose name is an array index first, in ascending numeric
    order, then the others in the order of their creation. *)
Definition objectOrder (obj es : list (string * list Value)) : Prop :=
  exists indexEntries,
    es = (indexEntries ++ filter isNamed obj)%list
    /\ Permutation indexEntries (filter (fun e => negb (isNamed e)) obj)
    /\ StronglySorted (fun a b => (indexOf a <= indexOf b)%N) indexEntries.

(** The names under which the conversion loop creates a property: the
    names of the accepted records, [__proto__] apart. *)
Definition storedKeys (records : list Value) : list string :=
  filter (fun key => negb (key =? "__proto__")) (flat_map acceptedKey records).

(** The order in which a fallback scans the mapping [allContacts] that
    [getAllNumbers] built from the record list [records]: the properties
    were created in the order in which their names first appear in the
    list, each holds the phones of a record of that name, and they are
    scanned in the order of [Object.entries], which is the order of creation
    when no name is an array index. *)
Definition scanOrder (records : list Value) (allContacts : Dict) : Prop :=
  map fst allContacts = firstAppearances [] (storedKeys records)
  /\ (forall contactName numbers,
        In (contactName, numbers) allContacts ->
        exists contact,
          In contact records
          /\ accepted contact contactName
          /\ numbers = toPhoneArray (getProp contact "phones"))
  /\ objectOrder allContacts (entries allContacts)
  /\ (Forall (fun key => arrayIndex key = None) (storedKeys records) ->
      entries allContacts = allContacts).

(** [l] is an initial segment of [full]. *)
Definition initialSegment (l full : list string) : Prop :=
  exists rest, full = (l ++ rest)%list.

End Spec.

(* ================================================================== *)
(** * Part II: lemmas and theorems *)
(* ================================================================== *)

Import Js Contacts Spec.

(** ** Strings *)

Lemma prefix_app (sub s : string) :
  prefix sub s = true <-> exists post, s = sub ++ post.
Proof.
  revert s; induction sub as [|c sub IH]; intros s; simpl.
  - split; [intros _; exists s; reflexivity | destruct s; reflexivity].
  - destruct s as [|d s]; simpl.
    + split; [discriminate | intros [post H]; discriminate].
    + destruct (ascii_dec c d) as [->|Hne].
      * rewrite IH. split; intros [post H]; exists post.
        -- now rewrite H.
        -- now inversion H.
      * split; [discriminate | intros [post H]; inversion H; congruence].
Qed.

Lemma includes_occursIn (s sub : string) :
  JsStr.includes s sub = true <-> occursIn sub s.
Proof.
  unfold occursIn. induction s as [|c s IH].
  - cbn [JsStr.includes]. rewrite prefix_app. split.
    + intros [post H]. exists EmptyString, post. exact H.
    + intros [pre [post H]]. destruct pre; [exists post; exact H | discriminate].
  - cbn [JsStr.includes]. rewrite orb_true_iff, prefix_app, IH. split.
    + intros [[post H] | [pre [post H]]].
      * exists EmptyString, post. exact H.
      * exists (String c pre), post. simpl. now rewrite H.
    + intros [pre [post H]]. destruct pre as [|d pre].
      * left. exists post. exact H.
      * right. exists pre, post. simpl in H. now inversion H.
Qed.

Lemma includes_not_occursIn (s sub : string) :
  JsStr.includes s sub = false <-> ~ occursIn sub s.
Proof.
  rewrite <- includes_occursIn. destruct (JsStr.includes s sub); split; intros H;
    try reflexivity; try discriminate; try (intros H'; discriminate).
  exfalso; apply H; reflexivity.
Qed.

Lemma trimStart_empty (s : string) :
  JsStr.trimStart s = EmptyString <-> blank s.
Proof.
  unfold blank. induction s as [|c s IH]; simpl.
  - split; [constructor | reflexivity].
  - destruct (JsStr.isWhiteSpace c) eqn:Hc.
    + rewrite IH. split; [now constructor | now inversion 1].
    + split; [discriminate | inversion 1; congruence].
Qed.

Lemma trimStart_head (s : string) (c : ascii) (t : string) :
  JsStr.trimStart s = String c t -> JsStr.isWhiteSpace c = false.
Proof.
  induction s as [|d s IH]; simpl; [discriminate|].
  destruct (JsStr.isWhiteSpace d) eqn:Hd; [exact IH|].
  intros H; inversion H; subst; exact Hd.
Qed.

Lemma trim_empty (s : string) : JsStr.trim s = EmptyString <-> blank s.
Proof.
  rewrite <- trimStart_empty. unfold JsStr.trim.
  destruct (JsStr.trimStart s) as [|c t] eqn:Hs.
  - simpl. tauto.
  - apply trimStart_head in Hs. simpl. rewrite Hs.
    split; [|discriminate]. destruct (JsStr.trimEnd t); discriminate.
Qed.

(** The blank test of the module holds of the empty string and of the
    strings made of white space, and of no other. *)
Lemma isBlank_blank (s : string) : isBlank s = true <-> blank s.
Proof.
  unfold isBlank. rewrite orb_true_iff, !String.eqb_eq, trim_empty. split.
  - intros [-> | H]; [constructor | exact H].
  - intros H; right; exact H.
Qed.

(** ** The normalization of phone strings *)

Lemma notDigitOrPlus_matches (c : ascii) :
  JsStr.classMatches notDigitOrPlus c = negb (digitOrPlus c).
Proof.
  unfold JsStr.classMatches, notDigitOrPlus, digitOrPlus, isDigit; simpl.
  now rewrite orb_false_r.
Qed.

Lemma normalizePhone_step (c : ascii) (t : string) :
  normalizePhone (String c t) =
  if digitOrPlus c then String c (normalizePhone t) else normalizePhone t.
Proof.
  unfold normalizePhone; simpl. rewrite notDigitOrPlus_matches.
  now destruct (digitOrPlus c).
Qed.

Lemma normalizePhone_app (a b : string) :
  normalizePhone (a ++ b) = normalizePhone a ++ normalizePhone b.
Proof.
  induction a as [|c a IH]; [reflexivity|].
  simpl append. rewrite !normalizePhone_step, IH.
  now destruct (digitOrPlus c).
Qed.

(** The normalization, said with a filter. *)
Lemma normalizePhone_digitsAndPlus (s : string) :
  normalizePhone s = digitsAndPlus s.
Proof.
  unfold digitsAndPlus. induction s as [|c s IH]; [reflexivity|].
  rewrite normalizePhone_step. simpl.
  destruct (digitOrPlus c); simpl; now rewrite IH.
Qed.

(** C3, as amended: the normalization keeps the digits and every plus
    sign, in their order, and strips every other character; a plus sign
    stays wherever it stands, leading or not. *)
Theorem normalizePhone_keeps_digits_and_every_plus :
  forall s : string,
    normalizePhone s
    = string_of_list_ascii (filter digitOrPlus (list_ascii_of_string s))
    /\ forall pre post : string,
         normalizePhone (pre ++ "+" ++ post)
         = normalizePhone pre ++ "+" ++ normalizePhone post.
Proof.
  intros s. split.
  - induction s as [|c s IH]; [reflexivity|].
    rewrite normalizePhone_step. simpl.
    destruct (digitOrPlus c); simpl; now rewrite IH.
  - intros pre post. now rewrite !normalizePhone_app.
Qed.

(** C3, as stated, fails: a plus sign between two digits is not leading,
    and the normalization keeps it. *)
Lemma normalizePhone_keeps_inner_plus :
  normalizePhone "1+2" = "1+2"
  /\ digitsAndLeadingPlus "1+2" = "12"
  /\ normalizePhone "1+2" <> digitsAndLeadingPlus "1+2".
Proof.
  repeat split; try reflexivity. vm_compute. discriminate.
Qed.

(** ** The access check *)

Opaque accessScript enumerateScript findNumberScript findContactByPhoneScript.

Ltac by_computation :=
  repeat match goal with |- _ /\ _ => split end; vm_compute; reflexivity.

Ltac run_steps :=
  unfold tryCatch, bind, ret, lift, consoleError, runAppleScript.

Lemma checkContactsAccess_granted (bridge : Bridge) (w : World) (v : Value) :
  bridge (calls w) accessScript = Ok v ->
  checkContactsAccess bridge w = (Ok true, afterCall bridge w accessScript).
Proof.
  intros H. unfold checkContactsAccess. run_steps. now rewrite H.
Qed.

(** A handler, run: the line and the empty value, or the exception of the
    conversion. *)
Lemma handler_caught {A : Type} (prefix : string) (empty : A) (error : Exn)
    (w : World) :
  bind (reportError prefix error) (fun _ => ret empty) w
  = caught prefix empty error w.
Proof.
  unfold reportError, caught, bind, ret, consoleError, throw.
  now destruct (describe error).
Qed.

Lemma describe_conversionError :
  describe conversionError = Some "Cannot convert object to primitive value".
Proof. reflexivity. Qed.

Lemma describe_TypeError (msg : string) : describe (TypeError msg) = Some msg.
Proof. reflexivity. Qed.

Lemma caught_described {A : Type} (prefix : string) (empty : A) (error : Exn)
    (text : string) (w : World) :
  describe error = Some text ->
  caught prefix empty error w = (Ok empty, logged w (prefix ++ text)).
Proof. unfold caught. now intros ->. Qed.

Lemma caught_undescribed {A : Type} (prefix : string) (empty : A) (error : Exn)
    (w : World) :
  describe error = None ->
  caught prefix empty error w = (Throw conversionError, w).
Proof. unfold caught. now intros ->. Qed.

(** Whatever a handler leaves, it made no call and wrote at most a line. *)
Lemma caught_world {A : Type} (prefix : string) (empty : A) (error : Exn)
    (w : World) :
  calls (snd (caught prefix empty error w)) = calls w
  /\ exists lines,
       console (snd (caught prefix empty error w)) = (console w ++ lines)%list.
Proof.
  unfold caught. destruct (describe error) as [text|]; cbn [snd logged calls console].
  - split; [reflexivity | now exists [(prefix ++ text)%string]].
  - split; [reflexivity | exists []; now rewrite app_nil_r].
Qed.

Lemma checkContactsAccess_rejected (bridge : Bridge) (w : World) (e : Exn) :
  bridge (calls w) accessScript = Throw e ->
  checkContactsAccess bridge w
  = caught "Cannot access Contacts app: " false e (afterCall bridge w accessScript).
Proof.
  intros H. unfold checkContactsAccess, tryCatch, runAppleScript.
  unfold bind at 1. rewrite H. apply handler_caught.
Qed.

Lemma checkContactsAccess_denied (bridge : Bridge) (w : World) (e : Exn)
    (text : string) :
  bridge (calls w) accessScript = Throw e ->
  describe e = Some text ->
  checkContactsAccess bridge w
  = (Ok false,
     logged (afterCall bridge w accessScript)
            ("Cannot access Contacts app: " ++ text)).
Proof.
  intros H Hd. rewrite (checkContactsAccess_rejected _ _ _ H).
  now apply caught_described.
Qed.

Lemma checkContactsAccess_thrown (bridge : Bridge) (w : World) (e : Exn) :
  bridge (calls w) accessScript = Throw e ->
  describe e = None ->
  checkContactsAccess bridge w
  = (Throw conversionError, afterCall bridge w accessScript).
Proof.
  intros H Hd. rewrite (checkContactsAccess_rejected _ _ _ H).
  now apply caught_undescribed.
Qed.

(** However the check ends, it made one call: the probe. *)
Lemma checkContactsAccess_total (bridge : Bridge) (w : World) :
  exists r w1,
    checkContactsAccess bridge w = (r, w1)
    /\ calls w1 = (calls w ++ [(accessScript, bridge (calls w) accessScript)])%list.
Proof.
  destruct (bridge (calls w) accessScript) as [v|e] eqn:H.
  - eexists _, _. split; [exact (checkContactsAccess_granted _ _ _ H)|].
    cbn [afterCall calls]. now rewrite H.
  - rewrite (checkContactsAccess_rejected _ _ _ H).
    destruct (caught_world "Cannot access Contacts app: " false e
                (afterCall bridge w accessScript)) as [Hc _].
    destruct (caught _ _ _ _) as [r w1]. exists r, w1. split; [reflexivity|].
    cbn [snd] in Hc. rewrite Hc. cbn [afterCall calls]. now rewrite H.
Qed.

Lemma checkContactsAccess_false (bridge : Bridge) (w w1 : World) :
  checkContactsAccess bridge w = (Ok false, w1) ->
  exists e text,
    bridge (calls w) accessScript = Throw e
    /\ describe e = Some text
    /\ w1 = logged (afterCall bridge w accessScript)
                   ("Cannot access Contacts app: " ++ text).
Proof.
  destruct (bridge (calls w) accessScript) as [v|e] eqn:H; intros Hc.
  - rewrite (checkContactsAccess_granted _ _ _ H) in Hc. discriminate.
  - destruct (describe e) as [text|] eqn:Hd.
    + rewrite (checkContactsAccess_denied _ _ _ _ H Hd) in Hc. exists e, text.
      split; [reflexivity|]. split; [exact Hd | now inversion Hc].
    + rewrite (checkContactsAccess_thrown _ _ _ H Hd) in Hc. discriminate.
Qed.

(** Each operation starts with the access check and takes the value of its
    first [return] when the check fails. *)
Lemma getAllNumbers_denied (bridge : Bridge) (w w1 : World) :
  checkContactsAccess bridge w = (Ok false, w1) ->
  getAllNumbers bridge w = (Ok [], w1).
Proof.
  intros H. unfold getAllNumbers. run_steps. now rewrite H.
Qed.

Lemma findNumber_denied (bridge : Bridge) (name : string) (w w1 : World) :
  checkContactsAccess bridge w = (Ok false, w1) ->
  findNumber bridge name w = (Ok [], w1).
Proof.
  intros H. unfold findNumber. run_steps. now rewrite H.
Qed.

Lemma findContactByPhone_denied (bridge : Bridge) (phoneNumber : string)
    (w w1 : World) :
  checkContactsAccess bridge w = (Ok false, w1) ->
  findContactByPhone bridge phoneNumber w = (Ok Null, w1).
Proof.
  intros H. unfold findContactByPhone. run_steps. now rewrite H.
Qed.

(** When the probe is rejected, each operation returns its empty value in
    the world the probe left, with one line written: that of the access
    check, or its own when the rejection has no string conversion. *)
Lemma getAllNumbers_rejected (bridge : Bridge) (w : World) (e : Exn) :
  bridge (calls w) accessScript = Throw e ->
  getAllNumbers bridge w
  = (Ok [],
     logged (afterCall bridge w accessScript) (rejectionLine "Error getting all contacts: " e)).
Proof.
  intros H. unfold rejectionLine. destruct (describe e) as [text|] eqn:Hd.
  - apply getAllNumbers_denied. exact (checkContactsAccess_denied _ _ _ _ H Hd).
  - unfold getAllNumbers, tryCatch. unfold bind at 1.
    rewrite (checkContactsAccess_thrown _ _ _ H Hd), handler_caught.
    now apply caught_described.
Qed.

Lemma findNumber_rejected (bridge : Bridge) (name : string) (w : World) (e : Exn) :
  bridge (calls w) accessScript = Throw e ->
  findNumber bridge name w
  = (Ok [],
     logged (afterCall bridge w accessScript) (rejectionLine "Error finding contact: " e)).
Proof.
  intros H. unfold rejectionLine. destruct (describe e) as [text|] eqn:Hd.
  - apply findNumber_denied. exact (checkContactsAccess_denied _ _ _ _ H Hd).
  - unfold findNumber, tryCatch. unfold bind at 1.
    rewrite (checkContactsAccess_thrown _ _ _ H Hd), handler_caught.
    now apply caught_described.
Qed.

Lemma findContactByPhone_rejected (bridge : Bridge) (phoneNumber : string)
    (w : World) (e : Exn) :
  bridge (calls w) accessScript = Throw e ->
  findContactByPhone bridge phoneNumber w
  = (Ok Null,
     logged (afterCall bridge w accessScript) (rejectionLine "Error finding contact by phone: " e)).
Proof.
  intros H. unfold rejectionLine. destruct (describe e) as [text|] eqn:Hd.
  - apply findContactByPhone_denied. exact (checkContactsAccess_denied _ _ _ _ H Hd).
  - unfold findContactByPhone, tryCatch. unfold bind at 1.
    rewrite (checkContactsAccess_thrown _ _ _ H Hd), handler_caught.
    now apply caught_described.
Qed.

(** With access granted, a blank input ends the two searches at their
    second [return]. *)
Lemma findNumber_blank (bridge : Bridge) (name : string) (w w1 : World) :
  checkContactsAccess bridge w = (Ok true, w1) ->
  isBlank name = true ->
  findNumber bridge name w = (Ok [], w1).
Proof.
  intros H Hb. unfold findNumber. run_steps. now rewrite H, Hb.
Qed.

Lemma findContactByPhone_blank (bridge : Bridge) (phoneNumber : string)
    (w w1 : World) :
  checkContactsAccess bridge w = (Ok true, w1) ->
  isBlank phoneNumber = true ->
  findContactByPhone bridge phoneNumber w = (Ok Null, w1).
Proof.
  intros H Hb. unfold findContactByPhone. run_steps. now rewrite H, Hb.
Qed.

(** C4, as amended: on an input that is empty or made of white space,
    [findNumber] returns the empty array and [findContactByPhone] returns
    [null], and the one query issued before returning is the probe of the
    access check: neither a search query nor the enumeration is sent. *)
Theorem blank_input_sends_only_the_probe :
  forall (bridge : Bridge) (w : World) (input : string),
    blank input ->
    (exists w',
        findNumber bridge input w = (Ok [], w')
        /\ calls w' = (calls w ++ [(accessScript, bridge (calls w) accessScript)])%list)
    /\ (exists w',
        findContactByPhone bridge input w = (Ok Null, w')
        /\ calls w' = (calls w ++ [(accessScript, bridge (calls w) accessScript)])%list).
Proof.
  intros bridge w input Hb. apply isBlank_blank in Hb.
  destruct (bridge (calls w) accessScript) as [v|e] eqn:Ha.
  - pose proof (checkContactsAccess_granted _ _ _ Ha) as Hc.
    split; exists (afterCall bridge w accessScript);
      (split; [auto using findNumber_blank, findContactByPhone_blank
              |cbn [afterCall calls]; now rewrite Ha]).
  - pose proof (findNumber_rejected bridge input w e Ha) as H1.
    pose proof (findContactByPhone_rejected bridge input w e Ha) as H2.
    split; eexists; (split; [eassumption|cbn [logged afterCall calls]; now rewrite Ha]).
Qed.

(** The theorem at the input of three spaces, against a bridge that grants
    access. *)
Lemma blank_input_sends_only_the_probe_witness :
  blank "   "
  /\ (exists w',
        findNumber (scripted [accessGranted]) "   " initial = (Ok [], w')
        /\ calls w' = [accessGranted])
  /\ (exists w',
        findContactByPhone (scripted [accessGranted]) "   " initial = (Ok Null, w')
        /\ calls w' = [accessGranted]).
Proof.
  assert (Hb : blank "   ") by (apply isBlank_blank; reflexivity).
  split; [exact Hb|].
  exact (blank_input_sends_only_the_probe (scripted [accessGranted]) initial "   " Hb).
Defined.

(** C4, as stated, fails: with a blank input the probe of the access check
    has been sent by the time either search returns. *)
Lemma blank_input_still_probes :
  isBlank EmptyString = true
  /\ fst (findNumber (scripted [accessGranted]) EmptyString initial) = Ok []
  /\ calls (snd (findNumber (scripted [accessGranted]) EmptyString initial))
     = [(accessScript, Ok (Str "Contacts"))]
  /\ fst (findContactByPhone (scripted [accessGranted]) EmptyString initial) = Ok Null
  /\ calls (snd (findContactByPhone (scripted [accessGranted]) EmptyString initial))
     = [(accessScript, Ok (Str "Contacts"))]
  /\ calls (snd (findNumber (scripted [accessGranted]) EmptyString initial))
     <> calls initial.
Proof.
  repeat split; try (vm_compute; reflexivity). vm_compute. discriminate.
Qed.

(** ** Objects as dictionaries *)

Lemma lookup_In {A : Type} (key : string) (a : A) (props : list (string * A)) :
  lookup key props = Some a -> In (key, a) props.
Proof.
  induction props as [|[k b] rest IH]; simpl; [discriminate|].
  destruct (String.eqb_spec k key) as [->|Hne].
  - intros H; inversion H; now left.
  - intros H; right; now apply IH.
Qed.

Lemma In_lookup {A : Type} (key : string) (a : A) (props : list (string * A)) :
  NoDup (map fst props) -> In (key, a) props -> lookup key props = Some a.
Proof.
  induction props as [|[k b] rest IH]; simpl; [contradiction|].
  intros Hnd [H|H]; inversion Hnd as [|? ? Hnotin Hnd']; subst.
  - inversion H; subst. now rewrite String.eqb_refl.
  - destruct (String.eqb_spec k key) as [->|Hne]; [|now apply IH].
    exfalso. apply Hnotin. change key with (fst (key, a)). now apply in_map.
Qed.

Lemma lookup_update_same {A : Type} (key : string) (a : A)
    (props : list (string * A)) :
  lookup key (update key a props) = Some a.
Proof.
  induction props as [|[k b] rest IH]; simpl.
  - now rewrite String.eqb_refl.
  - destruct (String.eqb_spec k key) as [->|Hne]; simpl.
    + now rewrite String.eqb_refl.
    + destruct (String.eqb_spec k key); [contradiction|exact IH].
Qed.

Lemma lookup_update_other {A : Type} (key other : string) (a : A)
    (props : list (string * A)) :
  other <> key -> lookup other (update key a props) = lookup other props.
Proof.
  intros Hne. induction props as [|[k b] rest IH]; simpl.
  - destruct (String.eqb_spec key other); [congruence|reflexivity].
  - destruct (String.eqb_spec k key) as [->|Hk]; simpl.
    + destruct (String.eqb_spec key other); [congruence|reflexivity].
    + now rewrite IH.
Qed.

Lemma In_update {A : Type} (key k : string) (a b : A) (props : list (string * A)) :
  In (k, b) (update key a props) -> (k = key /\ b = a) \/ In (k, b) props.
Proof.
  induction props as [|[k0 b0] rest IH]; simpl.
  - intros [H|[]]. inversion H; now left.
  - destruct (String.eqb_spec k0 key) as [->|Hne]; simpl.
    + intros [H|H]; [inversion H; now left | right; now right].
    + intros [H|H]; [right; now left|].
      destruct (IH H) as [?|?]; [now left | right; now right].
Qed.

Lemma update_keys {A : Type} (key : string) (a : A) (props : list (string * A)) :
  In key (map fst props) -> map fst (update key a props) = map fst props.
Proof.
  induction props as [|[k b] rest IH]; simpl; [contradiction|].
  destruct (String.eqb_spec k key) as [->|Hne]; simpl; [reflexivity|].
  intros [H|H]; [contradiction|]. now rewrite IH.
Qed.

Lemma update_keys_new {A : Type} (key : string) (a : A) (props : list (string * A)) :
  ~ In key (map fst props) ->
  map fst (update key a props) = (map fst props ++ [key])%list.
Proof.
  induction props as [|[k b] rest IH]; simpl; [reflexivity|].
  intros Hnotin. destruct (String.eqb_spec k key) as [->|Hne]; simpl.
  - exfalso; apply Hnotin; now left.
  - rewrite IH; [reflexivity|]. intros H; apply Hnotin; now right.
Qed.

Lemma update_NoDup {A : Type} (key : string) (a : A) (props : list (string * A)) :
  NoDup (map fst props) -> NoDup (map fst (update key a props)).
Proof.
  intros Hnd. destruct (in_dec string_dec key (map fst props)) as [Hin|Hnotin].
  - now rewrite update_keys.
  - rewrite update_keys_new by assumption.
    apply NoDup_app; [assumption | repeat constructor; intros [] | ].
    intros x Hx [<-|[]]. contradiction.
Qed.

Lemma update_length {A : Type} (key : string) (a : A) (props : list (string * A)) :
  length (update key a props) <= S (length props).
Proof.
  induction props as [|[k b] rest IH]; simpl; [lia|].
  destruct (k =? key); simpl; lia.
Qed.

Lemma set_NoDup (obj : Dict) (key : string) (a : list Value) :
  NoDup (map fst obj) -> NoDup (map fst (set obj key a)).
Proof.
  unfold set. destruct (key =? "__proto__"); [auto | apply update_NoDup].
Qed.

Lemma set_length (obj : Dict) (key : string) (a : list Value) :
  length (set obj key a) <= S (length obj).
Proof.
  unfold set. destruct (key =? "__proto__"); [lia | apply update_length].
Qed.

Lemma In_set (obj : Dict) (key k : string) (a b : list Value) :
  In (k, b) (set obj key a) -> (k = key /\ b = a) \/ In (k, b) obj.
Proof.
  unfold set. destruct (key =? "__proto__"); [now right | apply In_update].
Qed.

Lemma insertByIndex_perm {A : Type} (p : N * A) (l : list (N * A)) :
  Permutation (insertByIndex p l) (p :: l).
Proof.
  induction l as [|q l IH]; simpl; [reflexivity|].
  destruct (fst p <? fst q)%N; [reflexivity|].
  rewrite IH. apply perm_swap.
Qed.

Lemma sortByIndex_perm {A : Type} (l : list (N * A)) :
  Permutation (sortByIndex l) l.
Proof.
  induction l as [|p l IH]; simpl; [reflexivity|].
  rewrite insertByIndex_perm. now constructor.
Qed.

(** The enumeration order is a rearrangement of the own properties. *)
Lemma ownPropertyOrder_perm {A : Type} (props : list (string * A)) :
  Permutation (ownPropertyOrder props) props.
Proof.
  unfold ownPropertyOrder. rewrite sortByIndex_perm.
  induction props as [|[k a] rest IH]; simpl; [reflexivity|].
  unfold isNamed at 1; simpl. destruct (arrayIndex k); simpl.
  - now constructor.
  - rewrite <- Permutation_middle. now constructor.
Qed.

Lemma entries_perm (obj : Dict) : Permutation (entries obj) obj.
Proof. apply ownPropertyOrder_perm. Qed.

Lemma keys_perm (obj : Dict) : Permutation (keys obj) (map fst obj).
Proof. unfold keys. apply Permutation_map, entries_perm. Qed.

Lemma size_length (obj : Dict) : size obj = length obj.
Proof.
  unfold size. rewrite (Permutation_length (keys_perm obj)). apply length_map.
Qed.

Lemma In_entries (obj : Dict) (e : string * list Value) :
  In e (entries obj) <-> In e obj.
Proof.
  split; apply Permutation_in; [|symmetry]; apply entries_perm.
Qed.

Lemma keys_NoDup (obj : Dict) : NoDup (map fst obj) -> NoDup (keys obj).
Proof.
  intros H. eapply Permutation_NoDup; [symmetry; apply keys_perm | exact H].
Qed.

(** The order of [Object.keys]: array indices first, in numeric order, then
    the other keys as created; a key assigned twice keeps its place. *)
Example keys_order :
  keys (set (set (set (set (set [] "b" []) "10" []) "a" []) "9" []) "b" [Str "x"])
  = ["9"; "10"; "b"; "a"]
  /\ arrayIndex "4294967294" = Some 4294967294%N
  /\ arrayIndex "4294967295" = None
  /\ arrayIndex "007" = None.
Proof. by_computation. Qed.

Example toString_of_values :
  toString (Array [Number (mkSafeInteger 1 eq_refl); Null;
                   Array [Str "a"; Bool true];
                   Number (mkSafeInteger (-20) eq_refl)])
  = Some "1,,a,true,-20"
  /\ toString (Object [("name", Str "a")]) = Some "[object Object]"
  /\ toString (Array [Object [("toString", Number (mkSafeInteger 1 eq_refl))]]) = None.
Proof. by_computation. Qed.

Example strings_of_the_engine :
  JsStr.trim "  a b  " = "a b"
  /\ JsStr.toLowerCase "John SMITH" = "john smith"
  /\ JsStr.includes "john smith" "smith" = true
  /\ JsStr.includes "john" "smith" = false
  /\ normalizePhone "+1 (555) 123-4567" = "+15551234567".
Proof. by_computation. Qed.

(** ** The conversion loop of [getAllNumbers] *)

Lemma addContact_cases (phoneNumbers : Dict) (contact : Value) (d : Dict) :
  addContact phoneNumbers contact = Ok d ->
  d = phoneNumbers
  \/ exists key,
       accepted contact key
       /\ d = set phoneNumbers key (toPhoneArray (getProp contact "phones")).
Proof.
  unfold addContact, toPropertyKey, accepted.
  destruct (truthy contact); simpl; [|intros H; inversion H; now left].
  destruct (truthy (getProp contact "name")); simpl;
    [|intros H; inversion H; now left].
  destruct (truthy (getProp contact "phones")); simpl;
    [|intros H; inversion H; now left].
  destruct (toString (getProp contact "name")) as [key|]; simpl; [|discriminate].
  intros H; inversion H. right. exists key. auto.
Qed.

Lemma addContact_accepted (phoneNumbers : Dict) (contact : Value) (key : string) :
  accepted contact key ->
  addContact phoneNumbers contact
  = Ok (set phoneNumbers key (toPhoneArray (getProp contact "phones"))).
Proof.
  intros (H1 & H2 & H3 & H4). unfold addContact, toPropertyKey.
  now rewrite H1, H2, H3, H4.
Qed.

Lemma forOfContacts_app (l1 l2 : list Value) (acc : Dict) :
  forOfContacts (l1 ++ l2) acc = bindR (forOfContacts l1 acc) (forOfContacts l2).
Proof.
  revert acc; induction l1 as [|c l1 IH]; intros acc; simpl; [reflexivity|].
  destruct (addContact acc c); simpl; [apply IH | reflexivity].
Qed.

Lemma forOfContacts_NoDup (l : list Value) (acc d : Dict) :
  NoDup (map fst acc) -> forOfContacts l acc = Ok d -> NoDup (map fst d).
Proof.
  revert acc; induction l as [|c l IH]; intros acc Hnd; simpl.
  - intros H; inversion H; now subst.
  - destruct (addContact acc c) as [d1|e] eqn:Hc; simpl; [|discriminate].
    apply IH. destruct (addContact_cases _ _ _ Hc) as [->|[key [_ ->]]];
      [assumption | now apply set_NoDup].
Qed.

Lemma forOfContacts_length (l : list Value) (acc d : Dict) :
  forOfContacts l acc = Ok d -> length d <= length acc + length l.
Proof.
  revert acc; induction l as [|c l IH]; intros acc; simpl.
  - intros H; inversion H; lia.
  - destruct (addContact acc c) as [d1|e] eqn:Hc; simpl; [|discriminate].
    intros H. apply IH in H.
    destruct (addContact_cases _ _ _ Hc) as [->|[key [_ ->]]]; [lia|].
    pose proof (set_length acc key (toPhoneArray (getProp c "phones"))). lia.
Qed.

(** Every entry of the mapping was there before the loop or is the phone
    array of a record that passed the guard. *)
Lemma forOfContacts_In (l : list Value) (acc d : Dict) (k : string)
    (phones : list Value) :
  forOfContacts l acc = Ok d ->
  In (k, phones) d ->
  In (k, phones) acc
  \/ exists contact,
       In contact l /\ accepted contact k
       /\ phones = toPhoneArray (getProp contact "phones").
Proof.
  revert acc; induction l as [|c l IH]; intros acc; simpl.
  - intros H; inversion H; subst; now left.
  - destruct (addContact acc c) as [d1|e] eqn:Hc; simpl; [|discriminate].
    intros H Hin. destruct (IH _ H Hin) as [Hacc|[c' [Hc' Hrest]]].
    + destruct (addContact_cases _ _ _ Hc) as [->|[key [Hk ->]]]; [now left|].
      destruct (In_set _ _ _ _ _ Hacc) as [[-> ->]|?]; [|now left].
      right. exists c. auto.
    + right. exists c'. split; [now right | exact Hrest].
Qed.

(** Records that are not stored under [key] leave the entry of [key] as it
    is. *)
Lemma forOfContacts_keeps (key : string) (l : list Value) (acc d : Dict) :
  (forall c, In c l -> ~ accepted c key) ->
  forOfContacts l acc = Ok d ->
  lookup key d = lookup key acc.
Proof.
  revert acc; induction l as [|c l IH]; intros acc Hl; simpl.
  - intros H; now inversion H.
  - destruct (addContact acc c) as [d1|e] eqn:Hc; simpl; [|discriminate].
    intros H. rewrite (IH d1); [|intros c' Hc'; apply Hl; now right|exact H].
    destruct (addContact_cases _ _ _ Hc) as [->|[k [Hk ->]]]; [reflexivity|].
    assert (Hne : key <> k).
    { intros ->. apply (Hl c); [now left | exact Hk]. }
    unfold set. destruct (k =? "__proto__"); [reflexivity|].
    now apply lookup_update_other.
Qed.

(** The loop finishes when every record's name converts to a string. *)
Lemma forOfContacts_keyed (l : list Value) (acc : Dict) :
  Forall keyed l -> exists d, forOfContacts l acc = Ok d.
Proof.
  intros Hl; revert acc; induction Hl as [|c l Hc _ IH]; intros acc; simpl.
  - now exists acc.
  - assert (Ha : exists d1, addContact acc c = Ok d1).
    { unfold addContact, toPropertyKey. unfold keyed in Hc.
      destruct (truthy c && truthy (getProp c "name")
                && truthy (getProp c "phones")); [|eauto].
      destruct (toString (getProp c "name")); [simpl; eauto | congruence]. }
    destruct Ha as [d1 ->]. simpl. apply IH.
Qed.

(** ** The exceptions of the engine *)

(** What the engine raises inside the operations is a [TypeError] with its
    message. *)
Lemma addContact_throws (phoneNumbers : Dict) (contact : Value) (e : Exn) :
  addContact phoneNumbers contact = Throw e -> exists msg, e = TypeError msg.
Proof.
  unfold addContact, toPropertyKey.
  destruct (truthy contact && truthy (getProp contact "name")
            && truthy (getProp contact "phones")); [|discriminate].
  destruct (toString (getProp contact "name")); simpl; [discriminate|].
  intros H; inversion H. eauto.
Qed.

Lemma forOfContacts_throws (l : list Value) (acc : Dict) (e : Exn) :
  forOfContacts l acc = Throw e -> exists msg, e = TypeError msg.
Proof.
  revert acc; induction l as [|c l IH]; intros acc; simpl; [discriminate|].
  destruct (addContact acc c) as [d1|e1] eqn:Hc; simpl; [apply IH|].
  intros H; inversion H; subst. exact (addContact_throws _ _ _ Hc).
Qed.

Lemma nonBlank_throws (callee : string) (v : Value) (e : Exn) :
  nonBlank callee v = Throw e -> exists msg, e = TypeError msg.
Proof.
  destruct v as [| |b|n|s|elems|fields]; simpl; try discriminate;
    try (destruct b); try (destruct (integer n =? 0)%Z); simpl;
    try discriminate; intros H; inversion H; eauto.
Qed.

Lemma filterNonBlank_throws (l : list Value) (e : Exn) :
  filterNonBlank l = Throw e -> exists msg, e = TypeError msg.
Proof.
  induction l as [|phone rest IH]; simpl; [discriminate|].
  destruct (nonBlank "phone" phone) as [keep|e1] eqn:Hn; simpl.
  - destruct (filterNonBlank rest) as [kept|e2]; simpl; [discriminate|].
    intros H; inversion H; subst. now apply IH.
  - intros H; inversion H; subst. exact (nonBlank_throws _ _ _ Hn).
Qed.

Lemma normalizeNumber_throws (num : Value) (e : Exn) :
  normalizeNumber num = Throw e -> exists msg, e = TypeError msg.
Proof.
  destruct num; simpl; try discriminate; intros H; inversion H; eauto.
Qed.

Lemma mapNormalize_throws (numbers : list Value) (e : Exn) :
  mapNormalize numbers = Throw e -> exists msg, e = TypeError msg.
Proof.
  induction numbers as [|num rest IH]; simpl; [discriminate|].
  destruct (normalizeNumber num) as [n|e1] eqn:Hn; simpl.
  - destruct (mapNormalize rest) as [ns|e2]; simpl; [discriminate|].
    intros H; inversion H; subst. now apply IH.
  - intros H; inversion H; subst. exact (normalizeNumber_throws _ _ Hn).
Qed.

Lemma forOfEntries_throws (searchNumber : string)
    (allEntries : list (string * list Value)) (e : Exn) :
  forOfEntries searchNumber allEntries = Throw e -> exists msg, e = TypeError msg.
Proof.
  induction allEntries as [|[contactName numbers] rest IH]; simpl; [discriminate|].
  destruct (mapNormalize numbers) as [ns|e1] eqn:Hm; simpl.
  - destruct (existsb (phoneRule searchNumber) ns); [discriminate | exact IH].
  - intros H; inversion H; subst. exact (mapNormalize_throws _ _ Hm).
Qed.

(** A handler that receives an exception of the engine writes its line. *)
Lemma caught_TypeError {A : Type} (prefix : string) (empty : A) (e : Exn)
    (w : World) :
  (exists msg, e = TypeError msg) ->
  exists text,
    describe e = Some text
    /\ caught prefix empty e w = (Ok empty, logged w (prefix ++ text)).
Proof.
  intros [msg ->]. exists msg. split; [reflexivity|].
  now apply caught_described.
Qed.

Lemma caught_calls {A : Type} (prefix : string) (empty : A) (error : Exn)
    (w : World) :
  calls (snd (caught prefix empty error w)) = calls w.
Proof. exact (proj1 (caught_world prefix empty error w)). Qed.

Lemma caught_value {A : Type} (prefix : string) (empty a : A) (e : Exn)
    (w w' : World) :
  caught prefix empty e w = (Ok a, w') -> a = empty.
Proof.
  unfold caught. destruct (describe e); intros H; now inversion H.
Qed.

Lemma tryCatch_handler {A : Type} (body : M A) (prefix : string) (empty : A)
    (w : World) :
  tryCatch body (fun error => bind (reportError prefix error) (fun _ => ret empty)) w
  = match body w with
    | (Ok a, w') => (Ok a, w')
    | (Throw e, w') => caught prefix empty e w'
    end.
Proof.
  unfold tryCatch. destruct (body w) as [[a|e] w'];
    [reflexivity | apply handler_caught].
Qed.

(** ** [getAllNumbers], path by path *)

(** With access granted: the enumeration is sent, and its outcome and the
    outcome of the conversion loop decide the result. *)
Lemma getAllNumbers_granted (bridge : Bridge) (w : World) (v : Value) :
  bridge (calls w) accessScript = Ok v ->
  getAllNumbers bridge w
  = let w1 := afterCall bridge w accessScript in
    let w2 := afterCall bridge w1 enumerateScript in
    match bridge (calls w1) enumerateScript with
    | Ok result =>
        match forOfContacts (toResultArray result) [] with
        | Ok d => (Ok d, w2)
        | Throw e => caught "Error getting all contacts: " [] e w2
        end
    | Throw e => caught "Error getting all contacts: " [] e w2
    end.
Proof.
  intros H. unfold getAllNumbers. rewrite tryCatch_handler.
  unfold bind, ret, lift, runAppleScript.
  rewrite (checkContactsAccess_granted _ _ _ H). cbn [negb].
  destruct (bridge (calls (afterCall bridge w accessScript)) enumerateScript)
    as [result|e]; [|reflexivity].
  now destruct (forOfContacts (toResultArray result) []).
Qed.

(** A non-empty mapping comes from a granted access check, an answered
    enumeration and a conversion loop that finished. *)
Lemma getAllNumbers_inv (bridge : Bridge) (w w' : World) (d : Dict) :
  getAllNumbers bridge w = (Ok d, w') ->
  d = []
  \/ exists v result,
       bridge (calls w) accessScript = Ok v
       /\ bridge (calls (afterCall bridge w accessScript)) enumerateScript = Ok result
       /\ forOfContacts (toResultArray result) [] = Ok d.
Proof.
  destruct (bridge (calls w) accessScript) as [v|e] eqn:Ha.
  - rewrite (getAllNumbers_granted _ _ _ Ha). cbv zeta.
    destruct (bridge (calls (afterCall bridge w accessScript)) enumerateScript)
      as [result|e] eqn:He.
    + destruct (forOfContacts (toResultArray result) []) as [d'|e] eqn:Hf;
        intros H; [inversion H; subst; right; eauto|].
      left. exact (caught_value _ _ _ _ _ _ H).
    + intros H; left. exact (caught_value _ _ _ _ _ _ H).
  - rewrite (getAllNumbers_rejected bridge w e Ha).
    intros H; inversion H; now left.
Qed.

Lemma getAllNumbers_NoDup (bridge : Bridge) (w w' : World) (d : Dict) :
  getAllNumbers bridge w = (Ok d, w') -> NoDup (map fst d).
Proof.
  intros H. destruct (getAllNumbers_inv _ _ _ _ H) as [->|(v & result & _ & _ & Hf)].
  - constructor.
  - eapply forOfContacts_NoDup; [|exact Hf]. constructor.
Qed.

(** ** Runs of the operations *)

Lemma skipn_app_exact {A : Type} (l r : list A) : skipn (length l) (l ++ r) = r.
Proof. induction l; simpl; auto. Qed.

Lemma runs_intro {A : Type} (bridge : Bridge) (m : M A) (w w' : World)
    (empty a : A) (rest : list Call) (lines : list string) :
  m w = (Ok a, w') ->
  calls w' = (calls w ++ (accessScript, bridge (calls w) accessScript) :: rest)%list ->
  console w' = (console w ++ lines)%list ->
  ((exists script e,
       In (script, Throw e) ((accessScript, bridge (calls w) accessScript) :: rest))
   \/ lines <> [] -> a = empty) ->
  runs bridge m w empty a w'.
Proof.
  intros Hm Hc Hl Hf. unfold runs. split; [exact Hm|].
  split; [now exists rest|]. split; [now exists lines|].
  unfold failed, newCalls, newLines. rewrite Hc, Hl, !skipn_app_exact. exact Hf.
Qed.

Lemma runs_failed {A : Type} (bridge : Bridge) (m : M A) (w w' : World)
    (empty a : A) (new : list Call) (lines : list string) :
  runs bridge m w empty a w' ->
  calls w' = (calls w ++ new)%list ->
  console w' = (console w ++ lines)%list ->
  (exists script e, In (script, Throw e) new) \/ lines <> [] ->
  a = empty.
Proof.
  intros (_ & _ & _ & Hf) Hc Hl H. apply Hf.
  unfold failed, newCalls, newLines. now rewrite Hc, Hl, !skipn_app_exact.
Qed.

(** An end with a value is a run. *)
Lemma ends_ok {A : Type} (bridge : Bridge) (m : M A) (w w' : World)
    (query : string) (empty a : A) :
  runs bridge m w empty a w' -> ends bridge m w query empty (Ok a) w'.
Proof. intros H. exact H. Qed.

Lemma ends_runs {A : Type} (bridge : Bridge) (m : M A) (w w' : World)
    (query : string) (empty a : A) :
  ends bridge m w query empty (Ok a) w' -> runs bridge m w empty a w'.
Proof. intros H. exact H. Qed.

(** The end of an operation whose handler received [e] in [wX]. *)
Lemma ends_caught {A : Type} (bridge : Bridge) (m : M A) (w wX : World)
    (query prefix : string) (empty : A) (e : Exn) (rest : list Call)
    (lines : list string) :
  m w = caught prefix empty e wX ->
  calls wX = (calls w ++ (accessScript, bridge (calls w) accessScript) :: rest)%list ->
  console wX = (console w ++ lines)%list ->
  (describe e = None ->
   exists v,
     bridge (calls w) accessScript = Ok v
     /\ bridge (calls (afterCall bridge w accessScript)) query = Throw e) ->
  exists r w', ends bridge m w query empty r w'.
Proof.
  intros Hm Hc Hl Hq. unfold caught in Hm. destruct (describe e) as [text|] eqn:Hd.
  - exists (Ok empty), (logged wX (prefix ++ text)). apply ends_ok.
    eapply runs_intro with (lines := (lines ++ [(prefix ++ text)%string])%list);
      [exact Hm| | |auto].
    + cbn [logged calls]. exact Hc.
    + cbn [logged console]. now rewrite Hl, <- app_assoc.
  - exists (Throw conversionError), wX. split; [exact Hm|].
    split; [now exists rest|]. split; [now exists lines|].
    split; [reflexivity|]. destruct (Hq eq_refl) as (v & Hv & He).
    exists v, e. auto.
Qed.

(** The same when [e] is an exception of the engine. *)
Lemma ends_caught_TypeError {A : Type} (bridge : Bridge) (m : M A) (w wX : World)
    (query prefix : string) (empty : A) (e : Exn) (rest : list Call)
    (lines : list string) :
  m w = caught prefix empty e wX ->
  calls wX = (calls w ++ (accessScript, bridge (calls w) accessScript) :: rest)%list ->
  console wX = (console w ++ lines)%list ->
  (exists msg, e = TypeError msg) ->
  exists r w', ends bridge m w query empty r w'.
Proof.
  intros Hm Hc Hl [msg ->]. eapply ends_caught; [exact Hm|exact Hc|exact Hl|].
  discriminate.
Qed.

Ltac no_failure :=
  let H := fresh in
  intros [(? & ? & H)|H];
  [ simpl in H; repeat (destruct H as [H|H]; [congruence|]); destruct H
  | congruence ].

Lemma getAllNumbers_ends (bridge : Bridge) (w : World) :
  exists r w', ends bridge (getAllNumbers bridge) w enumerateScript [] r w'.
Proof.
  destruct (bridge (calls w) accessScript) as [v|e] eqn:Ha.
  - pose proof (getAllNumbers_granted _ _ _ Ha) as Hg. cbv zeta in Hg.
    set (w1 := afterCall bridge w accessScript) in *.
    set (w2 := afterCall bridge w1 enumerateScript) in *.
    assert (Hc2 : calls w2
                  = (calls w ++ (accessScript, bridge (calls w) accessScript)
                       :: [(enumerateScript, bridge (calls w1) enumerateScript)])%list).
    { subst w2 w1. cbn [afterCall calls]. now rewrite <- app_assoc. }
    assert (Hl2 : console w2 = (console w ++ [])%list)
      by (now rewrite app_nil_r).
    destruct (bridge (calls w1) enumerateScript) as [result|e] eqn:He.
    + destruct (forOfContacts (toResultArray result) []) as [d|e] eqn:Hf.
      * exists (Ok d), w2. apply ends_ok.
        eapply runs_intro with (lines := []); [exact Hg|exact Hc2|exact Hl2|].
        rewrite Ha. no_failure.
      * eapply ends_caught_TypeError; [exact Hg|exact Hc2|exact Hl2|].
        exact (forOfContacts_throws _ _ _ Hf).
    + eapply ends_caught; [exact Hg|exact Hc2|exact Hl2|].
      intros _. exists v. rewrite <- Ha. split; [reflexivity | exact He].
  - pose proof (getAllNumbers_rejected bridge w e Ha) as Hr.
    eexists (Ok []), _. apply ends_ok.
    eapply runs_intro with (rest := []); [exact Hr| | |auto].
    + cbn [logged afterCall calls]. now rewrite Ha.
    + reflexivity.
Qed.

(** ** [findNumber], path by path *)

Lemma findNumber_granted (bridge : Bridge) (name : string) (w : World) (v : Value) :
  bridge (calls w) accessScript = Ok v ->
  isBlank name = false ->
  findNumber bridge name w
  = let searchName := JsStr.toLowerCase name in
    let w1 := afterCall bridge w accessScript in
    let w2 := afterCall bridge w1 (findNumberScript searchName) in
    match bridge (calls w1) (findNumberScript searchName) with
    | Ok result =>
        match toResultArray result with
        | [] =>
            match getAllNumbers bridge w2 with
            | (Ok allNumbers, w3) => (Ok (fuzzyMatch searchName allNumbers), w3)
            | (Throw e, w3) => caught "Error finding contact: " [] e w3
            end
        | _ :: _ =>
            match filterNonBlank (toResultArray result) with
            | Ok kept => (Ok kept, w2)
            | Throw e => caught "Error finding contact: " [] e w2
            end
        end
    | Throw e => caught "Error finding contact: " [] e w2
    end.
Proof.
  intros Ha Hb. unfold findNumber. rewrite tryCatch_handler.
  unfold bind, ret, lift, runAppleScript.
  rewrite (checkContactsAccess_granted _ _ _ Ha), Hb. cbn [negb].
  destruct (bridge (calls (afterCall bridge w accessScript))
              (findNumberScript (JsStr.toLowerCase name))) as [result|e];
    [|reflexivity].
  destruct (toResultArray result) as [|phone rest] eqn:Hr; cbn [length Nat.eqb].
  - destruct (getAllNumbers bridge _) as [[allNumbers|e] w3]; reflexivity.
  - destruct (filterNonBlank (phone :: rest)); reflexivity.
Qed.

Lemma fuzzyMatch_empty (searchName : string) : fuzzyMatch searchName [] = [].
Proof. reflexivity. Qed.

Lemma findNumber_ends (bridge : Bridge) (name : string) (w : World) :
  exists r w',
    ends bridge (findNumber bridge name) w
         (findNumberScript (JsStr.toLowerCase name)) [] r w'.
Proof.
  destruct (bridge (calls w) accessScript) as [v|e] eqn:Ha.
  2:{ pose proof (findNumber_rejected bridge name w e Ha) as Hr.
      eexists (Ok []), _. apply ends_ok.
      eapply runs_intro with (rest := []); [exact Hr| | |auto].
      - cbn [logged afterCall calls]. now rewrite Ha.
      - reflexivity. }
  destruct (isBlank name) eqn:Hb.
  { eexists (Ok []), _. apply ends_ok.
    eapply runs_intro with (rest := []) (lines := []);
      [apply findNumber_blank;
       [apply (checkContactsAccess_granted _ _ _ Ha)|exact Hb]| | |auto].
    - cbn [afterCall calls]. now rewrite Ha.
    - cbn [afterCall console]. now rewrite app_nil_r. }
  pose proof (findNumber_granted _ _ _ _ Ha Hb) as Hg. cbv zeta in Hg.
  set (searchName := JsStr.toLowerCase name) in *.
  set (w1 := afterCall bridge w accessScript) in *.
  set (w2 := afterCall bridge w1 (findNumberScript searchName)) in *.
  assert (Hc2 : calls w2
                = (calls w ++ (accessScript, bridge (calls w) accessScript)
                     :: [(findNumberScript searchName,
                          bridge (calls w1) (findNumberScript searchName))])%list).
  { subst w2 w1. cbn [afterCall calls]. now rewrite <- app_assoc. }
  assert (Hl2 : console w2 = (console w ++ [])%list) by (now rewrite app_nil_r).
  destruct (bridge (calls w1) (findNumberScript searchName)) as [result|e] eqn:Hq.
  2:{ eapply ends_caught; [exact Hg|exact Hc2|exact Hl2|].
      intros _. exists v. rewrite <- Ha. split; [reflexivity | exact Hq]. }
  destruct (toResultArray result) as [|phone rest] eqn:Hr.
  - destruct (getAllNumbers_ends bridge w2) as (r & w3 & Hends).
    pose proof Hends as (Hd & [rest3 Hc3] & [lines3 Hl3] & Hlast).
    rewrite Hd in Hg.
    assert (Hc3' : calls w3
                   = (calls w ++ (accessScript, bridge (calls w) accessScript)
                        :: (findNumberScript searchName, Ok result)
                        :: (accessScript, bridge (calls w2) accessScript)
                        :: rest3)%list).
    { rewrite Hc3, Hc2, <- app_assoc. reflexivity. }
    assert (Hl3' : console w3 = (console w ++ lines3)%list).
    { now rewrite Hl3, Hl2, app_nil_r. }
    destruct r as [d|x].
    + exists (Ok (fuzzyMatch searchName d)), w3. apply ends_ok.
      eapply runs_intro with (lines := lines3); [exact Hg|exact Hc3'|exact Hl3'|].
      intros Hfail.
      assert (d = []) as ->; [|apply fuzzyMatch_empty].
      eapply runs_failed; [exact (ends_runs _ _ _ _ _ _ _ Hends)|exact Hc3|exact Hl3|].
      destruct Hfail as [(script & e & Hin)|Hne]; [left|now right].
      rewrite Ha in Hin. simpl in Hin.
      destruct Hin as [Hin|[Hin|Hin]]; [congruence|congruence|].
      exists script, e. exact Hin.
    + destruct Hlast as [-> _].
      eapply ends_caught_TypeError; [exact Hg|exact Hc3'|exact Hl3'|].
      now exists "Cannot convert object to primitive value".
  - destruct (filterNonBlank (phone :: rest)) as [kept|e] eqn:Hf.
    + exists (Ok kept), w2. apply ends_ok.
      eapply runs_intro with (lines := []); [exact Hg|exact Hc2|exact Hl2|].
      rewrite Ha. no_failure.
    + eapply ends_caught_TypeError; [exact Hg|exact Hc2|exact Hl2|].
      exact (filterNonBlank_throws _ _ Hf).
Qed.

(** ** [findContactByPhone], path by path *)

Lemma findContactByPhone_granted (bridge : Bridge) (phoneNumber : string)
    (w : World) (v : Value) :
  bridge (calls w) accessScript = Ok v ->
  isBlank phoneNumber = false ->
  findContactByPhone bridge phoneNumber w
  = let searchNumber := normalizePhone phoneNumber in
    let w1 := afterCall bridge w accessScript in
    let w2 := afterCall bridge w1 (findContactByPhoneScript searchNumber) in
    match bridge (calls w1) (findContactByPhoneScript searchNumber) with
    | Ok result =>
        match nonBlank "result" result with
        | Ok true => (Ok result, w2)
        | Ok false =>
            match getAllNumbers bridge w2 with
            | (Ok allContacts, w3) =>
                match forOfEntries searchNumber (entries allContacts) with
                | Ok answer => (Ok answer, w3)
                | Throw e => caught "Error finding contact by phone: " Null e w3
                end
            | (Throw e, w3) => caught "Error finding contact by phone: " Null e w3
            end
        | Throw e => caught "Error finding contact by phone: " Null e w2
        end
    | Throw e => caught "Error finding contact by phone: " Null e w2
    end.
Proof.
  intros Ha Hb. unfold findContactByPhone. rewrite tryCatch_handler.
  unfold bind, ret, lift, runAppleScript.
  rewrite (checkContactsAccess_granted _ _ _ Ha), Hb. cbn [negb].
  destruct (bridge (calls (afterCall bridge w accessScript))
              (findContactByPhoneScript (normalizePhone phoneNumber)))
    as [result|e]; [|reflexivity].
  destruct (nonBlank "result" result) as [[|]|e]; try reflexivity.
  destruct (getAllNumbers bridge _) as [[allContacts|e] w3]; [|reflexivity].
  destruct (forOfEntries _ _); reflexivity.
Qed.

Lemma findContactByPhone_ends (bridge : Bridge) (phoneNumber : string) (w : World) :
  exists r w',
    ends bridge (findContactByPhone bridge phoneNumber) w
         (findContactByPhoneScript (normalizePhone phoneNumber)) Null r w'.
Proof.
  destruct (bridge (calls w) accessScript) as [v|e] eqn:Ha.
  2:{ pose proof (findContactByPhone_rejected bridge phoneNumber w e Ha) as Hr.
      eexists (Ok Null), _. apply ends_ok.
      eapply runs_intro with (rest := []); [exact Hr| | |auto].
      - cbn [logged afterCall calls]. now rewrite Ha.
      - reflexivity. }
  destruct (isBlank phoneNumber) eqn:Hb.
  { eexists (Ok Null), _. apply ends_ok.
    eapply runs_intro with (rest := []) (lines := []);
      [apply findContactByPhone_blank;
       [apply (checkContactsAccess_granted _ _ _ Ha)|exact Hb]| | |auto].
    - cbn [afterCall calls]. now rewrite Ha.
    - cbn [afterCall console]. now rewrite app_nil_r. }
  pose proof (findContactByPhone_granted _ _ _ _ Ha Hb) as Hg. cbv zeta in Hg.
  set (searchNumber := normalizePhone phoneNumber) in *.
  set (w1 := afterCall bridge w accessScript) in *.
  set (w2 := afterCall bridge w1 (findContactByPhoneScript searchNumber)) in *.
  assert (Hc2 : calls w2
                = (calls w ++ (accessScript, bridge (calls w) accessScript)
                     :: [(findContactByPhoneScript searchNumber,
                          bridge (calls w1)
                                 (findContactByPhoneScript searchNumber))])%list).
  { subst w2 w1. cbn [afterCall calls]. now rewrite <- app_assoc. }
  assert (Hl2 : console w2 = (console w ++ [])%list) by (now rewrite app_nil_r).
  destruct (bridge (calls w1) (findContactByPhoneScript searchNumber))
    as [result|e] eqn:Hq.
  2:{ eapply ends_caught; [exact Hg|exact Hc2|exact Hl2|].
      intros _. exists v. rewrite <- Ha. split; [reflexivity | exact Hq]. }
  destruct (nonBlank "result" result) as [[|]|e] eqn:Hn.
  - exists (Ok result), w2. apply ends_ok.
    eapply runs_intro with (lines := []); [exact Hg|exact Hc2|exact Hl2|].
    rewrite Ha. no_failure.
  - destruct (getAllNumbers_ends bridge w2) as (r & w3 & Hends).
    pose proof Hends as (Hd & [rest3 Hc3] & [lines3 Hl3] & Hlast).
    rewrite Hd in Hg.
    assert (Hc3' : calls w3
                   = (calls w ++ (accessScript, bridge (calls w) accessScript)
                        :: (findContactByPhoneScript searchNumber, Ok result)
                        :: (accessScript, bridge (calls w2) accessScript)
                        :: rest3)%list).
    { rewrite Hc3, Hc2, <- app_assoc. reflexivity. }
    assert (Hl3' : console w3 = (console w ++ lines3)%list).
    { now rewrite Hl3, Hl2, app_nil_r. }
    destruct r as [d|x].
    + destruct (forOfEntries searchNumber (entries d)) as [answer|e] eqn:Hs.
      * exists (Ok answer), w3. apply ends_ok.
        eapply runs_intro with (lines := lines3); [exact Hg|exact Hc3'|exact Hl3'|].
        intros Hfail.
        assert (d = []) as ->; [|now inversion Hs].
        eapply runs_failed;
          [exact (ends_runs _ _ _ _ _ _ _ Hends)|exact Hc3|exact Hl3|].
        destruct Hfail as [(script & e & Hin)|Hne]; [left|now right].
        rewrite Ha in Hin. simpl in Hin.
        destruct Hin as [Hin|[Hin|Hin]]; [congruence|congruence|].
        exists script, e. exact Hin.
      * eapply ends_caught_TypeError; [exact Hg|exact Hc3'|exact Hl3'|].
        exact (forOfEntries_throws _ _ _ Hs).
    + destruct Hlast as [-> _].
      eapply ends_caught_TypeError; [exact Hg|exact Hc3'|exact Hl3'|].
      now exists "Cannot convert object to primitive value".
  - eapply ends_caught_TypeError; [exact Hg|exact Hc2|exact Hl2|].
    exact (nonBlank_throws _ _ _ Hn).
Qed.

Lemma ends_calls {A : Type} (bridge : Bridge) (m : M A) (w w' : World)
    (query : string) (empty : A) (r : Result A) :
  ends bridge m w query empty r w' ->
  exists rest,
    calls (snd (m w))
    = (calls w ++ (accessScript, bridge (calls w) accessScript) :: rest)%list.
Proof.
  intros (Hm & Hc & _). now rewrite Hm.
Qed.


(** ** The access check comes first *)

(** C7: each of the three operations makes the probe of the access check
    its first call; and when the check returns [false], the operation
    returns its empty value (the empty mapping, the empty array or [null])
    as a value, not as an exception, having sent the probe and nothing
    else. *)
Theorem access_check_first_and_short_circuit :
  forall (bridge : Bridge) (w : World) (name phoneNumber : string),
    let probe := (accessScript, bridge (calls w) accessScript) in
    ((exists rest,
         calls (snd (getAllNumbers bridge w)) = (calls w ++ probe :: rest)%list)
     /\ (exists rest,
           calls (snd (findNumber bridge name w)) = (calls w ++ probe :: rest)%list)
     /\ (exists rest,
           calls (snd (findContactByPhone bridge phoneNumber w))
           = (calls w ++ probe :: rest)%list))
    /\ (forall w1,
          checkContactsAccess bridge w = (Ok false, w1) ->
          getAllNumbers bridge w = (Ok [], w1)
          /\ findNumber bridge name w = (Ok [], w1)
          /\ findContactByPhone bridge phoneNumber w = (Ok Null, w1)
          /\ calls w1 = (calls w ++ [probe])%list).
Proof.
  intros bridge w name phoneNumber probe. split.
  - split; [|split].
    + destruct (getAllNumbers_ends bridge w) as (r & w' & H).
      exact (ends_calls _ _ _ _ _ _ _ H).
    + destruct (findNumber_ends bridge name w) as (r & w' & H).
      exact (ends_calls _ _ _ _ _ _ _ H).
    + destruct (findContactByPhone_ends bridge phoneNumber w) as (r & w' & H).
      exact (ends_calls _ _ _ _ _ _ _ H).
  - intros w1 Hc. repeat split.
    + now apply getAllNumbers_denied.
    + now apply findNumber_denied.
    + now apply findContactByPhone_denied.
    + destruct (checkContactsAccess_total bridge w) as [a [w1' [Hc' Hcalls]]].
      rewrite Hc in Hc'. inversion Hc'; subst. exact Hcalls.
Qed.

(** The theorem against a bridge that rejects the probe: the three
    operations return their empty values and the probe is the only call. *)
Lemma access_check_first_and_short_circuit_witness :
  let rejecting : Bridge := fun _ _ => Throw (mkExn "Not authorized") in
  let w1 := mkWorld [(accessScript, Throw (mkExn "Not authorized"))]
                    ["Cannot access Contacts app: Not authorized"] in
  checkContactsAccess rejecting initial = (Ok false, w1)
  /\ getAllNumbers rejecting initial = (Ok [], w1)
  /\ findNumber rejecting "Smith" initial = (Ok [], w1)
  /\ findContactByPhone rejecting "555-1234" initial = (Ok Null, w1).
Proof.
  intros rejecting w1.
  assert (Hc : checkContactsAccess rejecting initial = (Ok false, w1))
    by reflexivity.
  split; [exact Hc|].
  destruct (proj2 (access_check_first_and_short_circuit
                     rejecting initial "Smith" "555-1234") w1 Hc)
    as (H1 & H2 & H3 & _).
  auto.
Defined.

(** ** No exception escapes *)




(** Two failure paths of [findNumber]: the targeted query rejected by the
    bridge, and a targeted answer holding a number, on which [trim] is not a
    function. *)
Example findNumber_query_rejected :
  findNumber
    (fun _ script =>
       if script =? accessScript then Ok (Str "Contacts")
       else Throw (mkExn "Contacts got an error"))
    "Smith" initial
  = (Ok [],
     mkWorld [ accessGranted;
               (findNumberScript "smith", Throw (mkExn "Contacts got an error")) ]
             [ "Error finding contact: Contacts got an error" ]).
Proof. vm_compute. reflexivity. Qed.

Example findNumber_number_in_answer :
  findNumber
    (scripted [accessGranted;
               (findNumberScript "smith",
                Ok (Array [Number (mkSafeInteger 5 eq_refl)]))])
    "Smith" initial
  = (Ok [],
     mkWorld [ accessGranted;
               (findNumberScript "smith",
                Ok (Array [Number (mkSafeInteger 5 eq_refl)])) ]
             [ "Error finding contact: phone.trim is not a function" ]).
Proof. vm_compute. reflexivity. Qed.

(** A failure inside the fallback: the enumeration is rejected, the mapping
    is empty, and [findContactByPhone] returns [null]. *)
Example findContactByPhone_enumeration_rejected :
  findContactByPhone
    (fun _ script =>
       if script =? accessScript then Ok (Str "Contacts")
       else if script =? enumerateScript then Throw (mkExn "timed out")
       else Ok (Str EmptyString))
    "555-1234" initial
  = (Ok Null,
     mkWorld [ accessGranted;
               (findContactByPhoneScript "5551234", Ok (Str EmptyString));
               accessGranted;
               (enumerateScript, Throw (mkExn "timed out")) ]
             [ "Error getting all contacts: timed out" ]).
Proof. vm_compute. reflexivity. Qed.

(** ** The order in which the fallbacks scan the mapping *)

Lemma existsb_eqb_In (k : string) (l : list string) :
  existsb (String.eqb k) l = true <-> In k l.
Proof.
  rewrite existsb_exists. split.
  - intros (x & Hx & He). apply String.eqb_eq in He. now subst.
  - intros H. exists k. split; [exact H | apply String.eqb_refl].
Qed.

Lemma update_keys_first {A : Type} (key : string) (a : A)
    (props : list (string * A)) :
  map fst (update key a props)
  = if existsb (String.eqb key) (map fst props)
    then map fst props
    else (map fst props ++ [key])%list.
Proof.
  destruct (existsb (String.eqb key) (map fst props)) eqn:He.
  - apply update_keys. now apply existsb_eqb_In.
  - apply update_keys_new. intros H. apply existsb_eqb_In in H. congruence.
Qed.

Lemma firstAppearances_In (seen names : list string) (k : string) :
  In k (firstAppearances seen names) -> In k seen \/ In k names.
Proof.
  revert seen; induction names as [|n rest IH]; intros seen; simpl; [now left|].
  intros H. destruct (IH _ H) as [Hs|Hr]; [|right; now right].
  destruct (existsb (String.eqb n) seen); [now left|].
  apply in_app_or in Hs. destruct Hs as [Hs|[<-|[]]]; [now left|right; now left].
Qed.

Lemma ownPropertyOrder_named {A : Type} (props : list (string * A)) :
  Forall (fun k => arrayIndex k = None) (map fst props) ->
  ownPropertyOrder props = props.
Proof.
  unfold ownPropertyOrder. induction props as [|[k a] rest IH]; [reflexivity|].
  cbn [map fst]. intros H. inversion H as [|? ? Hk Hrest]; subst.
  specialize (IH Hrest). cbn [indexed filter]. unfold isNamed at 1. cbn [fst].
  rewrite Hk.
  destruct (indexed rest) as [|x xs] eqn:Hi.
  - cbn [sortByIndex map app] in *. now rewrite IH.
  - exfalso. clear IH H Hk. revert x xs Hi.
    induction rest as [|[k' a'] rest' IHr]; intros x xs Hi; [discriminate|].
    cbn [indexed] in Hi. cbn [map fst] in Hrest.
    inversion Hrest as [|? ? Hk' Hrest']; subst. rewrite Hk' in Hi.
    eapply IHr; eassumption.
Qed.

Lemma forOfContacts_storedKeys (l : list Value) (acc d : Dict) :
  forOfContacts l acc = Ok d ->
  map fst d = firstAppearances (map fst acc) (storedKeys l).
Proof.
  unfold storedKeys.
  revert acc; induction l as [|c l IH]; intros acc; cbn [forOfContacts flat_map].
  - intros H; now inversion H.
  - rewrite filter_app. unfold addContact, acceptedKey, toPropertyKey.
    destruct (truthy c && truthy (getProp c "name") && truthy (getProp c "phones")).
    + destruct (toString (getProp c "name")) as [key|]; cbn [bindR];
        [|discriminate].
      intros H. rewrite (IH _ H). cbn [filter]. unfold set.
      destruct (key =? "__proto__"); cbn [negb app]; [reflexivity|].
      cbn [firstAppearances]. now rewrite update_keys_first.
    + cbn [bindR filter app]. now apply IH.
Qed.

Lemma indexed_index {A : Type} (props : list (string * A)) (n : N)
    (e : string * A) :
  In (n, e) (indexed props) -> arrayIndex (fst e) = Some n.
Proof.
  induction props as [|[k a] rest IH]; cbn [indexed]; [intros []|].
  destruct (arrayIndex k) as [m|] eqn:Hk; [|exact IH].
  intros [H|H]; [inversion H; subst; exact Hk | now apply IH].
Qed.

Lemma indexed_entries {A : Type} (props : list (string * A)) :
  map snd (indexed props) = filter (fun e => negb (isNamed e)) props.
Proof.
  induction props as [|[k a] rest IH]; cbn [indexed filter]; [reflexivity|].
  unfold isNamed at 1. cbn [fst].
  destruct (arrayIndex k); cbn [negb map snd]; now rewrite IH.
Qed.

Lemma insertByIndex_sorted {A : Type} (p : N * A) (l : list (N * A)) :
  StronglySorted (fun a b => (fst a <= fst b)%N) l ->
  StronglySorted (fun a b => (fst a <= fst b)%N) (insertByIndex p l).
Proof.
  induction 1 as [|q l Hl IH Hq]; cbn [insertByIndex].
  - constructor; constructor.
  - destruct (N.ltb_spec (fst p) (fst q)) as [Hlt|Hge].
    + constructor; [now constructor|].
      constructor; [lia|]. eapply Forall_impl; [|exact Hq].
      cbv beta. intros x Hx. lia.
    + constructor; [exact IH|].
      eapply Permutation_Forall; [symmetry; apply insertByIndex_perm|].
      constructor; [exact Hge | exact Hq].
Qed.

Lemma sortByIndex_sorted {A : Type} (l : list (N * A)) :
  StronglySorted (fun a b => (fst a <= fst b)%N) (sortByIndex l).
Proof.
  induction l as [|p l IH]; cbn [sortByIndex]; [constructor|].
  now apply insertByIndex_sorted.
Qed.

Lemma StronglySorted_map {A B : Type} (R : A -> A -> Prop) (R' : B -> B -> Prop)
    (f : A -> B) (l : list A) :
  (forall x y, In x l -> In y l -> R x y -> R' (f x) (f y)) ->
  StronglySorted R l -> StronglySorted R' (map f l).
Proof.
  intros HR Hs. induction Hs as [|x l Hl IH Hx]; cbn [map]; [constructor|].
  constructor.
  - apply IH. intros a b Ha Hb. apply HR; now right.
  - apply Forall_forall. intros y Hy. apply in_map_iff in Hy.
    destruct Hy as (z & <- & Hz). apply HR; [now left | now right|].
    rewrite Forall_forall in Hx. now apply Hx.
Qed.

(** [Object.entries] lists the array indices first, in ascending order, then
    the other names in the order of their creation. *)
Lemma entries_objectOrder (obj : Dict) : objectOrder obj (entries obj).
Proof.
  exists (map snd (sortByIndex (indexed obj))). split; [reflexivity|]. split.
  - rewrite <- indexed_entries. apply Permutation_map, sortByIndex_perm.
  - apply StronglySorted_map
      with (R := fun a b : N * (string * list Value) => (fst a <= fst b)%N);
      [|apply sortByIndex_sorted].
    intros [n e] [m e'] Hn Hm Hle. cbn [fst snd] in *.
    apply (Permutation_in _ (sortByIndex_perm _)) in Hn, Hm.
    unfold indexOf.
    now rewrite (indexed_index _ _ _ Hn), (indexed_index _ _ _ Hm).
Qed.

(** The mapping that [getAllNumbers] builds from an answered enumeration and
    the order in which a fallback scans it. *)
Lemma getAllNumbers_scanOrder (bridge : Bridge) (w w' : World) (v result : Value)
    (allContacts : Dict) :
  bridge (calls w) accessScript = Ok v ->
  bridge (calls (afterCall bridge w accessScript)) enumerateScript = Ok result ->
  Forall keyed (toResultArray result) ->
  getAllNumbers bridge w = (Ok allContacts, w') ->
  scanOrder (toResultArray result) allContacts.
Proof.
  intros Ha He Hkeyed Hg.
  destruct (forOfContacts_keyed _ [] Hkeyed) as [d0 Hf].
  rewrite (getAllNumbers_granted _ _ _ Ha) in Hg. cbv zeta in Hg.
  rewrite He, Hf in Hg. inversion Hg; subst d0. clear Hg.
  pose proof (forOfContacts_storedKeys _ _ _ Hf) as Hk. cbn [map] in Hk.
  split; [exact Hk|]. split; [|split].
  - intros contactName numbers Hin.
    destruct (forOfContacts_In _ _ _ _ _ Hf Hin) as [[]|H]. exact H.
  - apply entries_objectOrder.
  - intros Hnamed. apply ownPropertyOrder_named. rewrite Hk.
    apply Forall_forall. intros k Hin.
    apply firstAppearances_In in Hin. destruct Hin as [[]|Hin].
    rewrite Forall_forall in Hnamed. now apply Hnamed.
Qed.

(** ** The fallback of [findNumber] *)

Lemma find_keys_split (p : string -> bool) (es : list (string * list Value))
    (k : string) :
  find p (map fst es) = Some k ->
  exists before phones after,
    es = (before ++ (k, phones) :: after)%list
    /\ Forall (fun e => p (fst e) = false) before
    /\ p k = true.
Proof.
  induction es as [|[k0 a0] es IH]; simpl; [discriminate|].
  destruct (p k0) eqn:Hp.
  - intros H; inversion H; subst. exists [], a0, es. auto.
  - intros H. destruct (IH H) as (before & phones & after & -> & Hb & Hk).
    exists ((k0, a0) :: before), phones, after. auto.
Qed.

Lemma find_keys_none (p : string -> bool) (es : list (string * list Value)) :
  find p (map fst es) = None -> Forall (fun e => p (fst e) = false) es.
Proof.
  induction es as [|[k0 a0] es IH]; simpl; [constructor|].
  destruct (p k0) eqn:Hp; [discriminate|]. intros H. constructor; auto.
Qed.

Lemma toLowerCase_empty (s : string) :
  JsStr.toLowerCase s = EmptyString -> s = EmptyString.
Proof. destruct s; [reflexivity|discriminate]. Qed.

Lemma not_blank_lower (name : string) :
  isBlank name = false -> JsStr.toLowerCase name <> EmptyString.
Proof.
  intros Hb H. apply toLowerCase_empty in H. subst. discriminate.
Qed.

Lemma includes_empty (sub : string) :
  JsStr.includes EmptyString sub = true -> sub = EmptyString.
Proof. destruct sub; [reflexivity|discriminate]. Qed.

(** The answer of the fallback: the phone array of the first entry, in
    enumeration order, whose lower-cased name contains the query. *)
Lemma fuzzyMatch_first (searchName : string) (allNumbers : Dict) :
  searchName <> EmptyString ->
  NoDup (map fst allNumbers) ->
  firstNameMatch searchName (entries allNumbers) (fuzzyMatch searchName allNumbers).
Proof.
  intros Hne Hnd. unfold firstNameMatch, fuzzyMatch, closestMatchOf, keys, nameMatches.
  destruct (find _ (map fst (entries allNumbers))) as [k|] eqn:Hf.
  - left. apply find_keys_split in Hf.
    destruct Hf as (before & phones & after & He & Hb & Hk).
    exists before, k, phones, after. repeat split.
    + exact He.
    + eapply Forall_impl; [|exact Hb]. cbv beta. intros e H.
      now apply includes_not_occursIn.
    + now apply includes_occursIn.
    + assert (Hk0 : k <> EmptyString).
      { intros ->. apply includes_empty in Hk. contradiction. }
      cbn [truthy]. destruct (String.eqb_spec k EmptyString); [contradiction|].
      cbn [negb]. unfold get. rewrite (In_lookup k phones); [reflexivity|exact Hnd|].
      apply In_entries. rewrite He. apply in_elt.
  - right. split; [|reflexivity]. apply find_keys_none in Hf.
    eapply Forall_impl; [|exact Hf]. cbv beta. intros e H.
    now apply includes_not_occursIn.
Qed.

Lemma findNumber_fallback (bridge : Bridge) (w : World) (name : string)
    (v result : Value) (allNumbers : Dict) (w3 : World) :
  isBlank name = false ->
  bridge (calls w) accessScript = Ok v ->
  bridge (calls (afterCall bridge w accessScript))
         (findNumberScript (JsStr.toLowerCase name)) = Ok result ->
  toResultArray result = [] ->
  getAllNumbers bridge
    (afterCall bridge (afterCall bridge w accessScript)
               (findNumberScript (JsStr.toLowerCase name)))
  = (Ok allNumbers, w3) ->
  findNumber bridge name w = (Ok (fuzzyMatch (JsStr.toLowerCase name) allNumbers), w3).
Proof.
  intros Hb Ha Hq Hr Hg. rewrite (findNumber_granted _ _ _ _ Ha Hb). cbv zeta.
  now rewrite Hq, Hr, Hg.
Qed.

(** C2, as amended: when the targeted query returns no result, [findNumber]
    answers from the mapping of [getAllNumbers]: it returns the whole phone
    array stored under the first key, in the order of [Object.keys], whose
    lower-cased form contains the lower-cased query, and the empty array
    when no key does; the answer is the array of that one entry, never a
    merge.  The keys were created in the order in which the names of the
    accepted records first appear in the enumeration, each holding the
    phones of one record of that name; [Object.keys] lists those that are
    array indices first, in ascending numeric order, and then the others in
    the order of their creation, which is the order of the enumeration when
    no name is an array index.  And [findNumber("Smith")] over the directory
    [{John Smith: [555-1234]}], the targeted query matching nothing, returns
    [[555-1234]]. *)
Theorem findNumber_fallback_first_key :
  (forall (bridge : Bridge) (w : World) (name : string) (v result : Value)
          (allNumbers : Dict) (w3 : World),
      let searchName := JsStr.toLowerCase name in
      let w1 := afterCall bridge w accessScript in
      let w2 := afterCall bridge w1 (findNumberScript searchName) in
      isBlank name = false ->
      bridge (calls w) accessScript = Ok v ->
      bridge (calls w1) (findNumberScript searchName) = Ok result ->
      toResultArray result = [] ->
      getAllNumbers bridge w2 = (Ok allNumbers, w3) ->
      (exists answer,
          findNumber bridge name w = (Ok answer, w3)
          /\ firstNameMatch searchName (entries allNumbers) answer)
      /\ (forall v' enumerated : Value,
            bridge (calls w2) accessScript = Ok v' ->
            bridge (calls (afterCall bridge w2 accessScript)) enumerateScript
            = Ok enumerated ->
            Forall keyed (toResultArray enumerated) ->
            scanOrder (toResultArray enumerated) allNumbers))
  /\ findNumber smithDirectory "Smith" initial
     = (Ok [Str "555-1234"],
        mkWorld [ accessGranted;
                  (findNumberScript "smith", Ok (Array []));
                  accessGranted;
                  (enumerateScript, Ok (Array [recordOf "John Smith" ["555-1234"]])) ]
                []).
Proof.
  split; [|vm_compute; reflexivity].
  intros bridge w name v result allNumbers w3 searchName w1 w2 Hb Ha Hq Hr Hg.
  split.
  - exists (fuzzyMatch searchName allNumbers). split.
    + exact (findNumber_fallback _ _ _ _ _ _ _ Hb Ha Hq Hr Hg).
    + apply fuzzyMatch_first.
      * now apply not_blank_lower.
      * exact (getAllNumbers_NoDup _ _ _ _ Hg).
  - intros v' enumerated Ha' He Hkeyed.
    exact (getAllNumbers_scanOrder _ _ _ _ _ _ Ha' He Hkeyed Hg).
Qed.

(** The theorem at the example of the specification. *)
Lemma findNumber_fallback_first_key_witness :
  (exists answer w3,
      findNumber smithDirectory "Smith" initial = (Ok answer, w3)
      /\ firstNameMatch "smith" [("John Smith", [Str "555-1234"])] answer)
  /\ scanOrder [recordOf "John Smith" ["555-1234"]]
               [("John Smith", [Str "555-1234"])].
Proof.
  pose (w1 := afterCall smithDirectory initial accessScript).
  pose (w2 := afterCall smithDirectory w1 (findNumberScript (JsStr.toLowerCase "Smith"))).
  assert (Hb : isBlank "Smith" = false) by (vm_compute; reflexivity).
  assert (Ha : smithDirectory (calls initial) accessScript = Ok (Str "Contacts"))
    by (vm_compute; reflexivity).
  assert (Hq : smithDirectory (calls w1) (findNumberScript (JsStr.toLowerCase "Smith"))
               = Ok (Array []))
    by (vm_compute; reflexivity).
  assert (Hr : toResultArray (Array []) = []) by reflexivity.
  assert (Hg : getAllNumbers smithDirectory w2
               = (Ok [("John Smith", [Str "555-1234"])],
                  snd (findNumber smithDirectory "Smith" initial)))
    by (vm_compute; reflexivity).
  assert (Ha' : smithDirectory (calls w2) accessScript = Ok (Str "Contacts"))
    by (vm_compute; reflexivity).
  assert (He : smithDirectory (calls (afterCall smithDirectory w2 accessScript))
                 enumerateScript
               = Ok (Array [recordOf "John Smith" ["555-1234"]]))
    by (vm_compute; reflexivity).
  assert (Hk : Forall keyed (toResultArray (Array [recordOf "John Smith" ["555-1234"]]))).
  { constructor; [unfold keyed; cbn; discriminate | constructor]. }
  destruct (proj1 findNumber_fallback_first_key
              smithDirectory initial "Smith" (Str "Contacts") (Array [])
              [("John Smith", [Str "555-1234"])]
              (snd (findNumber smithDirectory "Smith" initial))
              Hb Ha Hq Hr Hg)
    as [[answer [H1 H2]] Hs].
  split.
  - exists answer, (snd (findNumber smithDirectory "Smith" initial)).
    split; [exact H1 | exact H2].
  - exact (Hs (Str "Contacts") (Array [recordOf "John Smith" ["555-1234"]])
              Ha' He Hk).
Defined.

(** C2, as stated, fails: the scan is not in the order of the enumeration
    when a name is an array index.  Over an enumeration of [Office 12] and
    then [12], both names containing the query [12], the first match in the
    order of the enumeration is [Office 12], and [findNumber] returns the
    phones of [12]. *)
Lemma findNumber_fallback_index_names_first :
  findNumber officeDirectory "12" initial
  = (Ok [Str "2"],
     mkWorld [ accessGranted;
               (findNumberScript "12", Ok (Array []));
               accessGranted;
               (enumerateScript,
                Ok (Array [recordOf "Office 12" ["1"]; recordOf "12" ["2"]])) ]
             [])
  /\ firstNameMatch "12" [("Office 12", [Str "1"]); ("12", [Str "2"])] [Str "1"]
  /\ ~ firstNameMatch "12" [("Office 12", [Str "1"]); ("12", [Str "2"])] [Str "2"].
Proof.
  assert (Hm : nameMatches "12" "Office 12").
  { apply includes_occursIn. vm_compute. reflexivity. }
  split; [vm_compute; reflexivity|]. split.
  - left. exists [], "Office 12", [Str "1"], [("12", [Str "2"])].
    split; [reflexivity|]. split; [constructor|]. split; [exact Hm | reflexivity].
  - intros [(before & personName & phones & after & He & Hb & _ & Ha)|[Hall _]].
    + destruct before as [|b before]; cbn [app] in He; inversion He; subst.
      * discriminate.
      * inversion Hb as [|? ? Hno _]; subst. now apply Hno.
    + inversion Hall as [|? ? Hno _]; subst. now apply Hno.
Qed.

(** ** The filter of [findNumber] *)

Lemma nonBlank_string (callee s : string) :
  nonBlank callee (Str s) = Ok (negb (isBlank s)).
Proof. unfold nonBlank, isBlank. now rewrite negb_orb. Qed.

Lemma keepsPhone_nonBlank (phone : Value) :
  testable phone -> nonBlank "phone" phone = Ok (keepsPhone phone).
Proof.
  intros [Hf|[s ->]]; [|apply nonBlank_string].
  destruct phone as [| |b|n|s|elems|fields]; simpl in *;
    try reflexivity; try discriminate; try now rewrite Hf.
  unfold isBlank. destruct (s =? EmptyString); [reflexivity|discriminate].
Qed.

Lemma filterNonBlank_testable (l : list Value) :
  Forall testable l -> filterNonBlank l = Ok (filter keepsPhone l).
Proof.
  induction 1 as [|phone rest Hp _ IH]; [reflexivity|].
  cbn [filterNonBlank filter]. rewrite (keepsPhone_nonBlank _ Hp), IH.
  reflexivity.
Qed.

Lemma keepsPhone_spec (phone : Value) :
  keepsPhone phone = true <-> exists s, phone = Str s /\ ~ blank s.
Proof.
  split.
  - destruct phone as [| |b|n|s|elems|fields]; cbn [keepsPhone];
      try discriminate.
    intros H. exists s. split; [reflexivity|]. intros Hb.
    apply (proj2 (isBlank_blank s)) in Hb. rewrite Hb in H. discriminate.
  - intros (s & -> & Hb). cbn [keepsPhone].
    destruct (isBlank s) eqn:Hs; [|reflexivity].
    apply (proj1 (isBlank_blank s)) in Hs. contradiction.
Qed.

(** C10: the filter that keeps the non-blank phone strings is applied to
    the answer of the targeted query only.  When that answer is not empty
    (its elements being strings or falsy values, which the filter can test),
    [findNumber] returns exactly its elements that are strings and not
    blank, in their order.  When it is empty, [findNumber] returns the array
    stored in the mapping of [getAllNumbers] under the first matching name
    as it stands, or the empty array when no name matches; and over a
    directory whose matched contact has a phone value made of one space, the
    returned array contains that value. *)
Theorem findNumber_filters_only_direct_results :
  (forall (bridge : Bridge) (w : World) (name : string) (v result : Value),
      let searchName := JsStr.toLowerCase name in
      let w1 := afterCall bridge w accessScript in
      let w2 := afterCall bridge w1 (findNumberScript searchName) in
      isBlank name = false ->
      bridge (calls w) accessScript = Ok v ->
      bridge (calls w1) (findNumberScript searchName) = Ok result ->
      toResultArray result <> [] ->
      Forall testable (toResultArray result) ->
      findNumber bridge name w
      = (Ok (filter keepsPhone (toResultArray result)), w2)
      /\ forall phone,
           In phone (filter keepsPhone (toResultArray result))
           <-> In phone (toResultArray result)
               /\ exists s, phone = Str s /\ ~ blank s)
  /\ (forall (bridge : Bridge) (w : World) (name : string) (v result : Value)
             (allNumbers : Dict) (w3 : World),
        let searchName := JsStr.toLowerCase name in
        let w1 := afterCall bridge w accessScript in
        let w2 := afterCall bridge w1 (findNumberScript searchName) in
        isBlank name = false ->
        bridge (calls w) accessScript = Ok v ->
        bridge (calls w1) (findNumberScript searchName) = Ok result ->
        toResultArray result = [] ->
        getAllNumbers bridge w2 = (Ok allNumbers, w3) ->
        exists answer,
          findNumber bridge name w = (Ok answer, w3)
          /\ firstNameMatch searchName (entries allNumbers) answer)
  /\ (blank " "
      /\ fst (getAllNumbers blankPhoneDirectory initial)
         = Ok [("Ann Lee", [Str " "; Str "555-0100"])]
      /\ fst (findNumber blankPhoneDirectory "ann" initial)
         = Ok [Str " "; Str "555-0100"]).
Proof.
  split; [|split].
  - intros bridge w name v result searchName w1 w2 Hb Ha Hq Hr Ht. split.
    + rewrite (findNumber_granted _ _ _ _ Ha Hb). cbv zeta.
      fold searchName w1 w2. rewrite Hq.
      destruct (toResultArray result) eqn:Harr; [contradiction|].
      now rewrite (filterNonBlank_testable _ Ht).
    + intros phone. rewrite filter_In, keepsPhone_spec. reflexivity.
  - intros bridge w name v result allNumbers w3 searchName w1 w2 Hb Ha Hq Hr Hg.
    exists (fuzzyMatch searchName allNumbers). split.
    + exact (findNumber_fallback _ _ _ _ _ _ _ Hb Ha Hq Hr Hg).
    + apply fuzzyMatch_first.
      * now apply not_blank_lower.
      * exact (getAllNumbers_NoDup _ _ _ _ Hg).
  - split; [apply isBlank_blank; reflexivity|].
    split; vm_compute; reflexivity.
Qed.

(** The theorem's first part at a targeted answer holding a blank, an empty
    string and a number, its second part at the directory with the blank
    phone. *)
Lemma findNumber_filters_only_direct_results_witness :
  (exists w2,
      findNumber
        (scripted [accessGranted;
                   (findNumberScript "ann",
                    Ok (Array [Str " "; Str EmptyString; Str "555-0100"]))])
        "ann" initial
      = (Ok [Str "555-0100"], w2))
  /\ (exists answer w3,
        findNumber blankPhoneDirectory "ann" initial = (Ok answer, w3)
        /\ firstNameMatch "ann" [("Ann Lee", [Str " "; Str "555-0100"])] answer).
Proof.
  split.
  - eexists.
    refine (proj1 (proj1 findNumber_filters_only_direct_results
              (scripted [accessGranted;
                         (findNumberScript "ann",
                          Ok (Array [Str " "; Str EmptyString; Str "555-0100"]))])
              initial "ann" (Str "Contacts")
              (Array [Str " "; Str EmptyString; Str "555-0100"]) _ _ _ _ _)).
    + vm_compute. reflexivity.
    + vm_compute. reflexivity.
    + vm_compute. reflexivity.
    + vm_compute. discriminate.
    + cbn [toResultArray].
      repeat (constructor; [right; eexists; reflexivity|]). constructor.
  - destruct (proj1 (proj2 findNumber_filters_only_direct_results)
                blankPhoneDirectory initial "ann" (Str "Contacts") (Array [])
                [("Ann Lee", [Str " "; Str "555-0100"])]
                (snd (findNumber blankPhoneDirectory "ann" initial)))
      as [answer [H1 H2]]; try (vm_compute; reflexivity).
    exists answer, (snd (findNumber blankPhoneDirectory "ann" initial)).
    split; [exact H1 | exact H2].
Defined.

(** ** The fallback of [findContactByPhone] *)

Lemma phoneRule_holds (searchNumber num : string) :
  phoneRule searchNumber num = true <-> phoneRuleHolds searchNumber num.
Proof.
  unfold phoneRule, phoneRuleHolds.
  rewrite !orb_true_iff, !String.eqb_eq, !includes_occursIn. tauto.
Qed.

Lemma strings_map (numbers : list Value) :
  Forall isString numbers -> exists ps, numbers = map Str ps.
Proof.
  induction 1 as [|x l [s ->] _ [ps ->]]; [now exists [] | now exists (s :: ps)].
Qed.

Lemma mapNormalize_strings (ps : list string) :
  mapNormalize (map Str ps) = Ok (map normalizePhone ps).
Proof.
  induction ps as [|p ps IH]; [reflexivity|].
  cbn [map mapNormalize normalizeNumber bindR]. now rewrite IH.
Qed.

Lemma some_rule_matches (searchNumber : string) (ps : list string) :
  existsb (phoneRule searchNumber) (map normalizePhone ps) = true
  <-> contactMatches searchNumber (map Str ps).
Proof.
  unfold contactMatches. rewrite existsb_exists. split.
  - intros (num & Hin & Hr). apply in_map_iff in Hin. destruct Hin as (p & <- & Hp).
    exists p. split; [now apply in_map|].
    rewrite <- normalizePhone_digitsAndPlus. now apply phoneRule_holds.
  - intros (p & Hin & Hr). exists (normalizePhone p). split.
    + apply in_map_iff in Hin. destruct Hin as (q & Hq & Hin).
      inversion Hq; subst. now apply in_map.
    + apply phoneRule_holds. now rewrite normalizePhone_digitsAndPlus.
Qed.

(** Over string arrays the loop never throws, and answers with the name of
    the first entry one of whose normalized phones satisfies a rule. *)
Lemma forOfEntries_first (searchNumber : string)
    (allEntries : list (string * list Value)) :
  Forall (fun e => Forall isString (snd e)) allEntries ->
  exists answer,
    forOfEntries searchNumber allEntries = Ok answer
    /\ firstPhoneMatch searchNumber allEntries answer.
Proof.
  unfold firstPhoneMatch.
  induction 1 as [|[contactName numbers] rest Hs _ IH].
  - exists Null. split; [reflexivity|]. right. split; [constructor|reflexivity].
  - simpl in Hs. destruct (strings_map _ Hs) as [ps ->].
    cbn [forOfEntries]. rewrite mapNormalize_strings. cbn [bindR].
    destruct (existsb (phoneRule searchNumber) (map normalizePhone ps)) eqn:Hm.
    + exists (Str contactName). split; [reflexivity|]. left.
      exists [], contactName, (map Str ps), rest.
      repeat split; [constructor | now apply some_rule_matches].
    + assert (Hno : ~ contactMatches searchNumber (map Str ps)).
      { intros Hc. apply some_rule_matches in Hc. congruence. }
      destruct IH as (answer & Hf & Hfirst). exists answer. split; [exact Hf|].
      destruct Hfirst
        as [(before & name & numbers & after & -> & Hb & Hc & ->)|[Hall ->]].
      * left. exists ((contactName, map Str ps) :: before), name, numbers, after.
        repeat split; [now constructor | exact Hc].
      * right. split; [now constructor | reflexivity].
Qed.

Lemma nonBlank_foundNothing (callee : string) (result : Value) :
  foundNothing result -> nonBlank callee result = Ok false.
Proof.
  intros [Hf|(s & -> & Ht)].
  - destruct result as [| |b|n|s|elems|fields]; simpl in *;
      try reflexivity; try discriminate; now rewrite Hf.
  - simpl. rewrite Ht. cbn. now rewrite andb_false_r.
Qed.

(** C1, as amended: when the primary query finds no name,
    [findContactByPhone] answers from the mapping of [getAllNumbers] (an
    object of string arrays): with [searchNumber] the input stripped of
    everything but digits and plus signs, it returns the name of the first
    entry, in the order of [Object.entries], one of whose phone values,
    stripped the same way to [num], satisfies [num == searchNumber],
    [num == "+" + searchNumber], [num == "+1" + searchNumber],
    ["+1" + num == searchNumber], [searchNumber] contains [num], or [num]
    contains [searchNumber]; and [null] when no entry does.  The entries
    were created in the order in which the names of the accepted records
    first appear in the enumeration, each holding the phones of one record
    of that name; [Object.entries] lists those whose name is an array index
    first, in ascending numeric order, and then the others in the order of
    their creation, which is the order of the enumeration when no name is an
    array index.  And [findContactByPhone("555-1234")] over the directory
    [{Jane Doe: [+15551234]}] sends the primary query for [5551234] and
    returns [Jane Doe]. *)
Theorem findContactByPhone_fallback_first_entry :
  (forall (bridge : Bridge) (w : World) (phoneNumber : string) (v result : Value)
          (allContacts : Dict) (w3 : World),
      let searchNumber := digitsAndPlus phoneNumber in
      let w1 := afterCall bridge w accessScript in
      let w2 := afterCall bridge w1 (findContactByPhoneScript searchNumber) in
      isBlank phoneNumber = false ->
      bridge (calls w) accessScript = Ok v ->
      bridge (calls w1) (findContactByPhoneScript searchNumber) = Ok result ->
      foundNothing result ->
      getAllNumbers bridge w2 = (Ok allContacts, w3) ->
      phoneStrings allContacts ->
      (exists answer,
          findContactByPhone bridge phoneNumber w = (Ok answer, w3)
          /\ firstPhoneMatch searchNumber (entries allContacts) answer)
      /\ (forall v' enumerated : Value,
            bridge (calls w2) accessScript = Ok v' ->
            bridge (calls (afterCall bridge w2 accessScript)) enumerateScript
            = Ok enumerated ->
            Forall keyed (toResultArray enumerated) ->
            scanOrder (toResultArray enumerated) allContacts))
  /\ findContactByPhone janeDirectory "555-1234" initial
     = (Ok (Str "Jane Doe"),
        mkWorld [ accessGranted;
                  (findContactByPhoneScript "5551234", Ok (Str EmptyString));
                  accessGranted;
                  (enumerateScript, Ok (Array [recordOf "Jane Doe" ["+15551234"]])) ]
                []).
Proof.
  split; [|vm_compute; reflexivity].
  intros bridge w phoneNumber v result allContacts w3 searchNumber w1 w2
         Hb Ha Hq Hn Hg Hs.
  assert (Hnorm : normalizePhone phoneNumber = searchNumber)
    by apply normalizePhone_digitsAndPlus.
  split.
  - destruct (forOfEntries_first searchNumber (entries allContacts))
      as (answer & Hf & Hfirst).
    { eapply Permutation_Forall; [symmetry; apply entries_perm | exact Hs]. }
    exists answer. split; [|exact Hfirst].
    rewrite (findContactByPhone_granted _ _ _ _ Ha Hb). cbv zeta.
    rewrite Hnorm. fold w1 w2.
    now rewrite Hq, (nonBlank_foundNothing _ _ Hn), Hg, Hf.
  - intros v' enumerated Ha' He Hkeyed.
    exact (getAllNumbers_scanOrder _ _ _ _ _ _ Ha' He Hkeyed Hg).
Qed.

(** The theorem at the example of the specification. *)
Lemma findContactByPhone_fallback_first_entry_witness :
  (exists answer w3,
      findContactByPhone janeDirectory "555-1234" initial = (Ok answer, w3)
      /\ firstPhoneMatch "5551234" [("Jane Doe", [Str "+15551234"])] answer)
  /\ scanOrder [recordOf "Jane Doe" ["+15551234"]]
               [("Jane Doe", [Str "+15551234"])].
Proof.
  pose (w1 := afterCall janeDirectory initial accessScript).
  pose (w2 := afterCall janeDirectory w1
                (findContactByPhoneScript (digitsAndPlus "555-1234"))).
  assert (Hb : isBlank "555-1234" = false) by (vm_compute; reflexivity).
  assert (Ha : janeDirectory (calls initial) accessScript = Ok (Str "Contacts"))
    by (vm_compute; reflexivity).
  assert (Hq : janeDirectory (calls w1)
                 (findContactByPhoneScript (digitsAndPlus "555-1234"))
               = Ok (Str EmptyString))
    by (vm_compute; reflexivity).
  assert (Hn : foundNothing (Str EmptyString)) by (left; reflexivity).
  assert (Hg : getAllNumbers janeDirectory w2
               = (Ok [("Jane Doe", [Str "+15551234"])],
                  snd (findContactByPhone janeDirectory "555-1234" initial)))
    by (vm_compute; reflexivity).
  assert (Hp : phoneStrings [("Jane Doe", [Str "+15551234"])]).
  { repeat constructor. now exists "+15551234". }
  assert (Ha' : janeDirectory (calls w2) accessScript = Ok (Str "Contacts"))
    by (vm_compute; reflexivity).
  assert (He : janeDirectory (calls (afterCall janeDirectory w2 accessScript))
                 enumerateScript
               = Ok (Array [recordOf "Jane Doe" ["+15551234"]]))
    by (vm_compute; reflexivity).
  assert (Hk : Forall keyed (toResultArray (Array [recordOf "Jane Doe" ["+15551234"]]))).
  { constructor; [unfold keyed; cbn; discriminate | constructor]. }
  destruct (proj1 findContactByPhone_fallback_first_entry
              janeDirectory initial "555-1234" (Str "Contacts") (Str EmptyString)
              [("Jane Doe", [Str "+15551234"])]
              (snd (findContactByPhone janeDirectory "555-1234" initial))
              Hb Ha Hq Hn Hg Hp)
    as [[answer [H1 H2]] Hs].
  split.
  - exists answer, (snd (findContactByPhone janeDirectory "555-1234" initial)).
    split; [exact H1 | exact H2].
  - exact (Hs (Str "Contacts") (Array [recordOf "Jane Doe" ["+15551234"]])
              Ha' He Hk).
Defined.

(** C1, as stated, fails: the scan is not in the order of the enumeration
    when a name is an array index.  Over an enumeration of [Ann Lee] and
    then a contact named [911], both with the phone 555-1234, the first
    match in the order of the enumeration is [Ann Lee], and
    [findContactByPhone] returns [911]. *)
Lemma findContactByPhone_fallback_index_names_first :
  findContactByPhone emergencyDirectory "555-1234" initial
  = (Ok (Str "911"),
     mkWorld [ accessGranted;
               (findContactByPhoneScript "5551234", Ok (Str EmptyString));
               accessGranted;
               (enumerateScript,
                Ok (Array [recordOf "Ann Lee" ["555-1234"];
                           recordOf "911" ["555-1234"]])) ]
             [])
  /\ firstPhoneMatch "5551234"
       [("Ann Lee", [Str "555-1234"]); ("911", [Str "555-1234"])] (Str "Ann Lee")
  /\ ~ firstPhoneMatch "5551234"
         [("Ann Lee", [Str "555-1234"]); ("911", [Str "555-1234"])] (Str "911").
Proof.
  assert (Hm : contactMatches "5551234" [Str "555-1234"]).
  { exists "555-1234". split; [now left|]. left. vm_compute. reflexivity. }
  split; [vm_compute; reflexivity|]. split.
  - left. exists [], "Ann Lee", [Str "555-1234"], [("911", [Str "555-1234"])].
    split; [reflexivity|]. split; [constructor|]. split; [exact Hm | reflexivity].
  - intros [(before & contactName & numbers & after & He & Hb & _ & Ha)|[_ Ha]];
      [|discriminate].
    destruct before as [|b before]; cbn [app] in He; inversion He; subst.
    + discriminate.
    + inversion Hb as [|? ? Hno _]; subst. now apply Hno.
Qed.

(** ** The enumeration script *)

Lemma repeatPhones_nonempty (phonesList : list AppleScript.Phone)
    (personPhones : list string) :
  Forall (fun p => p <> EmptyString) personPhones ->
  Forall (fun p => p <> EmptyString)
         (AppleScript.repeatPhones phonesList personPhones).
Proof.
  revert personPhones; induction phonesList as [|phoneItem rest IH];
    intros personPhones Hacc; simpl; [exact Hacc|].
  destruct (AppleScript.value phoneItem) as [phoneValue|]; [|now apply IH].
  destruct (String.eqb_spec phoneValue EmptyString); [now apply IH|].
  apply IH. apply Forall_app. split; [exact Hacc | now repeat constructor].
Qed.

Lemma phonesOf_nonempty (currentPerson : AppleScript.Person) :
  Forall (fun p => p <> EmptyString) (AppleScript.phonesOf currentPerson).
Proof.
  unfold AppleScript.phonesOf. destruct (AppleScript.phones currentPerson).
  - apply repeatPhones_nonempty. constructor.
  - constructor.
Qed.

(** The script adds a contact only with its phones, none of them empty. *)
Lemma repeatPeople_hasPhones (maxContacts : N) (allPeople : list AppleScript.Person)
    (contactList : list AppleScript.ContactInfo) (contactCount : N) :
  Forall hasPhones contactList ->
  Forall hasPhones
         (AppleScript.repeatPeople maxContacts allPeople contactList contactCount).
Proof.
  revert contactList contactCount;
    induction allPeople as [|currentPerson rest IH];
    intros contactList contactCount Hacc; simpl; [exact Hacc|].
  destruct (maxContacts <=? contactCount)%N; [exact Hacc|].
  destruct (AppleScript.name currentPerson) as [personName|]; [|now apply IH].
  destruct (AppleScript.phonesOf currentPerson) as [|p ps] eqn:Hp; simpl;
    [now apply IH|].
  apply IH. apply Forall_app. split; [exact Hacc|].
  constructor; [|constructor]. split; simpl; [discriminate|].
  rewrite <- Hp. apply phonesOf_nonempty.
Qed.

(** The script stops adding contacts once [contactCount] reaches the
    maximum. *)
Lemma repeatPeople_bound (maxContacts : N) (allPeople : list AppleScript.Person)
    (contactList : list AppleScript.ContactInfo) (contactCount : N) :
  N.of_nat (length contactList) = contactCount ->
  (contactCount <= maxContacts)%N ->
  (N.of_nat (length (AppleScript.repeatPeople maxContacts allPeople
                       contactList contactCount)) <= maxContacts)%N.
Proof.
  revert contactList contactCount;
    induction allPeople as [|currentPerson rest IH];
    intros contactList contactCount Hlen Hle; simpl; [lia|].
  destruct (N.leb_spec maxContacts contactCount); [lia|].
  destruct (AppleScript.name currentPerson) as [personName|]; [|now apply IH].
  destruct (0 <? length (AppleScript.phonesOf currentPerson))%nat;
    [|now apply IH].
  apply IH; [|lia]. rewrite length_app. simpl. lia.
Qed.

Lemma enumerate_bound (maxContacts : N) (allPeople : list AppleScript.Person) :
  (N.of_nat (length (AppleScript.enumerate maxContacts allPeople)) <= maxContacts)%N.
Proof.
  unfold AppleScript.enumerate. apply repeatPeople_bound; [reflexivity | lia].
Qed.

Lemma enumerate_hasPhones (maxContacts : N) (allPeople : list AppleScript.Person) :
  Forall hasPhones (AppleScript.enumerate maxContacts allPeople).
Proof.
  unfold AppleScript.enumerate. apply repeatPeople_hasPhones. constructor.
Qed.

(** ** What [getAllNumbers] does with the script's records *)

Lemma rendersContacts_records (cs : list AppleScript.ContactInfo) (result : Value) :
  rendersContacts cs result -> Forall2 rendersRecord cs (toResultArray result).
Proof.
  intros [cs' vs H|c v H| | |]; simpl; try constructor; try assumption.
  destruct H. simpl. repeat constructor. assumption.
Qed.

Lemma rendersPhones_array (ps : list string) (v : Value) :
  rendersPhones ps v -> toPhoneArray v = map Str ps.
Proof. intros [ps'|p]; reflexivity. Qed.

Lemma Forall2_In_r {A B : Type} (R : A -> B -> Prop) (l : list A) (l' : list B)
    (b : B) :
  Forall2 R l l' -> In b l' -> exists a, In a l /\ R a b.
Proof.
  induction 1 as [|x y l l' Hxy _ IH]; simpl; [contradiction|].
  intros [<-|Hin]; [exists x; auto|].
  destruct (IH Hin) as (a & Ha & HR). exists a. auto.
Qed.

Lemma rendersRecord_keyed (cs : list AppleScript.ContactInfo) (vs : list Value) :
  Forall2 rendersRecord cs vs -> Forall keyed vs.
Proof.
  induction 1 as [|c v cs vs Hr _ IH]; constructor; [|exact IH].
  destruct Hr. unfold keyed. cbn. discriminate.
Qed.

(** ** The entries of the mapping *)

(** C5, as amended: when the bridge runs the enumeration script, so that
    what it answers renders the record list the script builds from some
    people collection, every entry of the mapping returned by
    [getAllNumbers] has a phone array that is not empty, and every element
    of it is a string other than the empty string. *)
Theorem getAllNumbers_entries_have_phones :
  forall (bridge : Bridge) (w w' : World) (d : Dict),
    runsEnumeration bridge w ->
    getAllNumbers bridge w = (Ok d, w') ->
    forall (personName : string) (phones : list Value),
      In (personName, phones) (entries d) ->
      phones <> []
      /\ forall p, In p phones -> exists s, p = Str s /\ s <> EmptyString.
Proof.
  intros bridge w w' d Hrun Hg personName phones Hin.
  apply (proj1 (In_entries _ _)) in Hin.
  destruct (getAllNumbers_inv _ _ _ _ Hg) as [->|(v & result & Ha & He & Hf)];
    [contradiction|].
  destruct (Hrun result He) as [allPeople Hr].
  apply rendersContacts_records in Hr.
  destruct (forOfContacts_In _ _ _ _ _ Hf Hin) as [[]|(contact & Hc & _ & ->)].
  destruct (Forall2_In_r _ _ _ _ Hr Hc) as (c & Hcs & Hrec).
  pose proof (enumerate_hasPhones (MAX_CONTACTS CONFIG) allPeople) as Hall.
  rewrite Forall_forall in Hall. destruct (Hall c Hcs) as [Hne Hps].
  destruct Hrec as [c ps Hps']. cbn [getProp lookup String.eqb Ascii.eqb Bool.eqb].
  rewrite (rendersPhones_array _ _ Hps'). split.
  - destruct (AppleScript.infoPhones c); [contradiction|discriminate].
  - intros p Hp. apply in_map_iff in Hp. destruct Hp as (s & <- & Hs).
    exists s. split; [reflexivity|]. rewrite Forall_forall in Hps. now apply Hps.
Qed.

(** The theorem over the people collection of one contact with two phones,
    one of them empty. *)
Lemma getAllNumbers_entries_have_phones_witness :
  let bridge :=
    scripted [accessGranted;
              (enumerateScript, Ok (Array [recordOf "Ann Lee" ["555-0100"]]))] in
  runsEnumeration bridge initial
  /\ (exists w', getAllNumbers bridge initial = (Ok [("Ann Lee", [Str "555-0100"])], w'))
  /\ ([Str "555-0100"] <> []
      /\ forall p, In p [Str "555-0100"] -> exists s, p = Str s /\ s <> EmptyString).
Proof.
  intros bridge.
  assert (Hrun : runsEnumeration bridge initial).
  { intros result H. vm_compute in H. inversion H; subst.
    exists [AppleScript.mkPerson (Some "Ann Lee")
              (Some [AppleScript.mkPhone (Some EmptyString);
                     AppleScript.mkPhone (Some "555-0100")])].
    apply renders_list. constructor; [|constructor].
    exact (renders_record (AppleScript.mkContactInfo "Ann Lee" ["555-0100"]) _
             (renders_phone_list ["555-0100"])). }
  split; [exact Hrun|].
  split; [exists (snd (getAllNumbers bridge initial)); vm_compute; reflexivity|].
  refine (getAllNumbers_entries_have_phones bridge initial
            (snd (getAllNumbers bridge initial)) [("Ann Lee", [Str "555-0100"])]
            Hrun _ "Ann Lee" [Str "555-0100"] _).
  - vm_compute. reflexivity.
  - vm_compute. left. reflexivity.
Defined.

(** C5, as stated, fails.  The script keeps a phone value made of one
    space, and the bridge result that renders its record list gives an entry
    with a whitespace-only phone string; and for a bridge result whose
    record has an empty phone list the entry has an empty phone list. *)
Lemma getAllNumbers_keeps_blank_phone :
  AppleScript.enumerate (MAX_CONTACTS CONFIG) spacePeople
  = [AppleScript.mkContactInfo "Ann Lee" [" "]]
  /\ rendersContacts (AppleScript.enumerate (MAX_CONTACTS CONFIG) spacePeople)
                     (Array [recordOf "Ann Lee" [" "]])
  /\ fst (getAllNumbers spaceDirectory initial) = Ok [("Ann Lee", [Str " "])]
  /\ entries [("Ann Lee", [Str " "])] = [("Ann Lee", [Str " "])]
  /\ blank " "
  /\ fst (getAllNumbers noPhoneDirectory initial) = Ok [("Ann Lee", [])].
Proof.
  split; [reflexivity|]. split.
  { apply renders_list. constructor; [|constructor].
    exact (renders_record (AppleScript.mkContactInfo "Ann Lee" [" "]) _
             (renders_phone_list [" "])). }
  split; [vm_compute; reflexivity|]. split; [vm_compute; reflexivity|].
  split; [apply isBlank_blank; reflexivity | vm_compute; reflexivity].
Qed.

(** ** The size of the mapping *)

(** C6, as amended: the mapping returned by [getAllNumbers] has at most as
    many entries as the bridge result has records.  The bound
    [CONFIG.MAX_CONTACTS] is kept by the enumeration script, whose record
    list never has more than that many records; so the mapping has at most
    [CONFIG.MAX_CONTACTS] entries whenever the bridge runs the script. *)
Theorem getAllNumbers_size_bounded :
  (forall allPeople : list AppleScript.Person,
      (N.of_nat (length (AppleScript.enumerate (MAX_CONTACTS CONFIG) allPeople))
       <= MAX_CONTACTS CONFIG)%N)
  /\ forall (bridge : Bridge) (w w' : World) (d : Dict),
       getAllNumbers bridge w = (Ok d, w') ->
       (forall result,
           bridge (calls (afterCall bridge w accessScript)) enumerateScript
           = Ok result ->
           size d <= length (toResultArray result))
       /\ (runsEnumeration bridge w ->
           (N.of_nat (size d) <= MAX_CONTACTS CONFIG)%N).
Proof.
  split; [intros allPeople; apply enumerate_bound|].
  intros bridge w w' d Hg. rewrite size_length.
  destruct (getAllNumbers_inv _ _ _ _ Hg) as [->|(v & result & Ha & He & Hf)].
  - split; [intros; simpl; lia | intros _; simpl; lia].
  - apply forOfContacts_length in Hf. simpl in Hf. split.
    + intros result' He'. rewrite He in He'. inversion He'; subst. exact Hf.
    + intros Hrun. destruct (Hrun result He) as [allPeople Hr].
      apply rendersContacts_records, Forall2_length in Hr.
      pose proof (enumerate_bound (MAX_CONTACTS CONFIG) allPeople). lia.
Qed.

(** The theorem at the directory of two namesakes and a third contact:
    three records, two entries. *)
Lemma getAllNumbers_size_bounded_witness :
  exists d w',
    getAllNumbers namesakeDirectory initial = (Ok d, w')
    /\ size d = 2
    /\ size d <= 3.
Proof.
  exists [("Ann Lee", [Str "555-0002"]); ("Bob Ray", [Str "555-0003"])],
         (snd (getAllNumbers namesakeDirectory initial)).
  split; [vm_compute; reflexivity|]. split; [vm_compute; reflexivity|].
  refine (proj1 (proj2 getAllNumbers_size_bounded namesakeDirectory initial
                   (snd (getAllNumbers namesakeDirectory initial))
                   [("Ann Lee", [Str "555-0002"]); ("Bob Ray", [Str "555-0003"])] _)
            (Array [recordOf "Ann Lee" ["555-0001"];
                    recordOf "Bob Ray" ["555-0003"];
                    recordOf "Ann Lee" ["555-0002"]]) _);
    vm_compute; reflexivity.
Defined.

(** C6, as stated, fails: a bridge result of 101 records with different
    names gives a mapping of 101 entries. *)
Lemma getAllNumbers_keeps_every_record :
  exists d,
    fst (getAllNumbers crowdedDirectory initial) = Ok d
    /\ size d = 101
    /\ (MAX_CONTACTS CONFIG < N.of_nat (size d))%N.
Proof.
  eexists. split; [vm_compute; reflexivity|].
  split; vm_compute; reflexivity.
Qed.

(** ** Records that share a name *)

Lemma forOfContacts_last (before after : list Value) (contact : Value)
    (key : string) (d : Dict) :
  accepted contact key ->
  key <> "__proto__" ->
  (forall c, In c after -> ~ accepted c key) ->
  forOfContacts (before ++ contact :: after) [] = Ok d ->
  lookup key d = Some (toPhoneArray (getProp contact "phones")).
Proof.
  intros Hacc Hkey Hafter. rewrite forOfContacts_app.
  destruct (forOfContacts before []) as [d1|e]; simpl; [|discriminate].
  rewrite (addContact_accepted _ _ _ Hacc). simpl. intros Hf.
  rewrite (forOfContacts_keeps key _ _ _ Hafter Hf). unfold set.
  destruct (String.eqb_spec key "__proto__"); [contradiction|].
  apply lookup_update_same.
Qed.

(** C9, as amended: among the records of a bridge result whose names all
    convert to strings, take the last one that the conversion loop accepts
    (its name and its phones are both truthy) under a given name other than
    [__proto__].  However many accepted records share that name, the mapping
    returned by [getAllNumbers] has exactly one entry under it, and the
    entry's phone array is that of this last record.  And every entry of the
    mapping is the name and the phone array of a record that the loop
    accepted: a record whose name or whose phones value is falsy is skipped
    and gives no entry. *)
Theorem getAllNumbers_last_record_wins :
  (forall (bridge : Bridge) (w w' : World) (v result : Value)
          (before after : list Value) (contact : Value) (key : string) (d : Dict),
      bridge (calls w) accessScript = Ok v ->
      bridge (calls (afterCall bridge w accessScript)) enumerateScript = Ok result ->
      Forall keyed (toResultArray result) ->
      toResultArray result = (before ++ contact :: after)%list ->
      accepted contact key ->
      key <> "__proto__" ->
      (forall c, In c after -> ~ accepted c key) ->
      getAllNumbers bridge w = (Ok d, w') ->
      count_occ string_dec (keys d) key = 1
      /\ In (key, toPhoneArray (getProp contact "phones")) (entries d))
  /\ (forall (bridge : Bridge) (w w' : World) (v result : Value) (d : Dict)
             (key : string) (phones : list Value),
        bridge (calls w) accessScript = Ok v ->
        bridge (calls (afterCall bridge w accessScript)) enumerateScript = Ok result ->
        getAllNumbers bridge w = (Ok d, w') ->
        In (key, phones) (entries d) ->
        exists contact,
          In contact (toResultArray result)
          /\ truthy (getProp contact "name") = true
          /\ truthy (getProp contact "phones") = true
          /\ toString (getProp contact "name") = Some key
          /\ phones = toPhoneArray (getProp contact "phones")).
Proof.
  split.
  - intros bridge w w' v result before after contact key d
           Ha He Hkeyed Hsplit Hacc Hkey Hafter Hg.
    pose proof (getAllNumbers_NoDup _ _ _ _ Hg) as Hnd.
    destruct (forOfContacts_keyed _ [] Hkeyed) as [d0 Hf].
    rewrite (getAllNumbers_granted _ _ _ Ha) in Hg. cbv zeta in Hg.
    rewrite He, Hf in Hg. inversion Hg; subst d0. clear Hg.
    rewrite Hsplit in Hf.
    pose proof (forOfContacts_last _ _ _ _ _ Hacc Hkey Hafter Hf) as Hl.
    apply lookup_In in Hl.
    assert (Hin : In (key, toPhoneArray (getProp contact "phones")) (entries d))
      by now apply In_entries.
    split; [|exact Hin].
    apply NoDup_count_occ'; [now apply keys_NoDup|].
    unfold keys. change key with (fst (key, toPhoneArray (getProp contact "phones"))).
    now apply in_map.
  - intros bridge w w' v result d key phones Ha He Hg Hin.
    apply (proj1 (In_entries _ _)) in Hin.
    destruct (getAllNumbers_inv _ _ _ _ Hg) as [->|(v0 & result0 & _ & He0 & Hf)];
      [destruct Hin|].
    rewrite He in He0. inversion He0; subst result0.
    destruct (forOfContacts_In _ _ _ _ _ Hf Hin)
      as [[]|(contact & Hc & (_ & Hn & Hp & Hk) & Hphones)].
    exists contact.
    exact (conj Hc (conj Hn (conj Hp (conj Hk Hphones)))).
Qed.

(** The theorem at the directory of two namesakes: the second of the two
    records named [Ann Lee] gives the entry, and the entry of [Bob Ray] is
    that of a record of the result. *)
Lemma getAllNumbers_last_record_wins_witness :
  exists d w',
    getAllNumbers namesakeDirectory initial = (Ok d, w')
    /\ count_occ string_dec (keys d) "Ann Lee" = 1
    /\ In ("Ann Lee", [Str "555-0002"]) (entries d)
    /\ exists contact,
         In contact [recordOf "Ann Lee" ["555-0001"];
                     recordOf "Bob Ray" ["555-0003"];
                     recordOf "Ann Lee" ["555-0002"]]
         /\ truthy (getProp contact "name") = true
         /\ truthy (getProp contact "phones") = true
         /\ toString (getProp contact "name") = Some "Bob Ray"
         /\ [Str "555-0003"] = toPhoneArray (getProp contact "phones").
Proof.
  exists [("Ann Lee", [Str "555-0002"]); ("Bob Ray", [Str "555-0003"])],
         (snd (getAllNumbers namesakeDirectory initial)).
  split; [vm_compute; reflexivity|].
  assert (Hlast : count_occ string_dec
                    (keys [("Ann Lee", [Str "555-0002"]); ("Bob Ray", [Str "555-0003"])])
                    "Ann Lee" = 1
                  /\ In ("Ann Lee", [Str "555-0002"])
                        (entries [("Ann Lee", [Str "555-0002"]);
                                  ("Bob Ray", [Str "555-0003"])])).
  { refine (proj1 getAllNumbers_last_record_wins namesakeDirectory initial
              (snd (getAllNumbers namesakeDirectory initial))
              (Str "Contacts")
              (Array [recordOf "Ann Lee" ["555-0001"];
                      recordOf "Bob Ray" ["555-0003"];
                      recordOf "Ann Lee" ["555-0002"]])
              [recordOf "Ann Lee" ["555-0001"]; recordOf "Bob Ray" ["555-0003"]]
              []
              (recordOf "Ann Lee" ["555-0002"])
              "Ann Lee"
              [("Ann Lee", [Str "555-0002"]); ("Bob Ray", [Str "555-0003"])]
              _ _ _ _ _ _ _ _).
    - vm_compute; reflexivity.
    - vm_compute; reflexivity.
    - repeat constructor; unfold keyed; cbn; discriminate.
    - vm_compute; reflexivity.
    - repeat split; vm_compute; reflexivity.
    - vm_compute. discriminate.
    - intros c [].
    - vm_compute; reflexivity. }
  destruct Hlast as [H1 H2]. split; [exact H1|]. split; [exact H2|].
  assert (Hin : In ("Bob Ray", [Str "555-0003"])
                   (entries [("Ann Lee", [Str "555-0002"]); ("Bob Ray", [Str "555-0003"])])).
  { apply In_entries. right. left. reflexivity. }
  exact (proj2 getAllNumbers_last_record_wins namesakeDirectory initial
            (snd (getAllNumbers namesakeDirectory initial))
            (Str "Contacts")
            (Array [recordOf "Ann Lee" ["555-0001"];
                    recordOf "Bob Ray" ["555-0003"];
                    recordOf "Ann Lee" ["555-0002"]])
            [("Ann Lee", [Str "555-0002"]); ("Bob Ray", [Str "555-0003"])]
            "Bob Ray" [Str "555-0003"]
            ltac:(vm_compute; reflexivity) ltac:(vm_compute; reflexivity)
            ltac:(vm_compute; reflexivity) Hin).
Defined.

(** C9, as stated, fails.  Two records that share the empty name are both
    skipped by the guard of the loop, and the mapping has no entry under
    their name; two records named [__proto__] set the prototype of the
    mapping twice and create no entry; and two namesakes followed by a
    record whose name has no string conversion leave the empty mapping of
    the handler. *)
Lemma getAllNumbers_skips_nameless_records :
  (getProp (recordOf EmptyString ["555-0001"]) "name" = Str EmptyString
   /\ getProp (recordOf EmptyString ["555-0002"]) "name" = Str EmptyString
   /\ fst (getAllNumbers namelessDirectory initial) = Ok []
   /\ count_occ string_dec (keys []) EmptyString = 0)
  /\ (fst (getAllNumbers protoDirectory initial) = Ok []
      /\ count_occ string_dec (keys []) "__proto__" = 0)
  /\ (getAllNumbers unnameableDirectory initial
      = (Ok [],
         mkWorld
           [ accessGranted;
             (enumerateScript,
              Ok (Array [recordOf "Ann Lee" ["555-0001"];
                         recordOf "Ann Lee" ["555-0002"];
                         Object [("name",
                                  Object [("toString",
                                           Number (mkSafeInteger 1 eq_refl))]);
                                 ("phones", Array [Str "555-0003"])]])) ]
           [ "Error getting all contacts: Cannot convert object to primitive value" ])
      /\ count_occ string_dec (keys []) "Ann Lee" = 0).
Proof. by_computation. Qed.

(* ================================================================== *)
(** * Part III: further properties of the module *)
(* ================================================================== *)

(** ** Normalized phone strings *)

Lemma normalizePhone_chars (s : string) :
  Forall (fun c => digitOrPlus c = true) (list_ascii_of_string (normalizePhone s)).
Proof.
  induction s as [|c s IH]; [constructor|].
  rewrite normalizePhone_step. destruct (digitOrPlus c) eqn:Hc; [|exact IH].
  simpl. now constructor.
Qed.

Lemma normalizePhone_fixed (s : string) :
  Forall (fun c => digitOrPlus c = true) (list_ascii_of_string s) ->
  normalizePhone s = s.
Proof.
  induction s as [|c s IH]; [reflexivity|]. simpl. intros H.
  inversion H as [|? ? Hc Hs]; subst.
  rewrite normalizePhone_step, Hc. now rewrite IH.
Qed.

Lemma normalizePhone_length (s : string) :
  String.length (normalizePhone s) <= String.length s.
Proof.
  induction s as [|c s IH]; [simpl; lia|].
  rewrite normalizePhone_step. destruct (digitOrPlus c); simpl; lia.
Qed.

(** X1: normalizing twice is normalizing once; the normalized string
    holds digits and plus signs only and is never longer than the input;
    and a string of digits and plus signs is left as it is. *)
Theorem normalizePhone_idempotent :
  forall s : string,
    normalizePhone (normalizePhone s) = normalizePhone s
    /\ Forall (fun c => digitOrPlus c = true)
              (list_ascii_of_string (normalizePhone s))
    /\ String.length (normalizePhone s) <= String.length s
    /\ (Forall (fun c => digitOrPlus c = true) (list_ascii_of_string s) ->
        normalizePhone s = s).
Proof.
  intros s. split; [|split; [|split]].
  - apply normalizePhone_fixed, normalizePhone_chars.
  - apply normalizePhone_chars.
  - apply normalizePhone_length.
  - apply normalizePhone_fixed.
Qed.

(** ** Inputs that differ in format only *)

(** X2: [findContactByPhone] reads its input through the normalization
    only.  Two inputs that are not blank and have the same normalized form
    (the same digits and plus signs, whatever the spaces, brackets and
    dashes) give the same run: the same scripts sent, the same lines
    logged, the same answer. *)
Theorem findContactByPhone_format_insensitive :
  forall (bridge : Bridge) (w : World) (phoneNumber other : string),
    isBlank phoneNumber = false ->
    isBlank other = false ->
    normalizePhone phoneNumber = normalizePhone other ->
    findContactByPhone bridge phoneNumber w = findContactByPhone bridge other w.
Proof.
  intros bridge w phoneNumber other Hb Hb' Hn.
  destruct (bridge (calls w) accessScript) as [v|e] eqn:Ha.
  - rewrite (findContactByPhone_granted _ _ _ _ Ha Hb),
            (findContactByPhone_granted _ _ _ _ Ha Hb'). cbv zeta.
    now rewrite Hn.
  - now rewrite (findContactByPhone_rejected _ phoneNumber _ _ Ha),
                (findContactByPhone_rejected _ other _ _ Ha).
Qed.

(** The theorem at two spellings of one number. *)
Lemma findContactByPhone_format_insensitive_witness :
  findContactByPhone janeDirectory "555-1234" initial
  = findContactByPhone janeDirectory "(555) 12 34" initial.
Proof.
  apply (findContactByPhone_format_insensitive janeDirectory initial
           "555-1234" "(555) 12 34"); reflexivity.
Defined.

Lemma lowerChar_whiteSpace (c : ascii) :
  JsStr.isWhiteSpace (JsStr.lowerChar c) = JsStr.isWhiteSpace c.
Proof.
  destruct c as [b0 b1 b2 b3 b4 b5 b6 b7].
  destruct b0, b1, b2, b3, b4, b5, b6, b7; reflexivity.
Qed.

Lemma lowerChar_idempotent (c : ascii) :
  JsStr.lowerChar (JsStr.lowerChar c) = JsStr.lowerChar c.
Proof.
  destruct c as [b0 b1 b2 b3 b4 b5 b6 b7].
  destruct b0, b1, b2, b3, b4, b5, b6, b7; reflexivity.
Qed.

Lemma toLowerCase_idempotent (s : string) :
  JsStr.toLowerCase (JsStr.toLowerCase s) = JsStr.toLowerCase s.
Proof.
  induction s as [|c s IH]; [reflexivity|].
  simpl. now rewrite lowerChar_idempotent, IH.
Qed.

Lemma blank_toLowerCase (s : string) : blank (JsStr.toLowerCase s) <-> blank s.
Proof.
  unfold blank. induction s as [|c s IH]; simpl; [tauto|].
  split; intros H; inversion H as [|? ? Hc Hs]; subst; constructor;
    try (now apply IH); now rewrite lowerChar_whiteSpace in *.
Qed.

Lemma isBlank_toLowerCase (s : string) :
  isBlank (JsStr.toLowerCase s) = isBlank s.
Proof.
  destruct (isBlank s) eqn:Hs.
  - apply (proj2 (isBlank_blank _)), (proj2 (blank_toLowerCase _)),
      (proj1 (isBlank_blank _)). exact Hs.
  - destruct (isBlank (JsStr.toLowerCase s)) eqn:Hl; [|reflexivity].
    apply (proj1 (isBlank_blank _)) in Hl.
    apply (proj1 (blank_toLowerCase _)) in Hl.
    apply (proj2 (isBlank_blank _)) in Hl. congruence.
Qed.

(** X3: [findNumber] does not see the case of its input: a name and its
    lower-cased form give the same run, from the blank test to the script
    sent and to the match of the fallback. *)
Theorem findNumber_case_insensitive :
  forall (bridge : Bridge) (w : World) (name : string),
    findNumber bridge (JsStr.toLowerCase name) w = findNumber bridge name w.
Proof.
  intros bridge w name.
  destruct (bridge (calls w) accessScript) as [v|e] eqn:Ha.
  - pose proof (checkContactsAccess_granted _ _ _ Ha) as Hg.
    destruct (isBlank name) eqn:Hb.
    + rewrite (findNumber_blank _ name _ _ Hg Hb).
      apply findNumber_blank; [exact Hg|]. now rewrite isBlank_toLowerCase.
    + rewrite (findNumber_granted _ name _ _ Ha Hb).
      rewrite (findNumber_granted _ (JsStr.toLowerCase name) _ _ Ha);
        [|now rewrite isBlank_toLowerCase].
      cbv zeta. now rewrite toLowerCase_idempotent.
  - now rewrite (findNumber_rejected _ name _ _ Ha),
                (findNumber_rejected _ (JsStr.toLowerCase name) _ _ Ha).
Qed.

(** ** The direct answers *)

Lemma scriptsSent_app (w w' : World) (new : list Call) :
  calls w' = (calls w ++ new)%list -> scriptsSent w w' = map fst new.
Proof.
  intros H. unfold scriptsSent, newCalls. now rewrite H, skipn_app_exact.
Qed.

(** X4: when the primary query answers with a string that is not blank,
    [findContactByPhone] returns that string as it came, untrimmed, and
    stops there: the probe and the primary query are the only scripts sent,
    [getAllNumbers] is not called. *)
Theorem findContactByPhone_primary_answer :
  forall (bridge : Bridge) (w : World) (phoneNumber : string) (v : Value)
         (found : string),
    let searchNumber := normalizePhone phoneNumber in
    let w1 := afterCall bridge w accessScript in
    let w2 := afterCall bridge w1 (findContactByPhoneScript searchNumber) in
    isBlank phoneNumber = false ->
    bridge (calls w) accessScript = Ok v ->
    bridge (calls w1) (findContactByPhoneScript searchNumber) = Ok (Str found) ->
    isBlank found = false ->
    findContactByPhone bridge phoneNumber w = (Ok (Str found), w2)
    /\ scriptsSent w w2 = [accessScript; findContactByPhoneScript searchNumber]
    /\ console w2 = console w.
Proof.
  intros bridge w phoneNumber v found searchNumber w1 w2 Hb Ha Hq Hf.
  split; [|split; [|reflexivity]].
  - rewrite (findContactByPhone_granted _ _ _ _ Ha Hb). cbv zeta.
    fold searchNumber w1 w2. now rewrite Hq, nonBlank_string, Hf.
  - rewrite (scriptsSent_app w w2
               [(accessScript, bridge (calls w) accessScript);
                (findContactByPhoneScript searchNumber,
                 bridge (calls w1) (findContactByPhoneScript searchNumber))]).
    + reflexivity.
    + subst w2 w1. cbn [afterCall calls]. now rewrite <- app_assoc.
Qed.

(** The theorem at a primary query answered with a padded name. *)
Lemma findContactByPhone_primary_answer_witness :
  let bridge :=
    scripted [accessGranted;
              (findContactByPhoneScript "5551234", Ok (Str " Jane Doe "))] in
  exists w2,
    findContactByPhone bridge "555-1234" initial = (Ok (Str " Jane Doe "), w2)
    /\ scriptsSent initial w2 = [accessScript; findContactByPhoneScript "5551234"]
    /\ console w2 = console initial.
Proof.
  intros bridge.
  exists (afterCall bridge (afterCall bridge initial accessScript)
            (findContactByPhoneScript "5551234")).
  apply (findContactByPhone_primary_answer bridge initial "555-1234"
           (Str "Contacts") " Jane Doe "); vm_compute; reflexivity.
Defined.

Lemma nonBlank_outcomes (phone : Value) :
  (exists keep, nonBlank "phone" phone = Ok keep)
  \/ nonBlank "phone" phone = Throw (TypeError "phone.trim is not a function").
Proof.
  destruct phone as [| |b|n|s|elems|fields]; simpl; eauto.
  - destruct b; eauto.
  - destruct (integer n =? 0)%Z; simpl; eauto.
Qed.

Lemma nonBlank_untestable (phone : Value) :
  truthy phone = true -> ~ isString phone ->
  nonBlank "phone" phone = Throw (TypeError "phone.trim is not a function").
Proof.
  intros Ht Hs. destruct phone as [| |b|n|s|elems|fields]; simpl in *;
    try discriminate; try reflexivity; try now rewrite Ht.
  exfalso. apply Hs. now exists s.
Qed.

Lemma filterNonBlank_untestable (l : list Value) :
  Exists (fun phone => truthy phone = true /\ ~ isString phone) l ->
  filterNonBlank l = Throw (TypeError "phone.trim is not a function").
Proof.
  induction l as [|phone rest IH]; intros H; [inversion H|].
  cbn [filterNonBlank].
  destruct (nonBlank_outcomes phone) as [[keep Hk]|Hk]; rewrite Hk; cbn [bindR];
    [|reflexivity].
  inversion H as [? ? [Ht Hs]|? ? Hrest]; subst.
  - rewrite (nonBlank_untestable _ Ht Hs) in Hk. discriminate.
  - now rewrite (IH Hrest).
Qed.

(** X5: a non-empty answer of the targeted query is [findNumber]'s answer
    after the filter, and the enumeration is not sent.  When every element
    is a string or a falsy value, the result is the sub-list of the strings
    that are not blank, in their order.  When some element is a truthy value
    that is not a string, [trim] throws on it and the result is the empty
    array: the strings of the answer are lost with it. *)
Theorem findNumber_direct_answer :
  forall (bridge : Bridge) (w : World) (name : string) (v result : Value),
    let searchName := JsStr.toLowerCase name in
    let w1 := afterCall bridge w accessScript in
    let w2 := afterCall bridge w1 (findNumberScript searchName) in
    isBlank name = false ->
    bridge (calls w) accessScript = Ok v ->
    bridge (calls w1) (findNumberScript searchName) = Ok result ->
    toResultArray result <> [] ->
    scriptsSent w w2 = [accessScript; findNumberScript searchName]
    /\ (Forall testable (toResultArray result) ->
        findNumber bridge name w
        = (Ok (filter keepsPhone (toResultArray result)), w2))
    /\ (Exists (fun phone => truthy phone = true /\ ~ isString phone)
               (toResultArray result) ->
        findNumber bridge name w
        = (Ok [], logged w2 "Error finding contact: phone.trim is not a function")).
Proof.
  intros bridge w name v result searchName w1 w2 Hb Ha Hq Hr.
  pose proof (findNumber_granted _ _ _ _ Ha Hb) as Hg. cbv zeta in Hg.
  fold searchName w1 w2 in Hg. rewrite Hq in Hg.
  destruct (toResultArray result) as [|phone rest] eqn:Harr; [contradiction|].
  split; [|split].
  - rewrite (scriptsSent_app w w2
               [(accessScript, bridge (calls w) accessScript);
                (findNumberScript searchName,
                 bridge (calls w1) (findNumberScript searchName))]).
    + reflexivity.
    + subst w2 w1. cbn [afterCall calls]. now rewrite <- app_assoc.
  - intros Ht. now rewrite (filterNonBlank_testable _ Ht) in Hg.
  - intros Hu. now rewrite (filterNonBlank_untestable _ Hu) in Hg.
Qed.

(** The theorem at an answer of a blank, a number and an empty string. *)
Lemma findNumber_direct_answer_witness :
  let bridge :=
    scripted [accessGranted;
              (findNumberScript "ann",
               Ok (Array [Str " "; Str "555-0100"; Str EmptyString]))] in
  exists w2,
    scriptsSent initial w2 = [accessScript; findNumberScript "ann"]
    /\ findNumber bridge "Ann" initial = (Ok [Str "555-0100"], w2).
Proof.
  intros bridge.
  exists (afterCall bridge (afterCall bridge initial accessScript)
            (findNumberScript "ann")).
  destruct (findNumber_direct_answer bridge initial "Ann" (Str "Contacts")
              (Array [Str " "; Str "555-0100"; Str EmptyString]))
    as (H1 & H2 & _); try (vm_compute; reflexivity).
  - vm_compute. discriminate.
  - split; [exact H1|]. apply H2.
    repeat (constructor; [right; eexists; reflexivity|]). constructor.
Defined.

(** ** Searches that match everything *)

Lemma includes_empty_sub (s : string) : JsStr.includes s EmptyString = true.
Proof. destruct s; reflexivity. Qed.

Lemma phoneRule_empty_search (num : string) : phoneRule EmptyString num = true.
Proof.
  unfold phoneRule. rewrite includes_empty_sub. now rewrite !orb_true_r.
Qed.

Lemma phoneRule_empty_phone (searchNumber : string) :
  phoneRule searchNumber EmptyString = true.
Proof.
  unfold phoneRule. rewrite includes_empty_sub. now rewrite !orb_true_r.
Qed.

Lemma existsb_always {A : Type} (f : A -> bool) (l : list A) :
  (forall x, f x = true) -> existsb f l = negb (length l =? 0)%nat.
Proof.
  intros H. destruct l as [|x l]; [reflexivity|]. simpl. now rewrite H.
Qed.

Lemma forOfEntries_empty_search (allEntries : list (string * list Value)) :
  Forall (fun e => Forall isString (snd e)) allEntries ->
  forOfEntries EmptyString allEntries
  = Ok (match find (fun e => negb (length (snd e) =? 0)%nat) allEntries with
        | Some e => Str (fst e)
        | None => Null
        end).
Proof.
  induction 1 as [|[contactName numbers] rest Hs _ IH]; [reflexivity|].
  simpl in Hs. destruct (strings_map _ Hs) as [ps ->].
  cbn [forOfEntries find snd fst]. rewrite mapNormalize_strings. cbn [bindR].
  rewrite (existsb_always _ _ phoneRule_empty_search), !length_map.
  destruct (negb (length ps =? 0)%nat); [reflexivity|exact IH].
Qed.

(** X6: an input that is not blank but holds no digit and no plus sign
    (a word, say) normalizes to the empty string, which every string
    contains.  When the primary query finds nothing for it, the fallback
    answers with the name of the first entry of the mapping that has any
    phone at all, and with [null] only if every phone array is empty. *)
Theorem findContactByPhone_without_digits :
  forall (bridge : Bridge) (w : World) (phoneNumber : string) (v result : Value)
         (allContacts : Dict) (w3 : World),
    let w1 := afterCall bridge w accessScript in
    let w2 := afterCall bridge w1 (findContactByPhoneScript EmptyString) in
    isBlank phoneNumber = false ->
    normalizePhone phoneNumber = EmptyString ->
    bridge (calls w) accessScript = Ok v ->
    bridge (calls w1) (findContactByPhoneScript EmptyString) = Ok result ->
    foundNothing result ->
    getAllNumbers bridge w2 = (Ok allContacts, w3) ->
    phoneStrings allContacts ->
    findContactByPhone bridge phoneNumber w
    = (Ok (match find (fun e => negb (length (snd e) =? 0)%nat)
                      (entries allContacts) with
           | Some e => Str (fst e)
           | None => Null
           end), w3).
Proof.
  intros bridge w phoneNumber v result allContacts w3 w1 w2 Hb Hn Ha Hq Hf Hg Hs.
  rewrite (findContactByPhone_granted _ _ _ _ Ha Hb). cbv zeta.
  rewrite Hn. fold w1 w2.
  rewrite Hq, (nonBlank_foundNothing _ _ Hf), Hg, forOfEntries_empty_search;
    [reflexivity|].
  eapply Permutation_Forall; [symmetry; apply entries_perm | exact Hs].
Qed.

(** The theorem at the input [home] over the directory of Ann Lee and Bob
    Ray. *)
Lemma findContactByPhone_without_digits_witness :
  exists w3,
    findContactByPhone
      (scripted [accessGranted;
                 (enumerateScript,
                  Ok (Array [recordOf "Ann Lee" ["555-0001"];
                             recordOf "Bob Ray" ["555-0003"]]))])
      "home" initial
    = (Ok (Str "Ann Lee"), w3).
Proof.
  eexists.
  refine (findContactByPhone_without_digits
            (scripted [accessGranted;
                       (enumerateScript,
                        Ok (Array [recordOf "Ann Lee" ["555-0001"];
                                   recordOf "Bob Ray" ["555-0003"]]))])
            initial "home" (Str "Contacts") Undefined
            [("Ann Lee", [Str "555-0001"]); ("Bob Ray", [Str "555-0003"])]
            _ _ _ _ _ _ _ _); try (vm_compute; reflexivity).
  - left. reflexivity.
  - repeat (constructor;
            [repeat (constructor; [eexists; reflexivity|]); constructor|]).
    constructor.
Defined.

(** X7: a stored phone value without digit or plus sign normalizes to the
    empty string, which every search number contains.  When the primary
    query finds nothing, the fallback answers with the name of the first
    entry of the mapping as soon as that entry has such a phone value,
    whatever number was searched. *)
Theorem findContactByPhone_digitless_phone_matches :
  forall (bridge : Bridge) (w : World) (phoneNumber : string) (v result : Value)
         (allContacts : Dict) (w3 : World)
         (contactName : string) (numbers : list Value)
         (rest : list (string * list Value)) (p : string),
    let searchNumber := normalizePhone phoneNumber in
    let w1 := afterCall bridge w accessScript in
    let w2 := afterCall bridge w1 (findContactByPhoneScript searchNumber) in
    isBlank phoneNumber = false ->
    bridge (calls w) accessScript = Ok v ->
    bridge (calls w1) (findContactByPhoneScript searchNumber) = Ok result ->
    foundNothing result ->
    getAllNumbers bridge w2 = (Ok allContacts, w3) ->
    phoneStrings allContacts ->
    entries allContacts = (contactName, numbers) :: rest ->
    In (Str p) numbers ->
    normalizePhone p = EmptyString ->
    findContactByPhone bridge phoneNumber w = (Ok (Str contactName), w3).
Proof.
  intros bridge w phoneNumber v result allContacts w3 contactName numbers rest p
         searchNumber w1 w2 Hb Ha Hq Hf Hg Hs He Hin Hp.
  rewrite (findContactByPhone_granted _ _ _ _ Ha Hb). cbv zeta.
  fold searchNumber w1 w2.
  rewrite Hq, (nonBlank_foundNothing _ _ Hf), Hg, He.
  assert (Hstr : Forall isString numbers).
  { assert (Hall : Forall (fun e => Forall isString (snd e)) (entries allContacts))
      by (eapply Permutation_Forall; [symmetry; apply entries_perm | exact Hs]).
    rewrite He in Hall. now inversion Hall. }
  destruct (strings_map _ Hstr) as [ps ->].
  cbn [forOfEntries]. rewrite mapNormalize_strings. cbn [bindR].
  replace (existsb (phoneRule searchNumber) (map normalizePhone ps)) with true;
    [reflexivity|].
  symmetry. apply existsb_exists. exists EmptyString. split.
  - rewrite <- Hp. apply in_map. apply in_map_iff in Hin.
    destruct Hin as (q & Hq' & Hin). now inversion Hq'; subst.
  - apply phoneRule_empty_phone.
Qed.

(** The theorem at the search for [555-1234] over a directory whose first
    contact has the phone value [none]. *)
Lemma findContactByPhone_digitless_phone_matches_witness :
  exists w3,
    findContactByPhone
      (scripted [accessGranted;
                 (enumerateScript,
                  Ok (Array [recordOf "Ann Lee" ["none"];
                             recordOf "Bob Ray" ["555-1234"]]))])
      "555-1234" initial
    = (Ok (Str "Ann Lee"), w3).
Proof.
  eexists.
  refine (findContactByPhone_digitless_phone_matches
            (scripted [accessGranted;
                       (enumerateScript,
                        Ok (Array [recordOf "Ann Lee" ["none"];
                                   recordOf "Bob Ray" ["555-1234"]]))])
            initial "555-1234" (Str "Contacts") Undefined
            [("Ann Lee", [Str "none"]); ("Bob Ray", [Str "555-1234"])]
            _ "Ann Lee" [Str "none"] [("Bob Ray", [Str "555-1234"])] "none"
            _ _ _ _ _ _ _ _ _); try (vm_compute; reflexivity).
  - left. reflexivity.
  - repeat (constructor;
            [repeat (constructor; [eexists; reflexivity|]); constructor|]).
    constructor.
  - left. reflexivity.
Defined.

(** ** The scripts, without their loops *)

Lemma repeatPhones_flat_map (phonesList : list AppleScript.Phone)
    (personPhones : list string) :
  AppleScript.repeatPhones phonesList personPhones
  = (personPhones
     ++ flat_map (fun phoneItem =>
                    match AppleScript.value phoneItem with
                    | Some phoneValue =>
                        if phoneValue =? EmptyString then [] else [phoneValue]
                    | None => []
                    end) phonesList)%list.
Proof.
  revert personPhones; induction phonesList as [|phoneItem rest IH];
    intros personPhones; simpl; [now rewrite app_nil_r|].
  destruct (AppleScript.value phoneItem) as [phoneValue|]; [|apply IH].
  destruct (phoneValue =? EmptyString); [apply IH|].
  rewrite IH, <- app_assoc. reflexivity.
Qed.

Lemma phonesOf_readable (p : AppleScript.Person) :
  AppleScript.phonesOf p = readablePhones p.
Proof.
  unfold AppleScript.phonesOf, readablePhones.
  destruct (AppleScript.phones p); [|reflexivity].
  now rewrite repeatPhones_flat_map.
Qed.

Lemma appendPhones_readable (p : AppleScript.Person) (matchedPhones : list string) :
  AppleScript.appendPhones p matchedPhones
  = (matchedPhones ++ readablePhones p)%list.
Proof.
  unfold AppleScript.appendPhones, readablePhones.
  destruct (AppleScript.phones p); [|now rewrite app_nil_r].
  apply repeatPhones_flat_map.
Qed.

Lemma repeatPeople_firstn (maxContacts : N) (allPeople : list AppleScript.Person)
    (contactList : list AppleScript.ContactInfo) (contactCount : N) :
  contactCount = N.of_nat (length contactList) ->
  (contactCount <= maxContacts)%N ->
  AppleScript.repeatPeople maxContacts allPeople contactList contactCount
  = (contactList
     ++ firstn (N.to_nat maxContacts - length contactList)
               (flat_map contactOf allPeople))%list.
Proof.
  revert contactList contactCount;
    induction allPeople as [|currentPerson rest IH];
    intros contactList contactCount Hc Hle; simpl.
  - now rewrite firstn_nil, app_nil_r.
  - destruct (N.leb_spec maxContacts contactCount) as [Hfull|Hroom].
    + replace (N.to_nat maxContacts - length contactList) with 0 by lia.
      now rewrite app_nil_r.
    + unfold contactOf at 1. rewrite phonesOf_readable.
      destruct (AppleScript.name currentPerson) as [personName|];
        [|now apply IH].
      destruct (readablePhones currentPerson) as [|p ps] eqn:Hp;
        [now apply IH|].
      cbn [length Nat.ltb Nat.leb].
      rewrite (IH _ (contactCount + 1)%N);
        [|rewrite length_app; simpl; lia|lia].
      rewrite length_app. cbn [length app].
      replace (N.to_nat maxContacts - length contactList)
        with (S (N.to_nat maxContacts - (length contactList + 1))) by lia.
      cbn [firstn]. now rewrite <- app_assoc.
Qed.

(** X8: the enumeration script of [getAllNumbers] returns the first
    [maxContacts] records of the people who have a readable name and at
    least one readable, non-empty phone value, in the order of the people
    collection.  A person or a phone that cannot be read is passed over
    without stopping the enumeration, and the people without phones do not
    count towards the bound. *)
Theorem enumerate_first_contacts :
  forall (maxContacts : N) (allPeople : list AppleScript.Person),
    AppleScript.enumerate maxContacts allPeople
    = firstn (N.to_nat maxContacts) (flat_map contactOf allPeople).
Proof.
  intros maxContacts allPeople. unfold AppleScript.enumerate.
  rewrite repeatPeople_firstn; [|reflexivity|lia].
  simpl. now rewrite Nat.sub_0_r.
Qed.

Section SearchScripts.

Variable contains : string -> string -> bool.

Lemma repeatNameSearch_flat_map (maxContacts : N) (searchText : string)
    (allPeople : list AppleScript.Person) (i : N) (matchedPhones : list string) :
  AppleScript.repeatNameSearch contains maxContacts searchText allPeople i
                               matchedPhones
  = (matchedPhones
     ++ flat_map (phonesIfNamed contains searchText)
                 (firstn (N.to_nat (maxContacts + 1 - i)) allPeople))%list.
Proof.
  revert i matchedPhones; induction allPeople as [|currentPerson rest IH];
    intros i matchedPhones; simpl.
  - now rewrite firstn_nil, app_nil_r.
  - destruct (N.ltb_spec maxContacts i) as [Hpast|Hin].
    + replace (N.to_nat (maxContacts + 1 - i)) with 0 by lia.
      now rewrite app_nil_r.
    + replace (N.to_nat (maxContacts + 1 - i))
        with (S (N.to_nat (maxContacts + 1 - (i + 1)))) by lia.
      cbn [firstn flat_map]. unfold phonesIfNamed at 1.
      destruct (AppleScript.name currentPerson) as [personName|]; [|apply IH].
      destruct (contains personName searchText); [|apply IH].
      now rewrite IH, appendPhones_readable, <- app_assoc.
Qed.

Lemma readablePhones_nonempty (p : AppleScript.Person) :
  Forall (fun phoneValue => phoneValue <> EmptyString) (readablePhones p).
Proof.
  rewrite <- phonesOf_readable. apply phonesOf_nonempty.
Qed.

(** X9: the name script of [findNumber] looks at the first [maxContacts]
    people of the collection, whether they have phones or not, and returns
    the readable, non-empty phone values of those of them whose name
    contains the searched text, person after person; people past that
    position are never examined, and no returned value is the empty
    text. *)
Theorem nameSearch_first_people :
  forall (maxContacts : N) (searchText : string)
         (allPeople : list AppleScript.Person),
    AppleScript.nameSearch contains maxContacts searchText allPeople
    = flat_map (phonesIfNamed contains searchText)
               (firstn (N.to_nat maxContacts) allPeople)
    /\ Forall (fun phoneValue => phoneValue <> EmptyString)
              (AppleScript.nameSearch contains maxContacts searchText allPeople).
Proof.
  intros maxContacts searchText allPeople.
  assert (H : AppleScript.nameSearch contains maxContacts searchText allPeople
              = flat_map (phonesIfNamed contains searchText)
                         (firstn (N.to_nat maxContacts) allPeople)).
  { unfold AppleScript.nameSearch. rewrite repeatNameSearch_flat_map.
    replace (maxContacts + 1 - 1)%N with maxContacts by lia. reflexivity. }
  split; [exact H|]. rewrite H. clear H.
  induction (firstn (N.to_nat maxContacts) allPeople) as [|p l IH];
    [constructor|].
  cbn [flat_map]. apply Forall_app. split; [|exact IH].
  unfold phonesIfNamed. destruct (AppleScript.name p); [|constructor].
  destruct (contains s searchText); [apply readablePhones_nonempty|constructor].
Qed.

Lemma repeatPhoneItems_found (searchPhone : string) (p : AppleScript.Person)
    (phonesList : list AppleScript.Phone) (foundName : string) :
  AppleScript.repeatPhoneItems contains searchPhone p phonesList foundName
  = if existsb (fun phoneItem =>
                  match AppleScript.value phoneItem with
                  | Some phoneValue =>
                      contains phoneValue searchPhone
                      || contains searchPhone phoneValue
                  | None => false
                  end) phonesList
    then match AppleScript.name p with
         | Some personName => personName
         | None => foundName
         end
    else foundName.
Proof.
  induction phonesList as [|phoneItem rest IH]; simpl; [reflexivity|].
  destruct (AppleScript.value phoneItem) as [phoneValue|]; [|exact IH].
  destruct (contains phoneValue searchPhone || contains searchPhone phoneValue);
    simpl; [|exact IH].
  destruct (AppleScript.name p); [reflexivity|].
  rewrite IH. now destruct (existsb _ rest).
Qed.

Lemma repeatPhoneSearch_found (maxContacts : N) (searchPhone : string)
    (allPeople : list AppleScript.Person) (i : N) (foundName : string) :
  foundName <> EmptyString ->
  AppleScript.repeatPhoneSearch contains maxContacts searchPhone allPeople i
                                foundName
  = foundName.
Proof.
  intros Hf. destruct allPeople as [|p rest]; simpl; [reflexivity|].
  destruct (maxContacts <? i)%N; [reflexivity|].
  destruct (String.eqb_spec foundName EmptyString); [contradiction|reflexivity].
Qed.

Lemma repeatPhoneSearch_first (maxContacts : N) (searchPhone : string)
    (allPeople : list AppleScript.Person) (i : N) :
  AppleScript.repeatPhoneSearch contains maxContacts searchPhone allPeople i
                                EmptyString
  = firstNonEmpty (map (nameIfMatching contains searchPhone)
                       (firstn (N.to_nat (maxContacts + 1 - i)) allPeople)).
Proof.
  revert i; induction allPeople as [|p rest IH]; intros i; simpl.
  - now rewrite firstn_nil.
  - destruct (N.ltb_spec maxContacts i) as [Hpast|Hin].
    + now replace (N.to_nat (maxContacts + 1 - i)) with 0 by lia.
    + replace (N.to_nat (maxContacts + 1 - i))
        with (S (N.to_nat (maxContacts + 1 - (i + 1)))) by lia.
      cbn [firstn map firstNonEmpty negb].
      assert (Hstep :
        match AppleScript.phones p with
        | Some phonesList =>
            AppleScript.repeatPhoneItems contains searchPhone p phonesList
                                         EmptyString
        | None => EmptyString
        end = nameIfMatching contains searchPhone p).
      { unfold nameIfMatching, hasMatchingPhone.
        destruct (AppleScript.phones p) as [phonesList|]; [|reflexivity].
        apply repeatPhoneItems_found. }
      destruct (AppleScript.phones p) as [phonesList|].
      * rewrite Hstep.
        destruct (String.eqb_spec (nameIfMatching contains searchPhone p)
                                  EmptyString) as [He|Hne].
        -- rewrite He. apply IH.
        -- now apply repeatPhoneSearch_found.
      * rewrite <- Hstep. cbn [String.eqb]. apply IH.
Qed.

(** X10: the phone script of [findContactByPhone] looks at the first
    [maxContacts] people and returns the name of the first of them who has
    a readable phone value that contains the searched text or is contained
    in it, and whose name can be read and is not empty; it returns the empty
    text when there is none.  A matching person without a readable name, or
    with an empty one, does not end the search. *)
Theorem phoneSearch_first_match :
  forall (maxContacts : N) (searchPhone : string)
         (allPeople : list AppleScript.Person),
    AppleScript.phoneSearch contains maxContacts searchPhone allPeople
    = firstNonEmpty (map (nameIfMatching contains searchPhone)
                         (firstn (N.to_nat maxContacts) allPeople)).
Proof.
  intros maxContacts searchPhone allPeople. unfold AppleScript.phoneSearch.
  rewrite repeatPhoneSearch_first.
  now replace (maxContacts + 1 - 1)%N with maxContacts by lia.
Qed.

End SearchScripts.

(** ** The order of the mapping *)

Lemma forOfContacts_keys (l : list Value) (acc d : Dict) :
  Forall ordinaryName (flat_map acceptedKey l) ->
  forOfContacts l acc = Ok d ->
  map fst d = firstAppearances (map fst acc) (flat_map acceptedKey l).
Proof.
  revert acc; induction l as [|c l IH]; intros acc Hord; cbn [forOfContacts flat_map].
  - intros H; now inversion H.
  - cbn [flat_map] in Hord. apply Forall_app in Hord. destruct Hord as [Hc Hl].
    unfold addContact, acceptedKey, toPropertyKey in *.
    destruct (truthy c && truthy (getProp c "name") && truthy (getProp c "phones")).
    + destruct (toString (getProp c "name")) as [key|]; cbn [bindR];
        [|discriminate].
      inversion Hc as [|? ? [_ Hproto] _]; subst.
      intros H. rewrite (IH _ Hl H). cbn [app firstAppearances].
      unfold set. destruct (String.eqb_spec key "__proto__"); [contradiction|].
      now rewrite update_keys_first.
    + cbn [bindR app]. now apply IH.
Qed.

(** X11: when the names under which the records of the bridge result are
    stored are ordinary (none is an array index such as [911], none is
    [__proto__]), [Object.keys] of the mapping returned by [getAllNumbers]
    lists them in the order of their first appearance in the result, each
    once; it is the order in which the fallbacks of the two searches look
    for their first match. *)
Theorem getAllNumbers_keys_by_first_appearance :
  forall (bridge : Bridge) (w w' : World) (v result : Value) (d : Dict),
    bridge (calls w) accessScript = Ok v ->
    bridge (calls (afterCall bridge w accessScript)) enumerateScript = Ok result ->
    Forall keyed (toResultArray result) ->
    Forall ordinaryName (flat_map acceptedKey (toResultArray result)) ->
    getAllNumbers bridge w = (Ok d, w') ->
    keys d = firstAppearances [] (flat_map acceptedKey (toResultArray result))
    /\ entries d = d.
Proof.
  intros bridge w w' v result d Ha He Hkeyed Hord Hg.
  destruct (forOfContacts_keyed _ [] Hkeyed) as [d0 Hf].
  rewrite (getAllNumbers_granted _ _ _ Ha) in Hg. cbv zeta in Hg.
  rewrite He, Hf in Hg. inversion Hg; subst d0. clear Hg.
  pose proof (forOfContacts_keys _ _ _ Hord Hf) as Hk. cbn [map] in Hk.
  assert (Hd : entries d = d).
  { apply ownPropertyOrder_named. rewrite Hk. apply Forall_forall. intros k Hin.
    apply firstAppearances_In in Hin. destruct Hin as [[]|Hin].
    rewrite Forall_forall in Hord. now destruct (Hord k Hin). }
  split; [|exact Hd]. unfold keys. now rewrite Hd.
Qed.

(** The theorem at the directory of two namesakes around a third contact. *)
Lemma getAllNumbers_keys_by_first_appearance_witness :
  exists d w',
    getAllNumbers namesakeDirectory initial = (Ok d, w')
    /\ keys d = ["Ann Lee"; "Bob Ray"]
    /\ entries d = d.
Proof.
  exists [("Ann Lee", [Str "555-0002"]); ("Bob Ray", [Str "555-0003"])],
         (snd (getAllNumbers namesakeDirectory initial)).
  split; [vm_compute; reflexivity|].
  refine (getAllNumbers_keys_by_first_appearance namesakeDirectory initial
            (snd (getAllNumbers namesakeDirectory initial))
            (Str "Contacts")
            (Array [recordOf "Ann Lee" ["555-0001"];
                    recordOf "Bob Ray" ["555-0003"];
                    recordOf "Ann Lee" ["555-0002"]])
            [("Ann Lee", [Str "555-0002"]); ("Bob Ray", [Str "555-0003"])]
            _ _ _ _ _).
  - vm_compute. reflexivity.
  - vm_compute. reflexivity.
  - repeat (constructor; [unfold keyed; cbn; discriminate|]). constructor.
  - cbn [toResultArray flat_map app]. unfold acceptedKey. cbn.
    repeat (constructor; [split; [vm_compute; reflexivity|discriminate]|]).
    constructor.
  - vm_compute. reflexivity.
Defined.

(** A name that is an array index is listed before the ordinary names,
    wherever its record stands in the result. *)
Example getAllNumbers_index_name_first :
  fst (getAllNumbers
         (scripted [accessGranted;
                    (enumerateScript,
                     Ok (Array [recordOf "Ann Lee" ["555-0001"];
                                recordOf "911" ["911"]]))])
         initial)
  = Ok [("Ann Lee", [Str "555-0001"]); ("911", [Str "911"])]
  /\ keys [("Ann Lee", [Str "555-0001"]); ("911", [Str "911"])]
     = ["911"; "Ann Lee"].
Proof. by_computation. Qed.

(** ** The scripts an operation sends *)

Lemma initialSegment_intro (l rest : list string) :
  initialSegment l (l ++ rest).
Proof. now exists rest. Qed.

Lemma getAllNumbers_sent (bridge : Bridge) (w : World) :
  exists new,
    calls (snd (getAllNumbers bridge w)) = (calls w ++ new)%list
    /\ (map fst new = [accessScript]
        \/ map fst new = [accessScript; enumerateScript]).
Proof.
  destruct (bridge (calls w) accessScript) as [v|e] eqn:Ha.
  - rewrite (getAllNumbers_granted _ _ _ Ha). cbv zeta.
    destruct (bridge (calls (afterCall bridge w accessScript)) enumerateScript)
      as [result|e];
      [destruct (forOfContacts (toResultArray result) [])|];
      (eexists; split;
       [rewrite ?caught_calls; cbn [snd afterCall calls];
        rewrite <- app_assoc; reflexivity
       |right; reflexivity]).
  - rewrite (getAllNumbers_rejected bridge w e Ha).
    eexists; split; [cbn [snd logged afterCall calls]; reflexivity|].
    left; reflexivity.
Qed.


Lemma sent_one (bridge : Bridge) (w w' : World) (full : list string) :
  calls w' = (calls w ++ [(accessScript, bridge (calls w) accessScript)])%list ->
  scriptsSent w w' = [accessScript]
  /\ initialSegment (scriptsSent w w') (accessScript :: full).
Proof.
  intros H. rewrite (scriptsSent_app _ _ _ H). split; [reflexivity|].
  now exists full.
Qed.

Lemma sent_two (bridge : Bridge) (w w' : World) (query : string)
    (full : list string) :
  calls w' = (calls (afterCall bridge (afterCall bridge w accessScript) query)) ->
  scriptsSent w w' = [accessScript; query]
  /\ initialSegment (scriptsSent w w') (accessScript :: query :: full).
Proof.
  intros H.
  rewrite (scriptsSent_app w w'
             [(accessScript, bridge (calls w) accessScript);
              (query, bridge (calls (afterCall bridge w accessScript)) query)]).
  - split; [reflexivity | now exists full].
  - rewrite H. cbn [afterCall calls]. now rewrite <- app_assoc.
Qed.

Lemma sent_fallback (bridge : Bridge) (w w' : World) (query : string) :
  calls w'
  = calls (snd (getAllNumbers bridge
                  (afterCall bridge (afterCall bridge w accessScript) query))) ->
  scriptsSent w w' <> []
  /\ initialSegment (scriptsSent w w')
                    [accessScript; query; accessScript; enumerateScript].
Proof.
  intros H.
  destruct (getAllNumbers_sent bridge
              (afterCall bridge (afterCall bridge w accessScript) query))
    as (new & Hc & Hnew).
  rewrite Hc in H.
  assert (Hs : scriptsSent w w' = (accessScript :: query :: map fst new)%list).
  { rewrite (scriptsSent_app w w'
               ([(accessScript, bridge (calls w) accessScript);
                 (query, bridge (calls (afterCall bridge w accessScript)) query)]
                ++ new)%list).
    - now rewrite map_app.
    - rewrite H. cbn [afterCall calls]. now rewrite <- !app_assoc. }
  rewrite Hs. split; [discriminate|].
  destruct Hnew as [-> | ->]; [now exists [enumerateScript] | now exists []].
Qed.

Lemma getAllNumbers_scripts (bridge : Bridge) (w : World) :
  scriptsSent w (snd (getAllNumbers bridge w)) <> []
  /\ initialSegment (scriptsSent w (snd (getAllNumbers bridge w)))
                    [accessScript; enumerateScript].
Proof.
  destruct (getAllNumbers_sent bridge w) as (new & Hc & Hnew).
  rewrite (scriptsSent_app _ _ _ Hc).
  destruct Hnew as [-> | ->]; (split; [discriminate|]);
    [now exists [enumerateScript] | now exists []].
Qed.

Lemma findNumber_scripts (bridge : Bridge) (w : World) (name : string) :
  scriptsSent w (snd (findNumber bridge name w)) <> []
  /\ initialSegment (scriptsSent w (snd (findNumber bridge name w)))
       [accessScript; findNumberScript (JsStr.toLowerCase name);
        accessScript; enumerateScript].
Proof.
  assert (One : forall w',
             calls w' = (calls w ++ [(accessScript, bridge (calls w) accessScript)])%list ->
             scriptsSent w w' <> []
             /\ initialSegment (scriptsSent w w')
                  [accessScript; findNumberScript (JsStr.toLowerCase name);
                   accessScript; enumerateScript]).
  { intros w' H. destruct (sent_one bridge w w'
                  [findNumberScript (JsStr.toLowerCase name); accessScript;
                   enumerateScript] H) as [Hs Hi].
    split; [rewrite Hs; discriminate | exact Hi]. }
  assert (Two : forall w',
             calls w' = calls (afterCall bridge (afterCall bridge w accessScript)
                                 (findNumberScript (JsStr.toLowerCase name))) ->
             scriptsSent w w' <> []
             /\ initialSegment (scriptsSent w w')
                  [accessScript; findNumberScript (JsStr.toLowerCase name);
                   accessScript; enumerateScript]).
  { intros w' H. destruct (sent_two bridge w w' _ [accessScript; enumerateScript] H) as [Hs Hi].
    split; [rewrite Hs; discriminate | exact Hi]. }
  destruct (bridge (calls w) accessScript) as [v|e] eqn:Ha.
  2:{ rewrite (findNumber_rejected bridge name w e Ha).
      apply One. cbn [snd logged afterCall calls]. now rewrite Ha. }
  destruct (isBlank name) eqn:Hb.
  { rewrite (findNumber_blank bridge name w _ (checkContactsAccess_granted _ _ _ Ha) Hb).
    apply One. cbn [snd afterCall calls]. now rewrite Ha. }
  rewrite (findNumber_granted _ _ _ _ Ha Hb). cbv zeta.
  destruct (bridge (calls (afterCall bridge w accessScript))
              (findNumberScript (JsStr.toLowerCase name))) as [result|e];
    [|apply Two; apply caught_calls].
  destruct (toResultArray result) as [|phone rest].
  - destruct (getAllNumbers bridge _) as [[allNumbers|e] w3] eqn:Hg;
      apply (sent_fallback bridge); rewrite ?caught_calls, Hg; reflexivity.
  - destruct (filterNonBlank (phone :: rest));
      apply Two; rewrite ?caught_calls; reflexivity.
Qed.

Lemma findContactByPhone_scripts (bridge : Bridge) (w : World)
    (phoneNumber : string) :
  scriptsSent w (snd (findContactByPhone bridge phoneNumber w)) <> []
  /\ initialSegment (scriptsSent w (snd (findContactByPhone bridge phoneNumber w)))
       [accessScript; findContactByPhoneScript (normalizePhone phoneNumber);
        accessScript; enumerateScript].
Proof.
  assert (One : forall w',
             calls w' = (calls w ++ [(accessScript, bridge (calls w) accessScript)])%list ->
             scriptsSent w w' <> []
             /\ initialSegment (scriptsSent w w')
                  [accessScript;
                   findContactByPhoneScript (normalizePhone phoneNumber);
                   accessScript; enumerateScript]).
  { intros w' H. destruct (sent_one bridge w w'
                  [findContactByPhoneScript (normalizePhone phoneNumber);
                   accessScript; enumerateScript] H) as [Hs Hi].
    split; [rewrite Hs; discriminate | exact Hi]. }
  assert (Two : forall w',
             calls w' = calls (afterCall bridge (afterCall bridge w accessScript)
                                 (findContactByPhoneScript
                                    (normalizePhone phoneNumber))) ->
             scriptsSent w w' <> []
             /\ initialSegment (scriptsSent w w')
                  [accessScript;
                   findContactByPhoneScript (normalizePhone phoneNumber);
                   accessScript; enumerateScript]).
  { intros w' H. destruct (sent_two bridge w w' _ [accessScript; enumerateScript] H) as [Hs Hi].
    split; [rewrite Hs; discriminate | exact Hi]. }
  destruct (bridge (calls w) accessScript) as [v|e] eqn:Ha.
  2:{ rewrite (findContactByPhone_rejected bridge phoneNumber w e Ha).
      apply One. cbn [snd logged afterCall calls]. now rewrite Ha. }
  destruct (isBlank phoneNumber) eqn:Hb.
  { rewrite (findContactByPhone_blank bridge phoneNumber w _
               (checkContactsAccess_granted _ _ _ Ha) Hb).
    apply One. cbn [snd afterCall calls]. now rewrite Ha. }
  rewrite (findContactByPhone_granted _ _ _ _ Ha Hb). cbv zeta.
  destruct (bridge (calls (afterCall bridge w accessScript))
              (findContactByPhoneScript (normalizePhone phoneNumber)))
    as [result|e]; [|apply Two; apply caught_calls].
  destruct (nonBlank "result" result) as [[|]|e];
    try (apply Two; rewrite ?caught_calls; reflexivity).
  destruct (getAllNumbers bridge _) as [[allContacts|e] w3] eqn:Hg.
  - destruct (forOfEntries _ _); apply (sent_fallback bridge);
      rewrite ?caught_calls, Hg; reflexivity.
  - apply (sent_fallback bridge). rewrite ?caught_calls, Hg. reflexivity.
Qed.

(** X12: an operation sends at least one and at most four scripts, in a
    fixed order: [getAllNumbers] the probe, then the enumeration; each search
    the probe, its own query, and, when it falls back, the probe again and
    the enumeration.  Whatever the bridge answers, nothing is sent again
    after a failure and no other script is ever sent. *)
Theorem operations_send_their_scripts_once :
  forall (bridge : Bridge) (w : World) (name phoneNumber : string),
    (scriptsSent w (snd (getAllNumbers bridge w)) <> []
     /\ initialSegment (scriptsSent w (snd (getAllNumbers bridge w)))
                       [accessScript; enumerateScript])
    /\ (scriptsSent w (snd (findNumber bridge name w)) <> []
        /\ initialSegment (scriptsSent w (snd (findNumber bridge name w)))
             [accessScript; findNumberScript (JsStr.toLowerCase name);
              accessScript; enumerateScript])
    /\ (scriptsSent w (snd (findContactByPhone bridge phoneNumber w)) <> []
        /\ initialSegment
             (scriptsSent w (snd (findContactByPhone bridge phoneNumber w)))
             [accessScript; findContactByPhoneScript (normalizePhone phoneNumber);
              accessScript; enumerateScript]).
Proof.
  intros bridge w name phoneNumber. split; [|split].
  - apply getAllNumbers_scripts.
  - apply findNumber_scripts.
  - apply findContactByPhone_scripts.
Qed.

(** ** The mapping and the people *)

Lemma In_firstn {A : Type} (n : nat) (l : list A) (x : A) :
  In x (firstn n l) -> In x l.
Proof.
  intros H. rewrite <- (firstn_skipn n l). apply in_or_app. now left.
Qed.

Lemma In_contactOf (allPeople : list AppleScript.Person)
    (c : AppleScript.ContactInfo) :
  In c (flat_map contactOf allPeople) ->
  exists p,
    In p allPeople
    /\ AppleScript.name p = Some (AppleScript.infoName c)
    /\ readablePhones p = AppleScript.infoPhones c.
Proof.
  intros H. apply in_flat_map in H. destruct H as (p & Hp & Hc).
  exists p. split; [exact Hp|]. unfold contactOf in Hc.
  destruct (AppleScript.name p) as [personName|]; [|contradiction].
  destruct (readablePhones p) as [|x xs]; [contradiction|].
  destruct Hc as [<-|[]]. auto.
Qed.

Lemma accepted_rendered (c : AppleScript.ContactInfo) (v : Value) (key : string) :
  rendersRecord c v ->
  accepted v key ->
  key = AppleScript.infoName c
  /\ key <> EmptyString
  /\ toPhoneArray (getProp v "phones") = map Str (AppleScript.infoPhones c).
Proof.
  intros [c' ps Hps] (_ & Hname & _ & Hkey).
  cbn [getProp lookup String.eqb Ascii.eqb Bool.eqb] in *.
  cbn [toString] in Hkey. inversion Hkey; subst key.
  split; [reflexivity|]. split.
  - intros He. rewrite He in Hname. discriminate.
  - apply rendersPhones_array, Hps.
Qed.

(** X13: the mapping of [getAllNumbers] invents nothing.  When the bridge
    answers the enumeration with the record list that the script builds from
    a people collection, every entry of the mapping is one person of the
    collection: the key is that person's name, which is not empty, and the
    phone array is that person's readable, non-empty phone values, in their
    order, not merged with the values of a namesake. *)
Theorem getAllNumbers_entries_are_people :
  forall (bridge : Bridge) (w w' : World) (d : Dict)
         (allPeople : list AppleScript.Person),
    (forall result,
        bridge (calls (afterCall bridge w accessScript)) enumerateScript
        = Ok result ->
        rendersContacts (AppleScript.enumerate (MAX_CONTACTS CONFIG) allPeople)
                        result) ->
    getAllNumbers bridge w = (Ok d, w') ->
    forall (personName : string) (phones : list Value),
      In (personName, phones) (entries d) ->
      personName <> EmptyString
      /\ exists p,
           In p allPeople
           /\ AppleScript.name p = Some personName
           /\ phones = map Str (readablePhones p).
Proof.
  intros bridge w w' d allPeople Hrun Hg personName phones Hin.
  apply (proj1 (In_entries _ _)) in Hin.
  destruct (getAllNumbers_inv _ _ _ _ Hg) as [->|(v & result & Ha & He & Hf)];
    [contradiction|].
  pose proof (rendersContacts_records _ _ (Hrun result He)) as Hr.
  destruct (forOfContacts_In _ _ _ _ _ Hf Hin) as [[]|(contact & Hc & Hacc & ->)].
  destruct (Forall2_In_r _ _ _ _ Hr Hc) as (c & Hcs & Hrec).
  destruct (accepted_rendered _ _ _ Hrec Hacc) as (-> & Hne & Hphones).
  split; [exact Hne|].
  unfold AppleScript.enumerate in Hcs; rewrite repeatPeople_firstn in Hcs by (try reflexivity; lia); cbn [app] in Hcs. apply In_firstn in Hcs.
  destruct (In_contactOf _ _ Hcs) as (p & Hp & Hn & Hps).
  exists p. split; [exact Hp|]. split; [exact Hn|]. now rewrite Hphones, Hps.
Qed.

(** The theorem over two people, one of whom has no readable phone. *)
Lemma getAllNumbers_entries_are_people_witness :
  let allPeople :=
    [ AppleScript.mkPerson (Some "Bob Ray") None;
      AppleScript.mkPerson (Some "Ann Lee")
        (Some [AppleScript.mkPhone None; AppleScript.mkPhone (Some "555-0100")]) ] in
  let bridge :=
    scripted [accessGranted;
              (enumerateScript, Ok (Array [recordOf "Ann Lee" ["555-0100"]]))] in
  "Ann Lee" <> EmptyString
  /\ exists p,
       In p allPeople
       /\ AppleScript.name p = Some "Ann Lee"
       /\ [Str "555-0100"] = map Str (readablePhones p).
Proof.
  intros allPeople bridge.
  refine (getAllNumbers_entries_are_people bridge initial
            (snd (getAllNumbers bridge initial)) [("Ann Lee", [Str "555-0100"])]
            allPeople _ _ "Ann Lee" [Str "555-0100"] _).
  - intros result H. vm_compute in H. inversion H; subst.
    apply renders_list. constructor; [|constructor].
    exact (renders_record (AppleScript.mkContactInfo "Ann Lee" ["555-0100"]) _
             (renders_phone_list ["555-0100"])).
  - vm_compute. reflexivity.
  - vm_compute. left. reflexivity.
Defined.

Lemma set_keeps_keys (obj : Dict) (key k : string) (a : list Value) :
  In k (map fst obj) -> In k (map fst (set obj key a)).
Proof.
  intros H. unfold set. destruct (key =? "__proto__"); [exact H|].
  rewrite update_keys_first. destruct (existsb _ _); [exact H|].
  apply in_or_app. now left.
Qed.

Lemma set_adds_key (obj : Dict) (key : string) (a : list Value) :
  key <> "__proto__" -> In key (map fst (set obj key a)).
Proof.
  intros Hk. unfold set. destruct (String.eqb_spec key "__proto__"); [contradiction|].
  rewrite update_keys_first. destruct (existsb _ _) eqn:He.
  - now apply existsb_eqb_In.
  - apply in_or_app. right. now left.
Qed.

Lemma forOfContacts_keeps_keys (l : list Value) (acc d : Dict) (k : string) :
  forOfContacts l acc = Ok d -> In k (map fst acc) -> In k (map fst d).
Proof.
  revert acc; induction l as [|c l IH]; intros acc; simpl.
  - intros H; now inversion H.
  - destruct (addContact acc c) as [d1|e] eqn:Hc; simpl; [|discriminate].
    intros H Hin. apply (IH _ H).
    destruct (addContact_cases _ _ _ Hc) as [->|[key [_ ->]]];
      [exact Hin | now apply set_keeps_keys].
Qed.

Lemma forOfContacts_key_present (l : list Value) (acc d : Dict)
    (contact : Value) (key : string) :
  forOfContacts l acc = Ok d ->
  In contact l -> accepted contact key -> key <> "__proto__" ->
  In key (map fst d).
Proof.
  revert acc; induction l as [|c l IH]; intros acc; simpl; [contradiction|].
  destruct (addContact acc c) as [d1|e] eqn:Hc; simpl; [|discriminate].
  intros H [<-|Hin] Hacc Hk.
  - rewrite (addContact_accepted _ _ _ Hacc) in Hc. inversion Hc; subst d1.
    apply (forOfContacts_keeps_keys _ _ _ _ H). now apply set_adds_key.
  - now apply (IH _ H Hin).
Qed.

Lemma Forall2_In_l {A B : Type} (R : A -> B -> Prop) (l : list A) (l' : list B)
    (a : A) :
  Forall2 R l l' -> In a l -> exists b, In b l' /\ R a b.
Proof.
  induction 1 as [|x y l l' Hxy _ IH]; simpl; [contradiction|].
  intros [<-|Hin]; [exists y; auto|].
  destruct (IH Hin) as (b & Hb & HR). exists b. auto.
Qed.

Lemma rendered_accepted (c : AppleScript.ContactInfo) (v : Value) :
  rendersRecord c v ->
  hasPhones c ->
  AppleScript.infoName c <> EmptyString ->
  accepted v (AppleScript.infoName c).
Proof.
  intros [c' ps Hps] [Hne Hall] Hname. unfold accepted.
  cbn [getProp lookup String.eqb Ascii.eqb Bool.eqb truthy toString].
  repeat split.
  - destruct (String.eqb_spec (AppleScript.infoName c') EmptyString);
      [contradiction|reflexivity].
  - destruct Hps as [ps'|p]; [reflexivity|].
    inversion Hall as [|? ? Hp _]; subst. cbn [truthy].
    destruct (String.eqb_spec p EmptyString); [contradiction|reflexivity].
Qed.

(** X14: the mapping of [getAllNumbers] loses no name.  When access is
    granted and the bridge answers the enumeration with the record list
    that the script builds from a people collection, in any of the shapes
    the bridge may give it, every record of the script whose name is not
    empty and is not [__proto__] has its name among the keys of the
    mapping. *)
Theorem getAllNumbers_keeps_every_name :
  forall (bridge : Bridge) (w w' : World) (v result : Value) (d : Dict)
         (allPeople : list AppleScript.Person) (c : AppleScript.ContactInfo),
    bridge (calls w) accessScript = Ok v ->
    bridge (calls (afterCall bridge w accessScript)) enumerateScript = Ok result ->
    rendersContacts (AppleScript.enumerate (MAX_CONTACTS CONFIG) allPeople) result ->
    getAllNumbers bridge w = (Ok d, w') ->
    In c (AppleScript.enumerate (MAX_CONTACTS CONFIG) allPeople) ->
    AppleScript.infoName c <> EmptyString ->
    AppleScript.infoName c <> "__proto__" ->
    In (AppleScript.infoName c) (keys d).
Proof.
  intros bridge w w' v result d allPeople c Ha He Hr Hg Hc Hname Hproto.
  apply rendersContacts_records in Hr.
  destruct (forOfContacts_keyed _ [] (rendersRecord_keyed _ _ Hr)) as [d0 Hf].
  rewrite (getAllNumbers_granted _ _ _ Ha) in Hg. cbv zeta in Hg.
  rewrite He, Hf in Hg. inversion Hg; subst d0. clear Hg.
  destruct (Forall2_In_l _ _ _ _ Hr Hc) as (contact & Hin & Hrec).
  pose proof (enumerate_hasPhones (MAX_CONTACTS CONFIG) allPeople) as Hall.
  rewrite Forall_forall in Hall.
  pose proof (rendered_accepted _ _ Hrec (Hall c Hc) Hname) as Hacc.
  eapply Permutation_in; [symmetry; apply keys_perm|].
  exact (forOfContacts_key_present _ _ _ _ _ Hf Hin Hacc Hproto).
Qed.

(** The theorem over one person, the record coming back as a single record
    with a single phone string. *)
Lemma getAllNumbers_keeps_every_name_witness :
  let allPeople :=
    [AppleScript.mkPerson (Some "Ann Lee")
       (Some [AppleScript.mkPhone (Some "555-0100")])] in
  let single := Object [("name", Str "Ann Lee"); ("phones", Str "555-0100")] in
  let bridge := scripted [accessGranted; (enumerateScript, Ok single)] in
  exists d w',
    getAllNumbers bridge initial = (Ok d, w')
    /\ In "Ann Lee" (keys d).
Proof.
  intros allPeople single bridge.
  exists [("Ann Lee", [Str "555-0100"])], (snd (getAllNumbers bridge initial)).
  split; [vm_compute; reflexivity|].
  refine (getAllNumbers_keeps_every_name bridge initial
            (snd (getAllNumbers bridge initial)) (Str "Contacts") single
            [("Ann Lee", [Str "555-0100"])] allPeople
            (AppleScript.mkContactInfo "Ann Lee" ["555-0100"])
            _ _ _ _ _ _ _).
  - vm_compute. reflexivity.
  - vm_compute. reflexivity.
  - apply renders_single.
    exact (renders_record (AppleScript.mkContactInfo "Ann Lee" ["555-0100"]) _
             (renders_phone_single "555-0100")).
  - vm_compute. reflexivity.
  - left. reflexivity.
  - discriminate.
  - discriminate.
Defined.

(** ** The second access check *)

(** X15: a search that falls back checks access a second time, inside
    [getAllNumbers].  When the first probe is answered, the search's own
    query finds nothing, and the second probe is rejected, the search
    returns its empty value, the enumeration is never sent, and one line is
    logged: that of the access check with the text of the rejection, or,
    when the rejection has no string conversion, so that the access check
    throws while it builds its line, that of the handler of [getAllNumbers]
    about the conversion. *)
Theorem fallback_checks_access_again :
  forall (bridge : Bridge) (w : World) (name phoneNumber : string) (v : Value),
    bridge (calls w) accessScript = Ok v ->
    let w1 := afterCall bridge w accessScript in
    let line (e : Exn) :=
      match describe e with
      | Some text => "Cannot access Contacts app: " ++ text
      | None => "Error getting all contacts: Cannot convert object to primitive value"
      end in
    (forall (result : Value) (e : Exn),
        let query := findNumberScript (JsStr.toLowerCase name) in
        let w2 := afterCall bridge w1 query in
        isBlank name = false ->
        bridge (calls w1) query = Ok result ->
        toResultArray result = [] ->
        bridge (calls w2) accessScript = Throw e ->
        findNumber bridge name w
        = (Ok [], logged (afterCall bridge w2 accessScript) (line e))
        /\ scriptsSent w (snd (findNumber bridge name w))
           = [accessScript; query; accessScript])
    /\ (forall (result : Value) (e : Exn),
          let query := findContactByPhoneScript (normalizePhone phoneNumber) in
          let w2 := afterCall bridge w1 query in
          isBlank phoneNumber = false ->
          bridge (calls w1) query = Ok result ->
          foundNothing result ->
          bridge (calls w2) accessScript = Throw e ->
          findContactByPhone bridge phoneNumber w
          = (Ok Null, logged (afterCall bridge w2 accessScript) (line e))
          /\ scriptsSent w (snd (findContactByPhone bridge phoneNumber w))
             = [accessScript; query; accessScript]).
Proof.
  intros bridge w name phoneNumber v Ha w1 line.
  assert (Hline : forall e, rejectionLine "Error getting all contacts: " e = line e)
    by reflexivity.
  split.
  - intros result e query w2 Hb Hq Hr He.
    assert (Hf : findNumber bridge name w
                 = (Ok [], logged (afterCall bridge w2 accessScript) (line e))).
    { rewrite (findNumber_granted _ _ _ _ Ha Hb). cbv zeta.
      fold w1 query w2. rewrite Hq, Hr.
      now rewrite (getAllNumbers_rejected bridge w2 e He), Hline. }
    split; [exact Hf|]. rewrite Hf. cbn [snd].
    rewrite (scriptsSent_app w _
               [(accessScript, bridge (calls w) accessScript);
                (query, bridge (calls w1) query);
                (accessScript, bridge (calls w2) accessScript)]);
      [reflexivity|].
    subst w2 w1. cbn [logged afterCall calls]. now rewrite <- !app_assoc.
  - intros result e query w2 Hb Hq Hn He.
    assert (Hf : findContactByPhone bridge phoneNumber w
                 = (Ok Null, logged (afterCall bridge w2 accessScript) (line e))).
    { rewrite (findContactByPhone_granted _ _ _ _ Ha Hb). cbv zeta.
      fold w1 query w2. rewrite Hq, (nonBlank_foundNothing _ _ Hn).
      now rewrite (getAllNumbers_rejected bridge w2 e He), Hline. }
    split; [exact Hf|]. rewrite Hf. cbn [snd].
    rewrite (scriptsSent_app w _
               [(accessScript, bridge (calls w) accessScript);
                (query, bridge (calls w1) query);
                (accessScript, bridge (calls w2) accessScript)]);
      [reflexivity|].
    subst w2 w1. cbn [logged afterCall calls]. now rewrite <- !app_assoc.
Qed.

(** The theorem against a bridge that answers the first probe and rejects
    every later one: with an [Error], whose message is logged by the access
    check, and with an object that has no string conversion, for which the
    line is that of [getAllNumbers]. *)
Lemma fallback_checks_access_again_witness :
  findNumber (revoking (mkExn "Not authorized")) "Smith" initial
  = (Ok [],
     mkWorld [ accessGranted;
               (findNumberScript "smith", Ok Undefined);
               (accessScript, Throw (mkExn "Not authorized")) ]
             [ "Cannot access Contacts app: Not authorized" ])
  /\ findContactByPhone (revoking (Thrown (Object [("toString", Null)])))
       "555-1234" initial
     = (Ok Null,
        mkWorld [ accessGranted;
                  (findContactByPhoneScript "5551234", Ok Undefined);
                  (accessScript, Throw (Thrown (Object [("toString", Null)]))) ]
                [ "Error getting all contacts: Cannot convert object to primitive value" ]).
Proof.
  split.
  - pose proof (fallback_checks_access_again (revoking (mkExn "Not authorized"))
                  initial "Smith" "555-1234" (Str "Contacts") eq_refl) as H.
    cbv zeta in H. destruct H as [Hn _].
    etransitivity;
      [refine (proj1 (Hn Undefined (mkExn "Not authorized") _ _ _ _))|];
      vm_compute; reflexivity.
  - pose proof (fallback_checks_access_again
                  (revoking (Thrown (Object [("toString", Null)])))
                  initial "Smith" "555-1234" (Str "Contacts") eq_refl) as H.
    cbv zeta in H. destruct H as [_ Hp].
    etransitivity;
      [refine (proj1 (Hp Undefined (Thrown (Object [("toString", Null)]))
                         _ _ _ _))|];
      try (vm_compute; reflexivity).
    left. reflexivity.
Defined.

(** ** When an exception escapes *)

(** X16: the one way an exception leaves an operation.  When the probe is
    answered and the bridge rejects the operation's own query (the
    enumeration for [getAllNumbers], the targeted query of a search whose
    input is not blank) with a value that has no string conversion, the
    handler throws while it builds its line: the operation ends with the
    [TypeError] of the conversion in the world the query left, so that
    nothing is logged and nothing more is sent. *)
Theorem unconverted_rejection_escapes :
  forall (bridge : Bridge) (w : World) (name phoneNumber : string)
         (v : Value) (e : Exn),
    bridge (calls w) accessScript = Ok v ->
    describe e = None ->
    let w1 := afterCall bridge w accessScript in
    (bridge (calls w1) enumerateScript = Throw e ->
     getAllNumbers bridge w
     = (Throw conversionError, afterCall bridge w1 enumerateScript))
    /\ (isBlank name = false ->
        bridge (calls w1) (findNumberScript (JsStr.toLowerCase name)) = Throw e ->
        findNumber bridge name w
        = (Throw conversionError,
           afterCall bridge w1 (findNumberScript (JsStr.toLowerCase name))))
    /\ (isBlank phoneNumber = false ->
        bridge (calls w1) (findContactByPhoneScript (normalizePhone phoneNumber))
        = Throw e ->
        findContactByPhone bridge phoneNumber w
        = (Throw conversionError,
           afterCall bridge w1
             (findContactByPhoneScript (normalizePhone phoneNumber)))).
Proof.
  intros bridge w name phoneNumber v e Ha Hd w1. split; [|split].
  - intros He. rewrite (getAllNumbers_granted _ _ _ Ha). cbv zeta.
    fold w1. rewrite He. now apply caught_undescribed.
  - intros Hb He. rewrite (findNumber_granted _ _ _ _ Ha Hb). cbv zeta.
    fold w1. rewrite He. now apply caught_undescribed.
  - intros Hb He. rewrite (findContactByPhone_granted _ _ _ _ Ha Hb). cbv zeta.
    fold w1. rewrite He. now apply caught_undescribed.
Qed.

(** The theorem against a bridge that grants access and rejects every query
    with an object whose [toString] is not a function. *)
Lemma unconverted_rejection_escapes_witness :
  getAllNumbers unspeakable initial
  = (Throw conversionError,
     mkWorld [ accessGranted;
               (enumerateScript, Throw (Thrown (Object [("toString", Null)]))) ]
             [])
  /\ findNumber unspeakable "Smith" initial
     = (Throw conversionError,
        mkWorld [ accessGranted;
                  (findNumberScript "smith",
                   Throw (Thrown (Object [("toString", Null)]))) ]
                [])
  /\ findContactByPhone unspeakable "555-1234" initial
     = (Throw conversionError,
        mkWorld [ accessGranted;
                  (findContactByPhoneScript "5551234",
                   Throw (Thrown (Object [("toString", Null)]))) ]
                []).
Proof.
  pose proof (unconverted_rejection_escapes unspeakable initial "Smith" "555-1234"
                (Str "Contacts") (Thrown (Object [("toString", Null)]))
                eq_refl eq_refl) as H.
  cbv zeta in H. destruct H as (H1 & H2 & H3).
  split; [|split].
  - etransitivity; [apply H1|]; vm_compute; reflexivity.
  - etransitivity; [apply H2|]; vm_compute; reflexivity.
  - etransitivity; [apply H3|]; vm_compute; reflexivity.
Defined.
